(** * Cohort retention and RFM segmentation over the supercoop order export

    A shallow embedding of the analytical core of the repository
    ([src/data/dataframes.py], [src/data/features.py],
    [src/data/utils.py], [src/analysis/cohort.py], [src/analysis/rfm.py])
    together with the properties of its specification.

    Modelling conventions.
    - A dataframe is a list of row records, in row order.
    - A [datetime64[ns]] value is the integer number of nanoseconds since
      1970-01-01 (type [Z]); the calendar is the proleptic Gregorian one.
    - A [float64] value is a [fnum]: an exact rational, an infinity or NaN
      (pandas' missing value).  Arithmetic on finite values is exact.
    - A Python call either returns or raises: [result A]. *)

From Stdlib Require Import ZArith QArith Qround List String Ascii Bool Lia
  Permutation Sorted DecimalString Decimal.
Import ListNotations.
Open Scope Z_scope.

(** ** Exceptions *)

Inductive exn : Type := IndexError | ValueError | KeyError.

Inductive result (A : Type) : Type :=
| Ok (a : A)
| Raise (e : exn).
Arguments Ok {A} a.
Arguments Raise {A} e.

Definition bind {A B : Type} (c : result A) (k : A -> result B) : result B :=
  match c with
  | Ok a => k a
  | Raise e => Raise e
  end.

Notation "x <- c ;; k" := (bind c (fun x => k))
  (at level 61, c at next level, right associativity).

(** [mapM f l]: apply [f] to every element, left to right, stopping at the
    first exception. *)
Fixpoint mapM {A B : Type} (f : A -> result B) (l : list A) : result (list B) :=
  match l with
  | [] => Ok []
  | a :: l' => b <- f a ;; bs <- mapM f l' ;; Ok (b :: bs)
  end.

(** What the entry points show to the outside: console output and the calls
    to the export helpers of [src/data/utils.py]. *)
Inductive event : Type :=
| Print (msg : string)
| ExportCsv (df_name : string)
| ExportPlot (figname : string) (freq : string).

(** ** float64 *)

Inductive fnum : Type :=
| Fin (q : Q)
| PInf
| NInf
| NaN.

Module Float.

Definition Qlt_bool (a b : Q) : bool := negb (Qle_bool b a).

Definition of_Z (z : Z) : fnum := Fin (inject_Z z).

Definition isna (x : fnum) : bool :=
  match x with NaN => true | _ => false end.

(** IEEE comparisons: every comparison with NaN is false. *)
Definition ltb (x y : fnum) : bool :=
  match x, y with
  | NaN, _ | _, NaN => false
  | Fin a, Fin b => Qlt_bool a b
  | NInf, NInf => false
  | NInf, _ => true
  | _, NInf => false
  | PInf, _ => false
  | Fin _, PInf => true
  end.

Definition eqb (x y : fnum) : bool :=
  match x, y with
  | Fin a, Fin b => Qeq_bool a b
  | PInf, PInf | NInf, NInf => true
  | _, _ => false
  end.

Definition leb (x y : fnum) : bool := ltb x y || eqb x y.

(** Equality as used by hashing ([algos.unique]): NaN equals NaN. *)
Definition same (x y : fnum) : bool :=
  match x, y with
  | NaN, NaN => true
  | _, _ => eqb x y
  end.

Definition neg (x : fnum) : fnum :=
  match x with
  | Fin a => Fin (- a)
  | PInf => NInf
  | NInf => PInf
  | NaN => NaN
  end.

Definition add (x y : fnum) : fnum :=
  match x, y with
  | NaN, _ | _, NaN => NaN
  | Fin a, Fin b => Fin (a + b)
  | PInf, NInf | NInf, PInf => NaN
  | PInf, _ | _, PInf => PInf
  | NInf, _ | _, NInf => NInf
  end.

Definition sub (x y : fnum) : fnum := add x (neg y).

(** Sign of an infinite product or quotient; zero counts as positive
    (signed zeros are not modelled). *)
Definition inf_of_sign (positive : bool) : fnum :=
  if positive then PInf else NInf.

Definition mul_inf (positive : bool) (y : fnum) : fnum :=
  match y with
  | NaN => NaN
  | Fin b => if Qeq_bool b 0 then NaN
             else inf_of_sign (Bool.eqb positive (Qlt_bool 0 b))
  | PInf => inf_of_sign positive
  | NInf => inf_of_sign (negb positive)
  end.

Definition mul (x y : fnum) : fnum :=
  match x, y with
  | Fin a, Fin b => Fin (a * b)
  | PInf, _ => mul_inf true y
  | NInf, _ => mul_inf false y
  | _, PInf => mul_inf true x
  | _, NInf => mul_inf false x
  | NaN, _ | _, NaN => NaN
  end.

Definition div (x y : fnum) : fnum :=
  match x, y with
  | NaN, _ | _, NaN => NaN
  | Fin a, Fin b =>
      if Qeq_bool b 0
      then (if Qeq_bool a 0 then NaN else inf_of_sign (Qlt_bool 0 a))
      else Fin (a / b)
  | Fin _, _ => Fin 0
  | PInf, Fin b => inf_of_sign (Qle_bool 0 b)
  | NInf, Fin b => inf_of_sign (negb (Qle_bool 0 b))
  | _, _ => NaN
  end.

(** [rint]: round to the nearest integer, ties to the even one. *)
Definition rint (q : Q) : Z :=
  let f := Qfloor q in
  let r := (q - inject_Z f)%Q in
  if Qlt_bool r (1 # 2) then f
  else if Qlt_bool (1 # 2) r then f + 1
  else if Z.even f then f else f + 1.

(** [numpy.round(x, 2)]: [rint (x * 100) / 100]. *)
Definition round2 (x : fnum) : fnum :=
  match x with
  | Fin q => Fin (inject_Z (rint (q * 100)) / 100)
  | _ => x
  end.

(** Sum that skips missing values ([skipna=True]); the empty sum is 0. *)
Definition nansum (l : list fnum) : fnum :=
  fold_left add (filter (fun x => negb (isna x)) l) (Fin 0).

(** Mean that skips missing values; NaN when nothing is left. *)
Definition nanmean (l : list fnum) : fnum :=
  match filter (fun x => negb (isna x)) l with
  | [] => NaN
  | v => div (fold_left add v (Fin 0)) (of_Z (Z.of_nat (List.length v)))
  end.

End Float.

(** ** Row helpers shared by the groupby, pivot and binning code *)

Section ListOps.
Context {A : Type}.
Variable eqb : A -> A -> bool.
Variable leb : A -> A -> bool.

(** [pandas.unique]: the distinct values in order of first appearance. *)
Fixpoint unique (l : list A) : list A :=
  match l with
  | [] => []
  | x :: l' => x :: filter (fun y => negb (eqb x y)) (unique l')
  end.

Fixpoint insert (x : A) (l : list A) : list A :=
  match l with
  | [] => [x]
  | y :: l' => if leb x y then x :: l else y :: insert x l'
  end.

(** Stable ascending sort. *)
Definition sort (l : list A) : list A := fold_right insert [] l.

(** Group keys of a [groupby(..., sort=True)] and the labels of a pivot
    axis: distinct values, ascending. *)
Definition sorted_unique (l : list A) : list A := sort (unique l).
End ListOps.

Definition pair_eqb (a b : Z * Z) : bool :=
  (fst a =? fst b) && (snd a =? snd b).

(** Lexicographic order on two-column group keys. *)
Definition pair_leb (a b : Z * Z) : bool :=
  (fst a <? fst b) || ((fst a =? fst b) && (snd a <=? snd b)).

(** ** Calendar: [Series.dt.to_period] and [to_timestamp] *)

Module Calendar.

Definition NS_PER_DAY : Z := 86400 * 1000000000.

(** Day number of a timestamp (days since 1970-01-01, floor). *)
Definition unix_date (t : Z) : Z := t / NS_PER_DAY.

(** Gregorian (year, month, day) of a day number. *)
Definition civil_from_days (d : Z) : Z * Z * Z :=
  let z := d + 719468 in
  let era := z / 146097 in
  let doe := z - era * 146097 in
  let yoe := (doe - doe / 1460 + doe / 36524 - doe / 146096) / 365 in
  let doy := doe - (365 * yoe + yoe / 4 - yoe / 100) in
  let mp := (5 * doy + 2) / 153 in
  let day := doy - (153 * mp + 2) / 5 + 1 in
  let m := if mp <? 10 then mp + 3 else mp - 9 in
  let y := yoe + era * 400 in
  (if m <=? 2 then y + 1 else y, m, day).

(** Day number of a Gregorian date. *)
Definition days_from_civil (y m d : Z) : Z :=
  let y' := if m <=? 2 then y - 1 else y in
  let era := y' / 400 in
  let yoe := y' - era * 400 in
  let mp := if 2 <? m then m - 3 else m + 9 in
  let doy := (153 * mp + 2) / 5 + d - 1 in
  let doe := yoe * 365 + yoe / 4 - yoe / 100 + doy in
  era * 146097 + doe - 719468.

(** Ordinal of the month containing day [d]; 1970-01 is month 0. *)
Definition month_ordinal (d : Z) : Z :=
  let '(y, m, _) := civil_from_days d in (y - 1970) * 12 + (m - 1).

(** Day number of the first day of month [o]. *)
Definition month_start (o : Z) : Z :=
  days_from_civil (1970 + o / 12) (o mod 12 + 1) 1.

(** The offset aliases the repository uses. *)
Inductive Freq : Type := FreqW | FreqM | FreqQ.

Definition offset_alias (s : string) : option Freq :=
  if String.eqb s "W" then Some FreqW
  else if String.eqb s "M" then Some FreqM
  else if String.eqb s "Q" then Some FreqQ
  else None.

(** [to_period(freq)]: the ordinal of the period containing a timestamp.
    Weeks are W-SUN (Monday to Sunday); 1970-01-01 was a Thursday. *)
Definition to_period (f : Freq) (t : Z) : Z :=
  match f with
  | FreqW => (unix_date t + 3) / 7 + 1
  | FreqM => month_ordinal (unix_date t)
  | FreqQ => month_ordinal (unix_date t) / 3
  end.

(** [to_timestamp()]: the timestamp at which a period starts. *)
Definition to_timestamp (f : Freq) (o : Z) : Z :=
  match f with
  | FreqW => ((o - 1) * 7 - 3) * NS_PER_DAY
  | FreqM => month_start o * NS_PER_DAY
  | FreqQ => month_start (3 * o) * NS_PER_DAY
  end.

(** The range check used to validate the calendar over one 400-year
    cycle. *)
Definition range_step (p : Z -> bool) (st : Z * bool) : Z * bool :=
  (fst st + 1, snd st && p (fst st)).

Definition all_below (n : positive) (p : Z -> bool) : bool :=
  snd (Pos.iter (range_step p) (0, true) n).

Definition month_bracket (d : Z) : bool :=
  let o := month_ordinal d in
  (month_start o <=? d) && (d <? month_start (o + 1)).

End Calendar.

(** ** The members table as the analyzers read it

    One row per member and order.  The analyzers select [member_ID],
    [delivery_date] and [order_request_value]; the latter is a number or
    missing. *)

Record member : Type := {
  member_ID : Z;
  delivery_date : Z;
  order_request_value : option Q
}.

(** A two-dimensional frame with integer row and column labels, row major. *)
Record DataFrame : Type := {
  index : list Z;
  columns : list Z;
  values : list (list fnum)
}.

(** [df.loc[i, c]]: the cell at row label [i] and column label [c]. *)
Fixpoint position (x : Z) (l : list Z) : option nat :=
  match l with
  | [] => None
  | y :: l' => if x =? y then Some O else option_map S (position x l')
  end.

Definition loc (df : DataFrame) (i c : Z) : option fnum :=
  match position i (index df), position c (columns df) with
  | Some r, Some k => nth_error (nth r (values df) []) k
  | _, _ => None
  end.

(** A retention cell as the specification wants it: a fraction between 0
    and 1, or missing. *)
Definition fraction_or_missing (v : fnum) : Prop :=
  v = NaN \/ exists q, v = Fin q /\ (0 <= q <= 1)%Q.

(** The account of the cooperative itself, left out of every analysis. *)
Definition COMPANY_ACCOUNT : Z := 46.

Definition drop_company_account (df : list member) : list member :=
  filter (fun r => negb (member_ID r =? COMPANY_ACCOUNT)) df.

(** ** src/analysis/cohort.py *)

Module Cohort.
Import Calendar.

Record cohort_row : Type := {
  c_member_ID : Z;
  c_delivery_freq : Z;
  c_cohort : Z
}.

Record agg_row : Type := {
  cohort : Z;
  delivery_freq : Z;
  n_members : Z;
  period_number : Z
}.

(** [groupby('member_ID')['delivery_date'].transform('min')] at one row. *)
Definition transform_min (df : list member) (r : member) : Z :=
  fold_right Z.min (delivery_date r)
    (map delivery_date
       (filter (fun r' => member_ID r' =? member_ID r) df)).

(** The frame after the [delivery_freq] and [cohort] columns are added. *)
Definition add_cohort (f : Freq) (df : list member) : list cohort_row :=
  map (fun r => {| c_member_ID := member_ID r;
                   c_delivery_freq := to_period f (delivery_date r);
                   c_cohort := to_period f (transform_min df r) |}) df.

Definition nunique (l : list Z) : Z :=
  Z.of_nat (List.length (unique Z.eqb l)).

(** The group key of a row, and the [member_ID] column of one group. *)
Definition key (r : cohort_row) : Z * Z := (c_cohort r, c_delivery_freq r).

Definition group (mc : list cohort_row) (k : Z * Z) : list Z :=
  map c_member_ID (filter (fun r => pair_eqb (key r) k) mc).

(** [groupby(['cohort', 'delivery_freq']).agg(n_members=('member_ID',
    'nunique'))] followed by the [period_number] column: one row per
    group, the keys ascending. *)
Definition agg_of (mc : list cohort_row) (k : Z * Z) : agg_row :=
  {| cohort := fst k;
     delivery_freq := snd k;
     n_members := nunique (group mc k);
     period_number := snd k - fst k |}.

Definition aggregate (mc : list cohort_row) : list agg_row :=
  map (agg_of mc) (sorted_unique pair_eqb pair_leb (map key mc)).

(** One cell of the pivot: the mean of [n_members] over the rows with that
    cohort and period number, NaN when there is none. *)
Definition cell (agg : list agg_row) (c k : Z) : fnum :=
  Float.nanmean
    (map (fun r => Float.of_Z (n_members r))
       (filter (fun r => (cohort r =? c) && (period_number r =? k)) agg)).

(** [pivot_table(index='cohort', columns='period_number',
    values='n_members')]; the default aggregation is the mean. *)
Definition pivot_table (agg : list agg_row) : DataFrame :=
  let idx := sorted_unique Z.eqb Z.leb (map cohort agg) in
  let cols := sorted_unique Z.eqb Z.leb (map period_number agg) in
  {| index := idx;
     columns := cols;
     values := map (fun c => map (cell agg c) cols) idx |}.

(** [df.iloc[:, 0]]: the first column, by position. *)
Definition iloc_first_column (df : DataFrame) : result (list fnum) :=
  match columns df with
  | [] => Raise IndexError
  | _ :: _ => Ok (map (fun row => hd NaN row) (values df))
  end.

(** [df.div(s, axis=0)]: every row divided by the entry of [s] with the
    same row label. *)
Fixpoint div_rows (rows : list (list fnum)) (s : list fnum) : list (list fnum) :=
  match rows, s with
  | row :: rows', x :: s' => map (fun v => Float.div v x) row :: div_rows rows' s'
  | row :: rows', [] => map (fun _ => NaN) row :: div_rows rows' []
  | [], _ => []
  end.

Definition make_retention_matrix (df_members : list member) (freq : string)
  : result (DataFrame * DataFrame) :=
  match offset_alias freq with
  | None => Raise ValueError
  | Some f =>
      let members_cohort := add_cohort f df_members in
      let members_cohort := aggregate members_cohort in
      let cohort_pivot := pivot_table members_cohort in
      cohort_size <- iloc_first_column cohort_pivot ;;
      let retention_matrix :=
        {| index := index cohort_pivot;
           columns := columns cohort_pivot;
           values := div_rows (values cohort_pivot) cohort_size |} in
      Ok (retention_matrix, cohort_pivot)
  end.

Definition invalid_freq_message : string :=
  "Your input is not valid! Choose either {'M', 'Q'} as freq.".

(** The entry point.  [Ok None] is Python's bare [return]. *)
Definition main (df_members : list member) (freq : string) (export_plot : bool)
  : list event * result (option (DataFrame * DataFrame)) :=
  if negb (existsb (String.eqb freq) ["M"; "Q"]%string)
  then ([Print invalid_freq_message], Ok None)
  else
    let df_members := drop_company_account df_members in
    match make_retention_matrix df_members freq with
    | Raise e => ([], Raise e)
    | Ok (retention_matrix, cohort_pivot) =>
        ((if export_plot then [ExportPlot "retention_matrix" freq] else []),
         Ok (Some (retention_matrix, cohort_pivot)))
    end.

End Cohort.

(** ** src/analysis/rfm.py *)

Module Rfm.
Import Calendar.

(** One row per member and active period, after the first groupby. *)
Record period_row : Type := {
  p_delivery_date : Z;
  p_member_ID : Z;
  p_order_request_value : fnum
}.

(** The RFM table; [rfm_member_ID] is its index.  A recency of [None] is
    NaN (the difference with a missing [period_end]). *)
Record rfm_row : Type := {
  rfm_member_ID : Z;
  recency : option Z;
  frequency : Z;
  monetary_value : fnum
}.

Record scored_row : Type := {
  row : rfm_row;
  r_score : option Z;
  f_score : option Z;
  m_score : option Z;
  rfm_score : string
}.

Record bin_info : Type := {
  r_bins : list fnum;
  f_bins : list fnum;
  m_bins : list fnum
}.

Definition of_option (v : option Q) : fnum :=
  match v with
  | Some q => Fin q
  | None => NaN
  end.

(** [Series.max()] of a datetime column; [None] is NaT (empty column). *)
Definition max_date (l : list Z) : option Z :=
  match l with
  | [] => None
  | t :: l' => Some (fold_left Z.max l' t)
  end.

(** [freq_timedeltas], in nanoseconds.  A numpy month is the mean
    Gregorian month of 2629746 seconds. *)
Definition freq_timedeltas (f : Freq) : Z :=
  match f with
  | FreqW => 7 * NS_PER_DAY
  | FreqM => 2629746 * 1000000000
  | FreqQ => 3 * (2629746 * 1000000000)
  end.

(** [groupby(['delivery_date', 'member_ID'], sort=False,
    as_index=False).sum()]: one row per key, in order of first appearance. *)
Definition sum_by_period (rows : list period_row) : list period_row :=
  map (fun k =>
         {| p_delivery_date := fst k;
            p_member_ID := snd k;
            p_order_request_value :=
              Float.nansum
                (map p_order_request_value
                   (filter (fun r => pair_eqb (p_delivery_date r, p_member_ID r) k)
                           rows)) |})
      (unique pair_eqb (map (fun r => (p_delivery_date r, p_member_ID r)) rows)).

(** [groupby('member_ID').agg({'delivery_date': 'max', 'member_ID': 'count',
    'order_request_value': 'mean'})] and the recency computation, for the
    group of member [m]. *)
Definition aggregate_member (f : Freq) (period_end : option Z)
    (rows : list period_row) (m : Z) : rfm_row :=
  let g := filter (fun r => p_member_ID r =? m) rows in
  let last := max_date (map p_delivery_date g) in
  {| rfm_member_ID := m;
     recency :=
       match period_end, last with
       | Some e, Some t => Some ((e - t) / freq_timedeltas f)
       | _, _ => None
       end;
     frequency := Z.of_nat (List.length g);
     monetary_value := Float.nanmean (map p_order_request_value g) |}.

Definition make_table (df_members : list member) (freq : string)
  : result (list rfm_row) :=
  match offset_alias freq with
  | None => Raise ValueError
  | Some f =>
      let df := drop_company_account df_members in
      let period_end := max_date (map delivery_date df) in
      let rfm_table :=
        map (fun r =>
               {| p_delivery_date := to_timestamp f (to_period f (delivery_date r));
                  p_member_ID := member_ID r;
                  p_order_request_value := of_option (order_request_value r) |})
            df in
      let rfm_table := sum_by_period rfm_table in
      Ok (map (aggregate_member f period_end rfm_table)
              (sorted_unique Z.eqb Z.leb (map p_member_ID rfm_table)))
  end.

(** *** Binning: [pandas.cut] and [pandas.qcut] *)

(** [bins.searchsorted(x, side='left')]: the number of bin edges below
    [x]; NaN sorts after everything. *)
Definition searchsorted_left (bins : list fnum) (x : fnum) : nat :=
  if Float.isna x
  then List.length (filter (fun b => negb (Float.isna b)) bins)
  else List.length (filter (fun b => Float.ltb b x) bins).

(** [_bins_to_cuts] with [right=True] and [duplicates='raise']. *)
Definition bins_to_cuts (x : list fnum) (bins : list fnum) (labels : list Z)
    (include_lowest : bool) : result (list (option Z)) :=
  if (List.length (unique Float.same bins) <? List.length bins)%nat
     && negb (List.length bins =? 2)%nat
  then Raise ValueError
  else if negb (S (List.length labels) =? List.length bins)%nat
  then Raise ValueError
  else
    Ok (map (fun v =>
               let ids := searchsorted_left bins v in
               let ids :=
                 if include_lowest && Float.eqb v (hd NaN bins) then 1%nat else ids in
               if Float.isna v || (ids =? List.length bins)%nat || (ids =? 0)%nat
               then None
               else nth_error labels (ids - 1))
            x).

(** Are the bin edges non-decreasing?  (NaN edges compare false.) *)
Fixpoint increasing (bins : list fnum) : bool :=
  match bins with
  | a :: (b :: _) as l => negb (Float.ltb b a) && increasing l
  | _ => true
  end.

(** [pandas.cut(x, bins=<sequence>, labels=..., include_lowest=...)]. *)
Definition cut (x : list fnum) (bins : list fnum) (labels : list Z)
    (include_lowest : bool) : result (list (option Z) * list fnum) :=
  if negb (increasing bins) then Raise ValueError
  else
    ids <- bins_to_cuts x bins labels include_lowest ;;
    Ok (ids, bins).

(** [algos.quantile] with linear interpolation over the sorted non-missing
    values. *)
Definition quantile (x : list fnum) (at_ : Q) : fnum :=
  let values := sort Float.leb (filter (fun v => negb (Float.isna v)) x) in
  match values with
  | [] => NaN
  | _ :: _ =>
      let idx := (at_ * inject_Z (Z.of_nat (List.length values - 1)))%Q in
      let lo := Qfloor idx in
      let frac := (idx - inject_Z lo)%Q in
      let a := nth (Z.to_nat lo) values NaN in
      if Qeq_bool frac 0 then a
      else
        let b := nth (Z.to_nat lo + 1) values NaN in
        Float.add a (Float.mul (Float.sub b a) (Fin frac))
  end.

(** [numpy.linspace(0, 1, 5)]. *)
Definition quartiles : list Q := [0; 1 # 4; 1 # 2; 3 # 4; 1]%Q.

(** [pandas.qcut(x, 4, labels=range(1, 5), retbins=True)]. *)
Definition qcut (x : list fnum) : result (list (option Z) * list fnum) :=
  let bins := map (quantile x) quartiles in
  ids <- bins_to_cuts x bins [1; 2; 3; 4] true ;;
  Ok (ids, bins).

(** [freqs]: periods per year. *)
Definition freqs (f : Freq) : Z :=
  match f with
  | FreqW => 52
  | FreqM => 12
  | FreqQ => 4
  end.

(** [[x * freqs[freq] for x in [0, 0.25, 0.5, 1, np.inf]]]. *)
Definition r_range (f : Freq) : list fnum :=
  map (fun x => Float.mul x (Float.of_Z (freqs f)))
      [Fin 0; Fin (1 # 4); Fin (1 # 2); Fin 1; PInf].

(** The recency score as the specification words it: fixed bins with the
    edges 0, 0.25, 0.5, 1 and infinity times the periods per year, the
    lowest edge included, labelled 4 (most recent) down to 1. *)
Definition spec_r_score (f : Freq) (recency : option Z) : option Z :=
  match recency with
  | None => None
  | Some k =>
      let p := freqs f in
      if k <? 0 then None
      else if 4 * k <=? p then Some 4
      else if 2 * k <=? p then Some 3
      else if k <=? p then Some 2
      else Some 1
  end.

(** A score digit: one of 1, 2, 3, 4. *)
Definition is_score (s : option Z) : Prop :=
  exists l, s = Some l /\ 1 <= l <= 4.

(** The decimal digit of a score, as a character. *)
Definition digit (l : Z) : ascii := ascii_of_nat (48 + Z.to_nat l).

(** What the specification asks of a row of the table, and of a scored
    row. *)
Definition well_formed_row (x : rfm_row) : Prop :=
  1 <= frequency x /\ exists k, recency x = Some k /\ 0 <= k.

Definition well_scored (s : scored_row) : Prop :=
  well_formed_row (row s)
  /\ exists r f m,
       r_score s = Some r /\ f_score s = Some f /\ m_score s = Some m
       /\ 1 <= r <= 4 /\ 1 <= f <= 4 /\ 1 <= m <= 4
       /\ rfm_score s = String (digit r) (String (digit f) (String (digit m) "")).

Definition recency_value (r : option Z) : fnum :=
  match r with
  | Some k => Float.of_Z k
  | None => NaN
  end.

(** [astype(str)] of a categorical score. *)
Definition score_str (s : option Z) : string :=
  match s with
  | Some k => NilZero.string_of_int (Z.to_int k)
  | None => "nan"
  end.

Fixpoint zip_scores (rows : list rfm_row) (r f m : list (option Z))
  : list scored_row :=
  match rows, r, f, m with
  | x :: rows', rs :: r', fs :: f', ms :: m' =>
      {| row := x; r_score := rs; f_score := fs; m_score := ms;
         rfm_score := score_str rs ++ score_str fs ++ score_str ms |}
      :: zip_scores rows' r' f' m'
  | _, _, _, _ => []
  end.

Definition add_score (rfm_table : list rfm_row) (freq : string)
  : result (list scored_row * bin_info) :=
  match offset_alias freq with
  | None => Raise KeyError
  | Some f =>
      r <- cut (map (fun x => recency_value (recency x)) rfm_table)
               (r_range f) [4; 3; 2; 1] true ;;
      fq <- qcut (map (fun x => Float.of_Z (frequency x)) rfm_table) ;;
      mq <- qcut (map monetary_value rfm_table) ;;
      Ok (zip_scores rfm_table (fst r) (fst fq) (fst mq),
          {| r_bins := snd r; f_bins := snd fq; m_bins := snd mq |})
  end.

Definition invalid_freq_message : string :=
  "Your input is not valid! Choose either {'W', 'M'} as freq.".

(** The entry point.  [Ok None] is Python's bare [return]. *)
Definition main (df_members : list member) (freq : string)
    (export_csv export_plot : bool)
  : list event * result (option (list scored_row)) :=
  if negb (existsb (String.eqb freq) ["W"; "M"]%string)
  then ([Print invalid_freq_message], Ok None)
  else
    match (rfm_table <- make_table df_members freq ;; add_score rfm_table freq) with
    | Raise e => ([], Raise e)
    | Ok (rfm_table, _) =>
        ((if export_csv
          then [ExportCsv "rfm_table"; Print "export rfm_table done"]
          else [])
         ++ (if export_plot then [ExportPlot "rfm_heatmap" freq] else []),
         Ok (Some rfm_table))
    end.

End Rfm.

(** ** Strings and object cells *)

Module Str.

(** Whitespace as matched by [\s] and stripped by [float()], in ASCII. *)
Definition is_space (c : ascii) : bool :=
  let n := nat_of_ascii c in
  (((9 <=? n) && (n <=? 13)) || ((28 <=? n) && (n <=? 32)))%nat.

Definition is_digit (c : ascii) : bool :=
  let n := nat_of_ascii c in ((48 <=? n) && (n <=? 57))%nat.

Definition digit_value (c : ascii) : Z := Z.of_nat (nat_of_ascii c) - 48.

(** [re.sub(',', '.', s)]. *)
Fixpoint replace_comma (s : string) : string :=
  match s with
  | EmptyString => EmptyString
  | String c s' =>
      String (if Ascii.eqb c ","%char then "."%char else c) (replace_comma s')
  end.

(** Does [^\s*$] match? *)
Fixpoint is_blank (s : string) : bool :=
  match s with
  | EmptyString => true
  | String c s' => is_space c && is_blank s'
  end.

Fixpoint lstrip (s : string) : string :=
  match s with
  | String c s' => if is_space c then lstrip s' else s
  | EmptyString => EmptyString
  end.

Fixpoint rstrip (s : string) : string :=
  match s with
  | EmptyString => EmptyString
  | String c s' =>
      match rstrip s' with
      | EmptyString => if is_space c then EmptyString else String c EmptyString
      | r => String c r
      end
  end.

Definition lower (c : ascii) : ascii :=
  let n := nat_of_ascii c in
  if ((65 <=? n) && (n <=? 90))%nat then ascii_of_nat (n + 32) else c.

Fixpoint lowercase (s : string) : string :=
  match s with
  | EmptyString => EmptyString
  | String c s' => String (lower c) (lowercase s')
  end.

(** Leading decimal digits: their value, how many, and the rest. *)
Fixpoint digits (s : string) (acc : Z) (n : nat) : Z * nat * string :=
  match s with
  | String c s' =>
      if is_digit c then digits s' (10 * acc + digit_value c) (S n)
      else (acc, n, s)
  | EmptyString => (acc, n, s)
  end.

Definition sign (s : string) : bool * string :=
  match s with
  | String "-"%char s' => (true, s')
  | String "+"%char s' => (false, s')
  | _ => (false, s)
  end.

Definition pow10 (e : Z) : Q :=
  if 0 <=? e then inject_Z (10 ^ e) else (1 / inject_Z (10 ^ (- e)))%Q.

(** The exponent part: empty, or [e] or [E], an optional sign and at
    least one digit, up to the end of the string. *)
Definition exponent (s : string) : option Z :=
  match s with
  | EmptyString => Some 0
  | String c s' =>
      if Ascii.eqb (lower c) "e"%char then
        let '(neg, s1) := sign s' in
        match digits s1 0 0 with
        | (_, O, _) => None
        | (e, _, EmptyString) => Some (if neg then - e else e)
        | _ => None
        end
      else None
  end.

(** Python's [float(s)] on decimal literals, [inf], [infinity] and [nan];
    [None] is a [ValueError].  Digit-group underscores are not accepted
    here.  The value of a literal is taken exactly. *)
Definition float_of_string (s : string) : option fnum :=
  let '(neg, s1) := sign (rstrip (lstrip s)) in
  let low := lowercase s1 in
  if String.eqb low "inf" || String.eqb low "infinity"
  then Some (if neg then NInf else PInf)
  else if String.eqb low "nan" then Some NaN
  else
    let '(ip, ni, s2) := digits s1 0 0 in
    let '(fp, nf, s3) :=
      match s2 with
      | String "."%char s' => digits s' 0 0
      | _ => (0, O, s2)
      end in
    match (ni + nf)%nat, exponent s3 with
    | S _, Some e =>
        let m := ((inject_Z ip + inject_Z fp / inject_Z (10 ^ Z.of_nat nf))
                  * pow10 e)%Q in
        Some (Fin (Qred (if neg then - m else m)))
    | _, _ => None
    end.

End Str.

(** A cell of an object column: a Python string or a float (NaN doubles as
    the missing value [None]). *)
Inductive obj : Type :=
| OStr (s : string)
| OFloat (x : fnum).

Module Obj.

(** [replace(',', '.', regex=True)] at one cell: strings only. *)
Definition replace_comma (v : obj) : obj :=
  match v with
  | OStr s => OStr (Str.replace_comma s)
  | OFloat _ => v
  end.

(** [replace('', np.nan, regex=True)] at one cell: an empty pattern is not
    used as a regular expression, only the empty string is replaced. *)
Definition replace_empty (v : obj) : obj :=
  match v with
  | OStr EmptyString => OFloat NaN
  | _ => v
  end.

(** [replace(r'^\s*$', 0, regex=True)] at one cell. *)
Definition replace_blank (v : obj) : obj :=
  match v with
  | OStr s => if Str.is_blank s then OFloat (Fin 0) else v
  | OFloat _ => v
  end.

(** [astype('float')] at one cell. *)
Definition astype_float (v : obj) : result obj :=
  match v with
  | OFloat _ => Ok v
  | OStr s =>
      match Str.float_of_string s with
      | Some x => Ok (OFloat x)
      | None => Raise ValueError
      end
  end.

Definition is_float (v : obj) : bool :=
  match v with
  | OFloat _ => true
  | OStr _ => false
  end.

End Obj.

(** ** src/data/dataframes.py *)

Module Dataframes.

(** The fields of one entry of an order's [products] mapping that the
    builder touches. *)
Record product_fields : Type := {
  tax_rate : obj;
  net_price : obj;
  bundle_size : obj;
  supplier_code : obj;
  amount_ordered : obj;
  bundles_ordered : obj
}.

(** An order row: its index label and its [products] mapping, keyed by
    product id, in insertion order. *)
Record order : Type := {
  order_ID : Z;
  products : list (string * product_fields)
}.

(** A row of the products table, indexed by [(order_ID, product_ID)]. *)
Record product : Type := {
  p_order_ID : Z;
  p_product_ID : string;
  fields : product_fields
}.

Definition map_float_cols (g : obj -> obj) (p : product_fields) : product_fields :=
  {| tax_rate := g (tax_rate p);
     net_price := g (net_price p);
     bundle_size := g (bundle_size p);
     supplier_code := g (supplier_code p);
     amount_ordered := g (amount_ordered p);
     bundles_ordered := g (bundles_ordered p) |}.

(** [astype({'tax_rate': 'float', 'net_price': 'float', 'bundle_size':
    'float', 'amount_ordered': 'float', 'bundles_ordered': 'float'})] at
    one row. *)
Definition astype_row (p : product_fields) : result product_fields :=
  t <- Obj.astype_float (tax_rate p) ;;
  n <- Obj.astype_float (net_price p) ;;
  b <- Obj.astype_float (bundle_size p) ;;
  a <- Obj.astype_float (amount_ordered p) ;;
  o <- Obj.astype_float (bundles_ordered p) ;;
  Ok {| tax_rate := t; net_price := n; bundle_size := b;
        supplier_code := supplier_code p;
        amount_ordered := a; bundles_ordered := o |}.

(** The five columns named in the [astype] call hold floats. *)
Definition float_columns (r : product) : Prop :=
  Obj.is_float (tax_rate (fields r)) = true
  /\ Obj.is_float (net_price (fields r)) = true
  /\ Obj.is_float (bundle_size (fields r)) = true
  /\ Obj.is_float (amount_ordered (fields r)) = true
  /\ Obj.is_float (bundles_ordered (fields r)) = true.

Definition make_df_products (df_orders : list order) : result (list product) :=
  let df_products :=
    flat_map (fun o =>
                map (fun kv => {| p_order_ID := order_ID o;
                                  p_product_ID := fst kv;
                                  fields := snd kv |})
                    (products o))
             df_orders in
  let df_products :=
    map (fun r => {| p_order_ID := p_order_ID r;
                     p_product_ID := p_product_ID r;
                     fields := map_float_cols Obj.replace_comma (fields r) |})
        df_products in
  let df_products :=
    map (fun r => {| p_order_ID := p_order_ID r;
                     p_product_ID := p_product_ID r;
                     fields := map_float_cols Obj.replace_empty (fields r) |})
        df_products in
  mapM (fun r =>
          f <- astype_row (fields r) ;;
          Ok {| p_order_ID := p_order_ID r;
                p_product_ID := p_product_ID r;
                fields := f |})
       df_products.

End Dataframes.

(** ** src/data/features.py *)

Module Features.

(** The tables as the Feature Deriver receives them (the columns it
    reads), and as it returns them (with the derived columns). *)
Record order : Type := {
  order_ID : Z;
  delivery_date : Z
}.

Record order_feat : Type := {
  o_order : order;
  total_order_value : fnum;
  num_participating_members : fnum
}.

Record product : Type := {
  p_order_ID : Z;
  p_product_ID : string;
  net_price : fnum;
  amount_ordered : fnum
}.

Record product_feat : Type := {
  p_product : product;
  net_total_price : fnum
}.

(** [order_requests] maps a product id to the pair
    [[filled_amount, ordered_amount]], in insertion order. *)
Record member : Type := {
  member_ID : Z;
  m_order_ID : Z;
  order_requests : list (string * (obj * obj))
}.

(** A members row after the left merge; [None] is NaT (no such order). *)
Record member_merged : Type := {
  m_member : member;
  m_delivery_date : option Z
}.

Record member_feat : Type := {
  f_member : member_merged;
  f_order_request_value : fnum
}.

(** [df_products.loc[(order_ID, product_ID), 'net_price']] for a list of
    product ids: the prices of the rows of that order, in the order of
    the requested ids.  An order label absent from the table, or a
    requested product absent from the order, is a lookup failure. *)
Definition loc_net_price (df_products : list product_feat) (order_ID : Z)
    (product_ID : list string) : result (list fnum) :=
  let of_order :=
    filter (fun r => p_order_ID (p_product r) =? order_ID) df_products in
  match of_order with
  | [] => Raise KeyError
  | _ :: _ =>
      rows <- mapM (fun k =>
                      match filter (fun r => String.eqb (p_product_ID (p_product r)) k)
                                   of_order with
                      | [] => Raise KeyError
                      | found => Ok (map (fun r => net_price (p_product r)) found)
                      end)
                   product_ID ;;
      Ok (List.concat rows)
  end.

(** Product of two series with a default integer index: positions present
    in only one of them give NaN. *)
Fixpoint mul_aligned (a b : list fnum) : list fnum :=
  match a, b with
  | x :: a', y :: b' => Float.mul x y :: mul_aligned a' b'
  | _ :: a', [] => NaN :: mul_aligned a' []
  | [], l => map (fun _ => NaN) l
  end.

Definition as_float (v : obj) : fnum :=
  match v with
  | OFloat x => x
  | OStr _ => NaN
  end.

(** The body of the loop of [order_request_value], for one members row. *)
Definition request_value (df_products : list product_feat) (r : member_merged)
  : result fnum :=
  let order_ID := m_order_ID (m_member r) in
  let order_request := order_requests (m_member r) in
  let product_ID := map fst order_request in
  let filled_amount := map (fun kv => Obj.replace_comma (fst (snd kv))) order_request in
  filled_amount <- mapM (fun v => Obj.astype_float (Obj.replace_blank v)) filled_amount ;;
  net_price <- loc_net_price df_products order_ID product_ID ;;
  Ok (Float.round2
        (Float.nansum (mul_aligned net_price (map as_float filled_amount)))).

Definition order_request_value (df_members : list member_merged)
    (df_products : list product_feat) : result (list member_feat) :=
  mapM (fun r =>
          v <- request_value df_products r ;;
          Ok {| f_member := r; f_order_request_value := v |})
       df_members.





(** The order total as the specification words it: the sum of
    [net_total_price] over the product rows of the order, rounded to two
    decimals. *)
Definition spec_total_order_value (df_products : list product_feat) (o : Z) : fnum :=
  Float.round2
    (Float.nansum
       (map net_total_price
          (filter (fun r => p_order_ID (p_product r) =? o) df_products))).

(** [df_members.merge(df_orders['delivery_date'].reset_index(), how='left',
    on='order_ID')]. *)
Definition merge_delivery_date (df_members : list member) (df_orders : list order)
  : list member_merged :=
  flat_map (fun r =>
              match filter (fun o => order_ID o =? m_order_ID r) df_orders with
              | [] => [{| m_member := r; m_delivery_date := None |}]
              | found =>
                  map (fun o => {| m_member := r;
                                   m_delivery_date := Some (delivery_date o) |})
                      found
              end)
           df_members.

(** [df_products.groupby('order_ID')['net_total_price'].sum()] looked up at
    one order label; an order without product rows has no group. *)
Definition group_sum (df_products : list product_feat) (o : Z) : option fnum :=
  match filter (fun r => p_order_ID (p_product r) =? o) df_products with
  | [] => None
  | g => Some (Float.nansum (map net_total_price g))
  end.

(** [df_members.groupby('order_ID').size()] looked up at one order label. *)
Definition group_size (df_members : list member_merged) (o : Z) : option fnum :=
  match filter (fun r => m_order_ID (m_member r) =? o) df_members with
  | [] => None
  | g => Some (Float.of_Z (Z.of_nat (List.length g)))
  end.

(** Assigning a series to a column aligns on the index: labels without an
    entry get NaN. *)
Definition aligned (v : option fnum) : fnum :=
  match v with
  | Some x => x
  | None => NaN
  end.

Definition main (df_orders : list order) (df_members : list member)
    (df_products : list product)
  : result (list order_feat * list member_feat * list product_feat) :=
  let df_products :=
    map (fun r => {| p_product := r;
                     net_total_price := Float.mul (net_price r) (amount_ordered r) |})
        df_products in
  let df_members := merge_delivery_date df_members df_orders in
  let df_orders :=
    map (fun o =>
           {| o_order := o;
              total_order_value :=
                aligned (option_map Float.round2 (group_sum df_products (order_ID o)));
              num_participating_members :=
                aligned (group_size df_members (order_ID o)) |})
        df_orders in
  df_members <- order_request_value df_members df_products ;;
  Ok (df_orders, df_members, df_products).

End Features.

(** ** Worked examples *)

Module Examples.

(** Midnight of a calendar date, as a timestamp. *)
Definition ts (y m d : Z) : Z :=
  Calendar.days_from_civil y m d * Calendar.NS_PER_DAY.

Definition cohort_members : list member :=
  [ {| member_ID := 1; delivery_date := ts 2020 1 15; order_request_value := Some 12.5%Q |};
    {| member_ID := 2; delivery_date := ts 2020 1 20; order_request_value := Some 30%Q |};
    {| member_ID := 1; delivery_date := ts 2020 2 3; order_request_value := Some 8%Q |};
    {| member_ID := 46; delivery_date := ts 2020 2 3; order_request_value := Some 900%Q |};
    {| member_ID := 3; delivery_date := ts 2020 2 3; order_request_value := None |};
    {| member_ID := 1; delivery_date := ts 2020 4 1; order_request_value := Some 20%Q |} ].

Definition rfm_members : list member :=
  [ {| member_ID := 1; delivery_date := ts 2020 1 6; order_request_value := Some 10%Q |};
    {| member_ID := 2; delivery_date := ts 2020 1 7; order_request_value := Some 20%Q |};
    {| member_ID := 46; delivery_date := ts 2020 3 2; order_request_value := Some 900%Q |};
    {| member_ID := 1; delivery_date := ts 2020 1 15; order_request_value := Some 5%Q |} ].

(** A raw order whose only product has a decimal-comma supplier code. *)
Definition raw_orders : list Dataframes.order :=
  [ {| Dataframes.order_ID := 1;
       Dataframes.products :=
         [ ("p1"%string,
            {| Dataframes.tax_rate := OStr "7";
               Dataframes.net_price := OStr "1,20";
               Dataframes.bundle_size := OStr "";
               Dataframes.supplier_code := OStr "12,5";
               Dataframes.amount_ordered := OStr "3";
               Dataframes.bundles_ordered := OStr "0,5" |}) ] |} ].

(** Two orders, the second without products and without members. *)
Definition orders : list Features.order :=
  [ {| Features.order_ID := 1; Features.delivery_date := ts 2020 1 6 |};
    {| Features.order_ID := 2; Features.delivery_date := ts 2020 1 13 |} ].

Definition products : list Features.product :=
  [ {| Features.p_order_ID := 1; Features.p_product_ID := "a";
       Features.net_price := Fin 1.25; Features.amount_ordered := Fin 4 |};
    {| Features.p_order_ID := 1; Features.p_product_ID := "b";
       Features.net_price := Fin 2; Features.amount_ordered := Fin 3 |} ].

Definition members : list Features.member :=
  [ {| Features.member_ID := 7; Features.m_order_ID := 1;
       Features.order_requests :=
         [ ("b"%string, (OStr "1,5", OStr "2")); ("a"%string, (OStr " ", OStr "1")) ] |};
    {| Features.member_ID := 8; Features.m_order_ID := 1;
       Features.order_requests := [] |};
    {| Features.member_ID := 9; Features.m_order_ID := 1;
       Features.order_requests :=
         [ ("a"%string, (OStr "", OStr "1")); ("b"%string, (OStr "  ", OStr "3")) ] |} ].

(** The three tables after feature derivation. *)
Definition derived :
  list Features.order_feat * list Features.member_feat * list Features.product_feat :=
  match Features.main orders members products with
  | Ok t => t
  | Raise _ => ([], [], [])
  end.

(** Member 1 delivered on 1 March, member 2 last in February. *)
Definition month_boundary_members : list member :=
  [ {| member_ID := 1; delivery_date := ts 2020 3 1; order_request_value := Some 10%Q |};
    {| member_ID := 2; delivery_date := ts 2020 2 15; order_request_value := Some 20%Q |} ].

(** The table and the scores the RFM analysis computes for
    [rfm_members] with weekly periods. *)
Definition rfm_table : list Rfm.rfm_row :=
  match Rfm.make_table rfm_members "W" with
  | Ok t => t
  | Raise _ => []
  end.

Definition rfm_scored : list Rfm.scored_row :=
  match Rfm.add_score rfm_table "W" with
  | Ok (s, _) => s
  | Raise _ => []
  end.


End Examples.

(** ** src/data/utils.py *)

Module Utils.

(** Python's [needle in s] on strings. *)
Fixpoint contains (needle s : string) : bool :=
  String.prefix needle s
  || match s with
     | EmptyString => false
     | String _ s' => contains needle s'
     end.

(** Is the string made of decimal digits, as [strftime("%Y%m%d")] gives? *)
Fixpoint all_digits (s : string) : bool :=
  match s with
  | EmptyString => true
  | String c s' => Str.is_digit c && all_digits s'
  end.

(** Console output of [load_data]: [print] of a string and of the
    directory listing. *)
Inductive action : Type :=
| Stdout (msg : string)
| StdoutList (l : list string).

(** The file name [export_as_csv] gives a frame; [todaystr] is today's
    date as [%Y%m%d]. *)
Definition csv_filename (todaystr df_name : string) : string :=
  (todaystr ++ "_scoop_" ++ df_name ++ ".csv")%string.

(** What [load_data] returns; [None] is Python's [None]. *)
Record loaded (O M P : Type) : Type := {
  df_orders : option O;
  df_members : option M;
  df_products : option P
}.
Arguments df_orders {O M P} _.
Arguments df_members {O M P} _.
Arguments df_products {O M P} _.

Definition REMINDER : string :=
  "reminder: data from scoop company account (#46) is included".

Section Load.
Context {O M P : Type}.

(** The three [pd.read_csv] calls, as functions of the path. *)
Variable read_orders : string -> result O.
Variable read_members : string -> result M.
Variable read_products : string -> result P.

(** The loop over the directory listing, from the frames found so far. *)
Fixpoint load_loop (folder_path : string) (listdir : list string)
    (acc : loaded O M P) : list action * result (loaded O M P) :=
  match listdir with
  | [] => ([], Ok acc)
  | csv :: rest =>
      if contains "orders" csv then
        match read_orders (folder_path ++ "/" ++ csv) with
        | Raise e => ([], Raise e)
        | Ok d =>
            load_loop folder_path rest
              {| df_orders := Some d;
                 df_members := df_members acc;
                 df_products := df_products acc |}
        end
      else if contains "members" csv then
        match read_members (folder_path ++ "/" ++ csv) with
        | Raise e => ([], Raise e)
        | Ok d =>
            let (out, r) :=
              load_loop folder_path rest
                {| df_orders := df_orders acc;
                   df_members := Some d;
                   df_products := df_products acc |} in
            (Stdout REMINDER :: out, r)
        end
      else if contains "products" csv then
        match read_products (folder_path ++ "/" ++ csv) with
        | Raise e => ([], Raise e)
        | Ok d =>
            load_loop folder_path rest
              {| df_orders := df_orders acc;
                 df_members := df_members acc;
                 df_products := Some d |}
        end
      else load_loop folder_path rest acc
  end.

(** [load_data]; [listdir] is what [os.listdir(folder_path)] returns. *)
Definition load_data (folder_path : string) (listdir : list string)
  : list action * result (loaded O M P) :=
  let (out, r) :=
    load_loop folder_path listdir
      {| df_orders := None; df_members := None; df_products := None |} in
  (StdoutList listdir :: out, r).

End Load.

(** Which branch of the loop a file name takes. *)
Definition is_orders (csv : string) : bool := contains "orders" csv.

Definition is_members (csv : string) : bool :=
  negb (contains "orders" csv) && contains "members" csv.

Definition is_products (csv : string) : bool :=
  negb (contains "orders" csv) && negb (contains "members" csv)
  && contains "products" csv.

(** A frame after the loop, from its value before: read from the last
    entry of the listing that takes its branch, unchanged when there is
    none. *)
Definition slot {A : Type} (read : string -> result A) (p : string -> bool)
    (folder_path : string) (listdir : list string) (before now : option A) : Prop :=
  match find p (List.rev listdir) with
  | Some csv => exists d, read (folder_path ++ "/" ++ csv)%string = Ok d /\ now = Some d
  | None => now = before
  end.

End Utils.

(** ** src/analysis/cohort.py: the annotation of the plot *)

Module CohortPlot.
Import Calendar.

(** [min()] of a datetime column; [None] is NaT. *)
Definition min_date (l : list Z) : option Z :=
  match l with
  | [] => None
  | t :: l' => Some (fold_left Z.min l' t)
  end.

(** The values [plot] prints above the heatmap: [n], the sum of the first
    column of the pivot (Python's [sum], starting from 0), and the months
    of the first and of the last delivery. *)
Record annotation : Type := {
  n : fnum;
  t_min : option Z;
  t_max : option Z
}.

Definition annotate (cohort_pivot : DataFrame) (df_members : list member)
  : result annotation :=
  cohort_size <- Cohort.iloc_first_column cohort_pivot ;;
  Ok {| n := fold_left Float.add cohort_size (Fin 0);
        t_min := option_map (to_period FreqM) (min_date (map delivery_date df_members));
        t_max := option_map (to_period FreqM)
                   (Rfm.max_date (map delivery_date df_members)) |}.

End CohortPlot.

(** ** The members tables read by member *)

Module Customers.
Import Calendar.

(** The delivery dates of member [m]. *)
Definition deliveries (df : list member) (m : Z) : list Z :=
  map delivery_date (filter (fun r => member_ID r =? m) df).

(** The period of the first delivery of member [m]: the member's cohort. *)
Definition first_period (f : Freq) (df : list member) (m : Z) : Z :=
  match CohortPlot.min_date (deliveries df m) with
  | Some t => to_period f t
  | None => 0
  end.

(** The members of cohort [c] with a delivery [k] periods after it. *)
Definition active (f : Freq) (df : list member) (c k : Z) : list Z :=
  map member_ID
      (filter (fun r => (first_period f df (member_ID r) =? c)
                        && (to_period f (delivery_date r) =? c + k)) df).

(** The members of cohort [c]. *)
Definition enrolled (f : Freq) (df : list member) (c : Z) : list Z :=
  map member_ID (filter (fun r => first_period f df (member_ID r) =? c) df).

(** The periods in which member [m] has a delivery. *)
Definition periods (f : Freq) (df : list member) (m : Z) : list Z :=
  map (to_period f) (deliveries df m).

End Customers.

(** ** One value through the binning of src/analysis/rfm.py *)

Module Binning.

(** The label [_bins_to_cuts] gives one value: the function mapped over
    the column by [Rfm.bins_to_cuts]. *)
Definition label (bins : list fnum) (labels : list Z) (include_lowest : bool)
    (v : fnum) : option Z :=
  let ids := Rfm.searchsorted_left bins v in
  let ids :=
    if include_lowest && Float.eqb v (hd NaN bins) then 1%nat else ids in
  if Float.isna v || (ids =? List.length bins)%nat || (ids =? 0)%nat
  then None
  else nth_error labels (ids - 1).

End Binning.

(** ** The recency as the specification words it *)

(** The number of whole periods elapsed between the most recent period of
    the table, the one of [period_end], and the member's most recent
    active period, the one of [last]. *)
Definition spec_recency (f : Calendar.Freq) (period_end last : Z) : Z :=
  Calendar.to_period f period_end - Calendar.to_period f last.

(** How far the first day of month [o] lies from [o] mean months of
    146097 / 4800 days, in 4800ths of a day, and its range over one
    400-year cycle. *)
Definition month_drift (o : Z) : Z :=
  4800 * Calendar.month_start o - 146097 * o.

Definition month_drift_ok (o : Z) : bool :=
  (-12606 <=? month_drift o) && (month_drift o <=? 8475).

(** * Properties *)

(** ** Lists: [unique], [sort] *)

Section UniqueFacts.
Context {A : Type}.
Variable eqb : A -> A -> bool.
Hypothesis eqb_eq : forall x y, eqb x y = true <-> x = y.

Lemma unique_In (l : list A) (x : A) : In x (unique eqb l) <-> In x l.
Proof.
  induction l as [|a l IH]; cbn [unique]; [tauto|].
  cbn [In]. rewrite filter_In, IH. split.
  - intros [H|[H _]]; auto.
  - intros [H|H]; [auto|].
    destruct (eqb a x) eqn:E.
    + left. now apply eqb_eq.
    + right. split; [exact H|]. reflexivity.
Qed.

Lemma NoDup_filter (p : A -> bool) (l : list A) : NoDup l -> NoDup (filter p l).
Proof.
  induction 1 as [|a l Hn Hd IH]; cbn [filter]; [constructor|].
  destruct (p a); [|exact IH].
  constructor; [|exact IH]. rewrite filter_In. tauto.
Qed.

Lemma unique_NoDup (l : list A) : NoDup (unique eqb l).
Proof.
  induction l as [|a l IH]; cbn [unique]; constructor.
  - rewrite filter_In. intros [_ H]. cbv beta in H.
    assert (E : eqb a a = true) by now apply eqb_eq.
    rewrite E in H. discriminate.
  - now apply NoDup_filter.
Qed.

Lemma filter_eqb_absent (l : list A) (x : A) :
  ~ In x l -> filter (fun y => eqb y x) l = [].
Proof.
  induction l as [|a l IH]; cbn [In filter]; [reflexivity|].
  intros H. destruct (eqb a x) eqn:E.
  - apply eqb_eq in E. tauto.
  - apply IH. tauto.
Qed.

(** Selecting one value out of a duplicate-free list. *)
Lemma filter_eqb_NoDup (l : list A) (x : A) :
  NoDup l -> In x l -> filter (fun y => eqb y x) l = [x].
Proof.
  induction 1 as [|a l Hn Hd IH]; cbn [In filter]; [tauto|].
  intros [->|Hin].
  - assert (E : eqb x x = true) by now apply eqb_eq.
    rewrite E, filter_eqb_absent by assumption. reflexivity.
  - destruct (eqb a x) eqn:E.
    + apply eqb_eq in E. subst. contradiction.
    + auto.
Qed.
End UniqueFacts.

Section SortFacts.
Context {A : Type}.
Variable leb : A -> A -> bool.

Lemma insert_perm (x : A) (l : list A) : Permutation (insert leb x l) (x :: l).
Proof.
  induction l as [|a l IH]; cbn [insert]; [reflexivity|].
  destruct (leb x a); [reflexivity|].
  rewrite IH. apply perm_swap.
Qed.

Lemma sort_perm (l : list A) : Permutation (sort leb l) l.
Proof.
  induction l as [|a l IH]; cbn; [constructor|].
  fold (sort leb l). rewrite insert_perm. now constructor.
Qed.

Lemma sort_In (l : list A) (x : A) : In x (sort leb l) <-> In x l.
Proof.
  split; apply Permutation_in; [|symmetry]; apply sort_perm.
Qed.

Lemma sort_NoDup (l : list A) : NoDup l -> NoDup (sort leb l).
Proof.
  apply Permutation_NoDup. symmetry. apply sort_perm.
Qed.

Lemma sort_length (l : list A) : List.length (sort leb l) = List.length l.
Proof. apply Permutation_length, sort_perm. Qed.
End SortFacts.

Lemma pair_eqb_eq (a b : Z * Z) : pair_eqb a b = true <-> a = b.
Proof.
  destruct a as [a1 a2], b as [b1 b2]. unfold pair_eqb. cbn [fst snd].
  rewrite andb_true_iff, !Z.eqb_eq. split; [intros [-> ->]; reflexivity|].
  intros E. inversion E. auto.
Qed.

Lemma sorted_unique_In_Z (l : list Z) (x : Z) :
  In x (sorted_unique Z.eqb Z.leb l) <-> In x l.
Proof.
  unfold sorted_unique. rewrite sort_In. apply unique_In, Z.eqb_eq.
Qed.

Lemma sorted_unique_NoDup_Z (l : list Z) : NoDup (sorted_unique Z.eqb Z.leb l).
Proof. apply sort_NoDup, unique_NoDup, Z.eqb_eq. Qed.

Lemma sorted_unique_In_pair (l : list (Z * Z)) (x : Z * Z) :
  In x (sorted_unique pair_eqb pair_leb l) <-> In x l.
Proof.
  unfold sorted_unique. rewrite sort_In. apply unique_In, pair_eqb_eq.
Qed.

Lemma sorted_unique_NoDup_pair (l : list (Z * Z)) :
  NoDup (sorted_unique pair_eqb pair_leb l).
Proof. apply sort_NoDup, unique_NoDup, pair_eqb_eq. Qed.

(** The head of an ascending sort is a lower bound. *)
Lemma sort_hd_lower_Z (l : list Z) (d : Z) :
  forall x, In x l -> hd d (sort Z.leb l) <= x.
Proof.
  induction l as [|a l IH]; [contradiction|].
  intros x Hx. cbn [sort fold_right]. fold (sort Z.leb l).
  destruct (sort Z.leb l) as [|b s] eqn:E.
  - assert (l = []) as ->.
    { apply Permutation_nil. rewrite <- E. apply sort_perm. }
    destruct Hx as [->|[]]. cbn. lia.
  - cbn [insert]. destruct Hx as [->|Hx].
    + destruct (Z.leb_spec x b); cbn [hd]; lia.
    + specialize (IH x Hx). cbn [hd] in IH.
      destruct (Z.leb_spec a b); cbn [hd]; lia.
Qed.

Lemma sort_hd_In_Z (l : list Z) (d : Z) :
  l <> [] -> In (hd d (sort Z.leb l)) l.
Proof.
  intros H. apply (sort_In Z.leb).
  destruct (sort Z.leb l) as [|b s] eqn:E.
  - exfalso. apply H. apply Permutation_nil. rewrite <- E. apply sort_perm.
  - now left.
Qed.

(** ** The calendar *)

Section CalendarFacts.
Import Calendar.

Lemma all_below_inv (p : Z -> bool) (n : positive) :
  fst (Pos.iter (range_step p) (0, true) n) = Z.pos n /\
  (snd (Pos.iter (range_step p) (0, true) n) = true ->
   forall j, 0 <= j < Z.pos n -> p j = true).
Proof.
  induction n as [|n [IH1 IH2]] using Pos.peano_ind.
  - cbn. split; [reflexivity|]. intros H j Hj.
    assert (j = 0) as -> by lia. exact H.
  - rewrite Pos.iter_succ. unfold range_step at 1 3. cbn [fst snd].
    rewrite IH1. split; [lia|].
    intros H j Hj. apply andb_prop in H as [H1 H2].
    destruct (Z.eq_dec j (Z.pos n)) as [->|Hne]; [exact H2|].
    apply IH2; [exact H1|lia].
Qed.

Lemma all_below_spec (n : positive) (p : Z -> bool) :
  all_below n p = true -> forall j, 0 <= j < Z.pos n -> p j = true.
Proof. intros H. apply (proj2 (all_below_inv p n)). exact H. Qed.

(** Every day of one 400-year cycle lies in the month its ordinal names. *)
Lemma month_bracket_cycle : all_below 146097 month_bracket = true.
Proof. vm_cast_no_check (eq_refl true). Qed.

Lemma civil_from_days_shift (d k : Z) :
  civil_from_days (d + 146097 * k) =
  let '(y, m, dd) := civil_from_days d in (y + 400 * k, m, dd).
Proof.
  unfold civil_from_days.
  replace (d + 146097 * k + 719468) with (d + 719468 + k * 146097) by lia.
  rewrite Z.div_add by lia.
  set (z := d + 719468).
  replace (z + k * 146097 - (z / 146097 + k) * 146097)
    with (z - z / 146097 * 146097) by lia.
  set (doe := z - z / 146097 * 146097).
  cbv zeta.
  set (yoe := (doe - doe / 1460 + doe / 36524 - doe / 146096) / 365).
  set (doy := doe - (365 * yoe + yoe / 4 - yoe / 100)).
  set (mp := (5 * doy + 2) / 153).
  destruct (mp <? 10); destruct (_ <=? 2); f_equal; f_equal; lia.
Qed.

Lemma days_from_civil_shift (y m d k : Z) :
  days_from_civil (y + 400 * k) m d = days_from_civil y m d + 146097 * k.
Proof.
  unfold days_from_civil.
  destruct (m <=? 2).
  - replace (y + 400 * k - 1) with (y - 1 + k * 400) by lia.
    rewrite Z.div_add by lia. cbv zeta.
    replace (y - 1 + k * 400 - ((y - 1) / 400 + k) * 400)
      with (y - 1 - (y - 1) / 400 * 400) by lia.
    lia.
  - replace (y + 400 * k) with (y + k * 400) by lia.
    rewrite Z.div_add by lia. cbv zeta.
    replace (y + k * 400 - (y / 400 + k) * 400) with (y - y / 400 * 400) by lia.
    lia.
Qed.

Lemma month_ordinal_shift (d k : Z) :
  month_ordinal (d + 146097 * k) = month_ordinal d + 4800 * k.
Proof.
  unfold month_ordinal. rewrite civil_from_days_shift.
  destruct (civil_from_days d) as [[y m] dd]. lia.
Qed.

Lemma month_start_shift (o k : Z) :
  month_start (o + 4800 * k) = month_start o + 146097 * k.
Proof.
  unfold month_start.
  replace (o + 4800 * k) with (o + (400 * k) * 12) by lia.
  rewrite Z.div_add by lia. rewrite Z_mod_plus_full.
  replace (1970 + (o / 12 + 400 * k)) with (1970 + o / 12 + 400 * k) by lia.
  apply days_from_civil_shift.
Qed.

Lemma month_bracket_elim (d : Z) :
  month_bracket d = true ->
  month_start (month_ordinal d) <= d < month_start (month_ordinal d + 1).
Proof.
  unfold month_bracket. cbv zeta. intros H.
  apply andb_prop in H. destruct H as [H1 H2].
  apply Z.leb_le in H1. apply Z.ltb_lt in H2. split; assumption.
Qed.

Lemma month_bracket_in_cycle (r : Z) :
  0 <= r < 146097 ->
  month_start (month_ordinal r) <= r < month_start (month_ordinal r + 1).
Proof.
  intros H. apply month_bracket_elim.
  exact (all_below_spec 146097 month_bracket month_bracket_cycle r H).
Qed.

(** A day lies between the start of its month and the start of the next. *)
Lemma month_bracket_all (d : Z) :
  month_start (month_ordinal d) <= d < month_start (month_ordinal d + 1).
Proof.
  pose proof (Z.div_mod d 146097 ltac:(lia)) as E.
  pose proof (Z.mod_pos_bound d 146097 ltac:(lia)) as B.
  pose proof (month_bracket_in_cycle (d mod 146097) B) as Hr.
  revert E B Hr. generalize (d mod 146097) (d / 146097). intros r k E B Hr.
  replace d with (r + 146097 * k) by lia.
  rewrite month_ordinal_shift.
  replace (month_ordinal r + 4800 * k + 1)
    with (month_ordinal r + 1 + 4800 * k) by lia.
  rewrite !month_start_shift. lia.
Qed.

Lemma days_from_civil_next (y m : Z) :
  1 <= m <= 12 ->
  days_from_civil y m 1 <
  days_from_civil (if m =? 12 then y + 1 else y) (if m =? 12 then 1 else m + 1) 1.
Proof.
  intros Hm. unfold days_from_civil.
  destruct (Z.eqb_spec m 12) as [->|Hne].
  - change (12 <=? 2) with false. change (1 <=? 2) with true.
    change (2 <? 12) with true. change (2 <? 1) with false.
    replace (y + 1 - 1) with y by lia. cbv zeta.
    Z.div_mod_to_equations; lia.
  - destruct (Z.leb_spec m 2), (Z.ltb_spec 2 m), (Z.leb_spec (m + 1) 2),
      (Z.ltb_spec 2 (m + 1)); try lia; cbv zeta;
      Z.div_mod_to_equations; lia.
Qed.

Lemma month_start_succ (o : Z) : month_start o < month_start (o + 1).
Proof.
  unfold month_start.
  pose proof (Z.mod_pos_bound o 12 ltac:(lia)) as B.
  pose proof (days_from_civil_next (1970 + o / 12) (o mod 12 + 1) ltac:(lia)) as H.
  destruct (Z.eqb_spec (o mod 12 + 1) 12) as [E|E].
  - replace ((o + 1) / 12) with (o / 12 + 1) by (Z.div_mod_to_equations; lia).
    replace ((o + 1) mod 12 + 1) with 1 by (Z.div_mod_to_equations; lia).
    replace (1970 + (o / 12 + 1)) with (1970 + o / 12 + 1) by lia. exact H.
  - replace ((o + 1) / 12) with (o / 12) by (Z.div_mod_to_equations; lia).
    replace ((o + 1) mod 12) with (o mod 12 + 1) by (Z.div_mod_to_equations; lia).
    exact H.
Qed.

Lemma month_start_mono (a b : Z) : a <= b -> month_start a <= month_start b.
Proof.
  intros H. replace b with (a + Z.of_nat (Z.to_nat (b - a))) by lia.
  induction (Z.to_nat (b - a)) as [|n IH]; [rewrite Z.add_0_r; lia|].
  pose proof (month_start_succ (a + Z.of_nat n)).
  replace (a + Z.of_nat (S n)) with (a + Z.of_nat n + 1) by lia. lia.
Qed.

Lemma month_ordinal_mono (d1 d2 : Z) :
  d1 <= d2 -> month_ordinal d1 <= month_ordinal d2.
Proof.
  intros H. destruct (Z_le_gt_dec (month_ordinal d1) (month_ordinal d2)); [assumption|].
  pose proof (month_bracket_all d1). pose proof (month_bracket_all d2).
  pose proof (month_start_mono (month_ordinal d2 + 1) (month_ordinal d1) ltac:(lia)).
  lia.
Qed.

Lemma unix_date_mono (t1 t2 : Z) : t1 <= t2 -> unix_date t1 <= unix_date t2.
Proof. intros H. apply Z.div_le_mono; [reflexivity|exact H]. Qed.

Lemma unix_date_bounds (t : Z) :
  unix_date t * NS_PER_DAY <= t < (unix_date t + 1) * NS_PER_DAY.
Proof.
  unfold unix_date.
  pose proof (Z.div_mod t NS_PER_DAY ltac:(discriminate)).
  pose proof (Z.mod_pos_bound t NS_PER_DAY ltac:(reflexivity)). lia.
Qed.

(** [to_period] never decreases with time. *)
Lemma to_period_mono (f : Freq) (t1 t2 : Z) :
  t1 <= t2 -> to_period f t1 <= to_period f t2.
Proof.
  intros H. apply unix_date_mono in H.
  destruct f; cbn [to_period].
  - pose proof (Z.div_le_mono (unix_date t1 + 3) (unix_date t2 + 3) 7). lia.
  - now apply month_ordinal_mono.
  - apply Z.div_le_mono; [lia|]. now apply month_ordinal_mono.
Qed.

Lemma to_timestamp_mono (f : Freq) (o1 o2 : Z) :
  o1 <= o2 -> to_timestamp f o1 <= to_timestamp f o2.
Proof.
  intros H. destruct f; cbn [to_timestamp].
  - unfold NS_PER_DAY. lia.
  - pose proof (month_start_mono o1 o2 H). unfold NS_PER_DAY. lia.
  - pose proof (month_start_mono (3 * o1) (3 * o2) ltac:(lia)).
    unfold NS_PER_DAY. lia.
Qed.

(** A timestamp lies in the period [to_period] assigns to it. *)
Lemma period_bracket (f : Freq) (t : Z) :
  to_timestamp f (to_period f t) <= t < to_timestamp f (to_period f t + 1).
Proof.
  pose proof (unix_date_bounds t) as B.
  destruct f; cbn [to_timestamp to_period].
  - set (d := unix_date t) in *.
    pose proof (Z.div_mod (d + 3) 7 ltac:(lia)).
    pose proof (Z.mod_pos_bound (d + 3) 7 ltac:(lia)).
    unfold NS_PER_DAY in *. lia.
  - pose proof (month_bracket_all (unix_date t)).
    unfold NS_PER_DAY in *. nia.
  - set (o := month_ordinal (unix_date t)).
    pose proof (month_bracket_all (unix_date t)) as M. fold o in M.
    pose proof (Z.div_mod o 3 ltac:(lia)).
    pose proof (Z.mod_pos_bound o 3 ltac:(lia)).
    pose proof (month_start_mono (3 * (o / 3)) o ltac:(lia)).
    pose proof (month_start_mono (o + 1) (3 * (o / 3 + 1)) ltac:(lia)).
    unfold NS_PER_DAY in *. nia.
Qed.

Lemma period_start_le (f : Freq) (t : Z) : to_timestamp f (to_period f t) <= t.
Proof. apply period_bracket. Qed.

Lemma period_start_mono (f : Freq) (t1 t2 : Z) :
  t1 <= t2 ->
  to_timestamp f (to_period f t1) <= to_timestamp f (to_period f t2).
Proof. intros H. now apply to_timestamp_mono, to_period_mono. Qed.

End CalendarFacts.

(** ** Frames *)

Lemma position_In (x : Z) (l : list Z) :
  In x l -> exists i, position x l = Some i /\ nth_error l i = Some x.
Proof.
  induction l as [|a l IH]; [contradiction|].
  intros H. cbn [position]. destruct (Z.eqb_spec x a) as [->|Hne].
  - exists O. split; reflexivity.
  - destruct H as [H|H]; [congruence|].
    destruct (IH H) as (i & -> & Hi). exists (S i). split; [reflexivity|exact Hi].
Qed.

(** Reading a frame that was built cell by cell. *)
Lemma loc_tabulate (g : Z -> Z -> fnum) (idx cols : list Z) (c k : Z) :
  In c idx -> In k cols ->
  loc {| index := idx; columns := cols;
         values := map (fun c => map (g c) cols) idx |} c k = Some (g c k).
Proof.
  intros Hc Hk. unfold loc. cbn [index columns values].
  destruct (position_In c idx Hc) as (i & -> & Hi).
  destruct (position_In k cols Hk) as (j & -> & Hj).
  apply nth_error_split in Hi as (l1 & l2 & -> & <-).
  rewrite map_app. cbn [map]. rewrite app_nth2; rewrite length_map; [|lia].
  rewrite Nat.sub_diag. cbn [nth].
  now rewrite nth_error_map, Hj.
Qed.

(** ** Floats *)

Lemma nanmean_single (q : Q) :
  Float.nanmean [Fin q] = Fin ((0 + q) / inject_Z 1).
Proof. reflexivity. Qed.

Lemma nanmean_nil : Float.nanmean [] = NaN.
Proof. reflexivity. Qed.

(** ** Cohort analysis *)

Section CohortFacts.
Import Calendar Cohort.
Variable f : Freq.
Variable df : list member.

Lemma fold_min_le (d : Z) (l : list Z) :
  fold_right Z.min d l <= d /\ forall x, In x l -> fold_right Z.min d l <= x.
Proof.
  induction l as [|a l [IH1 IH2]]; cbn [fold_right]; [split; [lia|contradiction]|].
  split; [lia|]. intros x [->|Hx]; [lia|]. specialize (IH2 x Hx). lia.
Qed.

Lemma fold_min_In (d : Z) (l : list Z) :
  fold_right Z.min d l = d \/ In (fold_right Z.min d l) l.
Proof.
  induction l as [|a l IH]; cbn [fold_right]; [now left|].
  destruct (Z.min_spec a (fold_right Z.min d l)) as [[_ ->]|[_ ->]].
  - right. now left.
  - destruct IH; [now left|right; now right].
Qed.

Lemma transform_min_le (r : member) : transform_min df r <= delivery_date r.
Proof. apply (proj1 (fold_min_le _ _)). Qed.

Lemma transform_min_lower (r1 r2 : member) :
  In r2 df -> member_ID r2 = member_ID r1 ->
  transform_min df r1 <= delivery_date r2.
Proof.
  intros H2 E. unfold transform_min.
  apply (proj2 (fold_min_le _ _)). apply in_map. apply filter_In.
  split; [exact H2|]. now apply Z.eqb_eq.
Qed.

Lemma transform_min_witness (r : member) :
  In r df ->
  exists r0, In r0 df /\ member_ID r0 = member_ID r
             /\ delivery_date r0 = transform_min df r.
Proof.
  intros Hr. unfold transform_min.
  destruct (fold_min_In (delivery_date r)
              (map delivery_date
                 (filter (fun r' => member_ID r' =? member_ID r) df)))
    as [E|H].
  - exists r. rewrite E. auto.
  - apply in_map_iff in H as (r0 & E & H0). apply filter_In in H0 as [H0 E0].
    apply Z.eqb_eq in E0. exists r0. auto.
Qed.

(** The first delivery of a member is one of the member's rows, and every
    row of the member sees the same first delivery. *)
Lemma transform_min_attained (r : member) :
  In r df ->
  exists r0, In r0 df /\ member_ID r0 = member_ID r
             /\ delivery_date r0 = transform_min df r
             /\ transform_min df r0 = transform_min df r.
Proof.
  intros Hr. destruct (transform_min_witness r Hr) as (r0 & H0 & E0 & Ed).
  exists r0. repeat split; auto.
  apply Z.le_antisymm.
  - rewrite <- Ed. apply transform_min_le.
  - destruct (transform_min_witness r0 H0) as (r1 & H1 & E1 & <-).
    apply transform_min_lower; [exact H1|congruence].
Qed.

(** *** The aggregated frame *)

Local Notation "'mc'" := (add_cohort f df).
Local Notation "'keys'" := (sorted_unique pair_eqb pair_leb (map key mc)).
Local Notation "'count'" := (fun k => nunique (group mc k)).

Lemma keys_NoDup : NoDup keys.
Proof. apply sorted_unique_NoDup_pair. Qed.

Lemma keys_In (k : Z * Z) :
  In k keys <->
  exists r, In r df /\ fst k = to_period f (transform_min df r)
            /\ snd k = to_period f (delivery_date r).
Proof.
  rewrite sorted_unique_In_pair, in_map_iff. unfold add_cohort.
  split.
  - intros (x & <- & Hx). apply in_map_iff in Hx as (r & <- & Hr).
    exists r. cbn. auto.
  - intros (r & Hr & E1 & E2).
    exists {| c_member_ID := member_ID r;
              c_delivery_freq := to_period f (delivery_date r);
              c_cohort := to_period f (transform_min df r) |}.
    split; [|apply in_map_iff; exists r; auto].
    destruct k. unfold key. cbn in *. congruence.
Qed.

(** A period never precedes the cohort. *)
Lemma keys_ordered (k : Z * Z) : In k keys -> fst k <= snd k.
Proof.
  rewrite keys_In. intros (r & _ & -> & ->).
  apply to_period_mono, transform_min_le.
Qed.

(** Every cohort is observed in its own first period. *)
Lemma keys_diag (k : Z * Z) : In k keys -> In (fst k, fst k) keys.
Proof.
  rewrite !keys_In. intros (r & Hr & E1 & _).
  destruct (transform_min_attained r Hr) as (r0 & H0 & _ & Ed & Et).
  exists r0. cbn [fst snd]. rewrite Et, Ed. auto.
Qed.

Lemma group_In (k : Z * Z) (m : Z) :
  In m (group mc k) <->
  exists r, In r df /\ member_ID r = m
            /\ fst k = to_period f (transform_min df r)
            /\ snd k = to_period f (delivery_date r).
Proof.
  unfold group, add_cohort. rewrite in_map_iff. split.
  - intros (x & <- & Hx). apply filter_In in Hx as [Hx E].
    apply in_map_iff in Hx as (r & <- & Hr).
    apply pair_eqb_eq in E. exists r. destruct k. cbn in *.
    inversion E. auto.
  - intros (r & Hr & <- & E1 & E2).
    exists {| c_member_ID := member_ID r;
              c_delivery_freq := to_period f (delivery_date r);
              c_cohort := to_period f (transform_min df r) |}.
    split; [reflexivity|].
    apply filter_In; split; [apply in_map_iff; exists r; auto|].
    apply pair_eqb_eq. destruct k. unfold key. cbn in *. congruence.
Qed.

(** Whoever is active later was active in the first period. *)
Lemma group_incl (k : Z * Z) : incl (group mc k) (group mc (fst k, fst k)).
Proof.
  intros m. rewrite !group_In. intros (r & Hr & Em & E1 & _).
  destruct (transform_min_attained r Hr) as (r0 & H0 & E0 & Ed & Et).
  exists r0. cbn [fst snd]. rewrite Et, Ed. repeat split; auto. congruence.
Qed.

Lemma nunique_incl (l1 l2 : list Z) : incl l1 l2 -> nunique l1 <= nunique l2.
Proof.
  intros H. unfold nunique. apply inj_le.
  apply NoDup_incl_length; [apply unique_NoDup, Z.eqb_eq|].
  intros x. rewrite !(unique_In Z.eqb Z.eqb_eq). apply H.
Qed.

Lemma count_pos (k : Z * Z) : In k keys -> 1 <= count k.
Proof.
  intros Hk. apply keys_In in Hk as (r & Hr & E1 & E2).
  assert (Hm : In (member_ID r) (unique Z.eqb (group mc k))).
  { apply (unique_In Z.eqb Z.eqb_eq). apply group_In. exists r. auto. }
  unfold nunique. destruct (unique Z.eqb (group mc k)); [contradiction|].
  cbn [List.length]. lia.
Qed.

Lemma count_le_first (k : Z * Z) : count k <= count (fst k, fst k).
Proof. apply nunique_incl, group_incl. Qed.

End CohortFacts.

(** *** Arithmetic of the cells *)

Lemma mean_of_count (n : Z) : ((0 + inject_Z n) / inject_Z 1 == inject_Z n)%Q.
Proof. unfold Qeq. cbn. lia. Qed.

Lemma count_nonzero (n : Z) :
  1 <= n -> Qeq_bool ((0 + inject_Z n) / inject_Z 1) 0 = false.
Proof.
  intros H. destruct (Qeq_bool _ 0) eqn:E; [|reflexivity].
  apply Qeq_bool_iff in E. rewrite mean_of_count in E.
  unfold Qeq in E. cbn in E. lia.
Qed.

Lemma count_ratio_bounds (k n : Z) :
  0 <= k <= n -> 1 <= n ->
  (0 <= ((0 + inject_Z k) / inject_Z 1) / ((0 + inject_Z n) / inject_Z 1) <= 1)%Q.
Proof.
  intros Hk Hn. rewrite !mean_of_count.
  assert (Hpos : (0 < inject_Z n)%Q).
  { change 0%Q with (inject_Z 0). rewrite <- Zlt_Qlt. lia. }
  split.
  - apply Qle_shift_div_l; [exact Hpos|]. rewrite Qmult_0_l.
    change 0%Q with (inject_Z 0). rewrite <- Zle_Qle. lia.
  - apply Qle_shift_div_r; [exact Hpos|]. rewrite Qmult_1_l.
    rewrite <- Zle_Qle. lia.
Qed.

Lemma count_ratio_one (n : Z) :
  1 <= n ->
  (((0 + inject_Z n) / inject_Z 1) / ((0 + inject_Z n) / inject_Z 1) == 1)%Q.
Proof.
  intros Hn. rewrite !mean_of_count. apply Qmult_inv_r.
  unfold Qeq. cbn. lia.
Qed.

Section RetentionFacts.
Import Calendar Cohort.
Variable f : Freq.
Variable df : list member.

Local Notation "'mc'" := (add_cohort f df).
Local Notation "'keys'" := (sorted_unique pair_eqb pair_leb (map key mc)).
Local Notation "'agg'" := (aggregate mc).

Lemma agg_In (a : agg_row) : In a agg <-> exists k, In k keys /\ a = agg_of mc k.
Proof.
  unfold aggregate. rewrite in_map_iff. split; intros (k & H1 & H2); exists k; auto.
Qed.

(** A pivot cell is empty, or holds the count of its single group. *)
Lemma cell_cases (c k : Z) :
  (~ In (c, c + k) keys /\ cell agg c k = NaN)
  \/ (In (c, c + k) keys
      /\ cell agg c k =
         Fin ((0 + inject_Z (nunique (group mc (c, c + k)))) / inject_Z 1)).
Proof.
  unfold cell, aggregate. rewrite filter_map_swap.
  rewrite (filter_ext _ (fun y => pair_eqb y (c, c + k))).
  2:{ intros [a b]. unfold agg_of, pair_eqb. cbn [cohort period_number fst snd].
      destruct (Z.eqb_spec a c), (Z.eqb_spec (b - a) k), (Z.eqb_spec b (c + k));
        cbn; try reflexivity; lia. }
  assert (dec : forall a b : Z * Z, {a = b} + {a <> b})
    by (decide equality; apply Z.eq_dec).
  destruct (in_dec dec (c, c + k) keys) as [H|H].
  - right. split; [exact H|].
    rewrite (filter_eqb_NoDup pair_eqb pair_eqb_eq _ _
               (sorted_unique_NoDup_pair _) H).
    reflexivity.
  - left. split; [exact H|].
    rewrite (filter_eqb_absent pair_eqb pair_eqb_eq _ _ H). reflexivity.
Qed.

Lemma index_In (c : Z) :
  In c (sorted_unique Z.eqb Z.leb (map cohort agg)) <-> In (c, c) keys.
Proof.
  rewrite sorted_unique_In_Z, in_map_iff. split.
  - intros (a & <- & Ha). apply agg_In in Ha as (k & Hk & ->).
    cbn [agg_of cohort]. now apply keys_diag.
  - intros H. exists (agg_of mc (c, c)). split; [reflexivity|].
    apply agg_In. eauto.
Qed.

(** The cell of a cohort in its own first period. *)
Lemma cell_first (c : Z) :
  In (c, c) keys ->
  cell agg c 0 = Fin ((0 + inject_Z (nunique (group mc (c, c)))) / inject_Z 1).
Proof.
  intros H. destruct (cell_cases c 0) as [[Hn _]|[_ E]].
  - rewrite Z.add_0_r in Hn. contradiction.
  - rewrite Z.add_0_r in E. exact E.
Qed.

(** The columns of the pivot start at period number 0. *)
Lemma columns_head :
  df <> [] ->
  exists rest, sorted_unique Z.eqb Z.leb (map period_number agg) = 0 :: rest.
Proof.
  intros Hne.
  assert (H0 : In 0 (map period_number agg)).
  { destruct df as [|r l] eqn:E; [congruence|]. rewrite <- E in *.
    assert (Hk : In (to_period f (transform_min df r),
                     to_period f (delivery_date r)) keys).
    { apply keys_In. exists r. rewrite E at 1. cbn. auto. }
    apply keys_diag in Hk. cbn [fst] in Hk.
    apply in_map_iff. eexists. split; [|apply agg_In; eauto].
    cbn. lia. }
  assert (Hge : forall x, In x (map period_number agg) -> 0 <= x).
  { intros x Hx. apply in_map_iff in Hx as (a & <- & Ha).
    apply agg_In in Ha as (k & Hk & ->). apply keys_ordered in Hk.
    cbn. lia. }
  unfold sorted_unique.
  assert (H0' : In 0 (unique Z.eqb (map period_number agg)))
    by now apply (unique_In Z.eqb Z.eqb_eq).
  pose proof (sort_hd_lower_Z _ 0 0 H0') as Hlow.
  assert (Hnn : unique Z.eqb (map period_number agg) <> [])
    by (intros E; rewrite E in H0'; contradiction).
  pose proof (sort_hd_In_Z _ 0 Hnn) as Hin.
  apply (proj1 (unique_In Z.eqb Z.eqb_eq _ _)) in Hin. apply Hge in Hin.
  destruct (sort Z.leb (unique Z.eqb (map period_number agg))) as [|h rest] eqn:E.
  - apply (sort_In Z.leb) in H0'. rewrite E in H0'. contradiction.
  - cbn [hd] in *. exists rest. f_equal. lia.
Qed.

Lemma div_rows_tabulate (g : Z -> Z -> fnum) (idx rest : list Z) (k0 : Z) :
  div_rows (map (fun c => map (g c) (k0 :: rest)) idx)
           (map (fun row => hd NaN row) (map (fun c => map (g c) (k0 :: rest)) idx))
  = map (fun c => map (fun k => Float.div (g c k) (g c k0)) (k0 :: rest)) idx.
Proof.
  induction idx as [|c idx IH]; [reflexivity|].
  cbn [map div_rows hd]. f_equal; [|exact IH].
  f_equal. apply map_map.
Qed.

(** The two frames [make_retention_matrix] returns, cell by cell. *)
Lemma make_retention_matrix_spec (freq : string) :
  offset_alias freq = Some f -> df <> [] ->
  exists rest,
    let idx := sorted_unique Z.eqb Z.leb (map cohort agg) in
    make_retention_matrix df freq =
    Ok ({| index := idx; columns := 0 :: rest;
           values := map (fun c => map (fun k => Float.div (cell agg c k) (cell agg c 0))
                                       (0 :: rest)) idx |},
        {| index := idx; columns := 0 :: rest;
           values := map (fun c => map (cell agg c) (0 :: rest)) idx |}).
Proof.
  intros Hf Hne. destruct (columns_head Hne) as (rest & Hcols).
  exists rest. unfold make_retention_matrix. rewrite Hf. cbv zeta.
  unfold pivot_table. cbv zeta. rewrite Hcols.
  unfold iloc_first_column. cbn [columns values index bind].
  rewrite div_rows_tabulate. reflexivity.
Qed.

(** On an empty frame the pivot has no column and [iloc] fails. *)
Lemma make_retention_matrix_empty (freq : string) :
  offset_alias freq = Some f -> make_retention_matrix [] freq = Raise IndexError.
Proof. intros Hf. unfold make_retention_matrix. rewrite Hf. reflexivity. Qed.

Lemma retention_first_column (c : Z) :
  In (c, c) keys ->
  exists q, Float.div (cell agg c 0) (cell agg c 0) = Fin q /\ (q == 1)%Q.
Proof.
  intros H. rewrite (cell_first c H).
  pose proof (count_pos f df _ H) as Hn.
  unfold Float.div. rewrite (count_nonzero _ Hn).
  eexists. split; [reflexivity|]. now apply count_ratio_one.
Qed.

Lemma retention_cell_bounds (c k : Z) :
  In (c, c) keys ->
  fraction_or_missing (Float.div (cell agg c k) (cell agg c 0)).
Proof.
  intros H. rewrite (cell_first c H).
  pose proof (count_pos f df _ H) as Hn.
  destruct (cell_cases c k) as [[_ ->]|[Hk ->]]; [left; reflexivity|].
  right. unfold Float.div. rewrite (count_nonzero _ Hn).
  eexists. split; [reflexivity|].
  apply count_ratio_bounds; [|exact Hn].
  pose proof (count_pos f df _ Hk). pose proof (count_le_first f df (c, c + k)).
  cbn [fst] in *. lia.
Qed.

End RetentionFacts.

Lemma cohort_main_valid (df : list member) (freq : string) (export_plot : bool)
    (f : Calendar.Freq) :
  (freq = "M"%string /\ f = Calendar.FreqM) \/ (freq = "Q"%string /\ f = Calendar.FreqQ) ->
  Calendar.offset_alias freq = Some f /\
  Cohort.main df freq export_plot =
  match Cohort.make_retention_matrix (drop_company_account df) freq with
  | Raise e => ([], Raise e)
  | Ok (retention_matrix, cohort_pivot) =>
      ((if export_plot then [ExportPlot "retention_matrix" freq] else []),
       Ok (Some (retention_matrix, cohort_pivot)))
  end.
Proof. intros [[-> ->]|[-> ->]]; split; reflexivity. Qed.

(** C1.  For a valid granularity and a members table that is not empty
    once member 46 is dropped, the cohort analysis returns, the first
    column of the retention matrix is the one of period number 0, and
    every row holds exactly 1 there. *)
Theorem retention_first_period_is_one
    (df : list member) (freq : string) (export_plot : bool) :
  freq = "M"%string \/ freq = "Q"%string ->
  drop_company_account df <> [] ->
  exists ev retention_matrix cohort_pivot,
    Cohort.main df freq export_plot
      = (ev, Ok (Some (retention_matrix, cohort_pivot)))
    /\ hd_error (columns retention_matrix) = Some 0
    /\ index retention_matrix <> []
    /\ forall c, In c (index retention_matrix) ->
         exists q, loc retention_matrix c 0 = Some (Fin q) /\ (q == 1)%Q.
Proof.
  intros Hfreq Hne.
  assert (Hf : exists f, (freq = "M"%string /\ f = Calendar.FreqM)
                         \/ (freq = "Q"%string /\ f = Calendar.FreqQ)).
  { destruct Hfreq; [exists Calendar.FreqM|exists Calendar.FreqQ]; auto. }
  destruct Hf as (f & Hf).
  destruct (cohort_main_valid df freq export_plot f Hf) as [Ha ->].
  destruct (make_retention_matrix_spec f _ freq Ha Hne) as (rest & E).
  cbv zeta in E. rewrite E.
  do 3 eexists. split; [reflexivity|]. cbn [columns index hd_error].
  split; [reflexivity|]. split.
  - destruct (drop_company_account df) as [|r l] eqn:Ed; [congruence|].
    rewrite <- Ed in *. intros Hnil.
    assert (Hin : In (Calendar.to_period f (Cohort.transform_min (drop_company_account df) r))
                     (sorted_unique Z.eqb Z.leb
                        (map Cohort.cohort
                           (Cohort.aggregate (Cohort.add_cohort f (drop_company_account df)))))).
    { apply index_In.
      apply (keys_diag f _
               (Calendar.to_period f (Cohort.transform_min (drop_company_account df) r),
                Calendar.to_period f (delivery_date r))).
      apply keys_In. exists r. rewrite Ed at 1. cbn [In fst snd]. eauto. }
    rewrite Hnil in Hin. contradiction.
  - intros c Hc. rewrite loc_tabulate; [|exact Hc|now left].
    apply index_In in Hc.
    destruct (retention_first_column f _ c Hc) as (q & -> & Hq).
    exists q. auto.
Qed.

Lemma retention_first_period_is_one_witness :
  exists ev retention_matrix cohort_pivot,
    Cohort.main Examples.cohort_members "M" true
      = (ev, Ok (Some (retention_matrix, cohort_pivot)))
    /\ hd_error (columns retention_matrix) = Some 0
    /\ index retention_matrix <> []
    /\ forall c, In c (index retention_matrix) ->
         exists q, loc retention_matrix c 0 = Some (Fin q) /\ (q == 1)%Q.
Proof.
  apply (retention_first_period_is_one Examples.cohort_members "M" true).
  - left. reflexivity.
  - vm_compute. discriminate.
Defined.

(** C2.  Every cell of a retention matrix the cohort analysis returns is a
    fraction between 0 and 1, or missing. *)
Theorem retention_cells_in_unit_interval
    (df : list member) (freq : string) (export_plot : bool)
    (ev : list event) (retention_matrix cohort_pivot : DataFrame) :
  Cohort.main df freq export_plot
    = (ev, Ok (Some (retention_matrix, cohort_pivot))) ->
  Forall (Forall fraction_or_missing) (values retention_matrix).
Proof.
  intros H. unfold Cohort.main in H.
  destruct (negb _) eqn:Hv; [discriminate|].
  assert (Hf : exists f, (freq = "M"%string /\ f = Calendar.FreqM)
                         \/ (freq = "Q"%string /\ f = Calendar.FreqQ)).
  { cbn [existsb] in Hv. apply negb_false_iff in Hv.
    rewrite orb_false_r in Hv. apply orb_true_iff in Hv as [Hv|Hv];
      apply String.eqb_eq in Hv; subst;
      [exists Calendar.FreqM|exists Calendar.FreqQ]; auto. }
  destruct Hf as (f & Hf).
  destruct (cohort_main_valid df freq export_plot f Hf) as [Ha _].
  destruct (drop_company_account df) as [|r l] eqn:Ed.
  - rewrite (make_retention_matrix_empty f freq Ha) in H. discriminate.
  - rewrite <- Ed in *.
    assert (Hne : drop_company_account df <> []) by (rewrite Ed; discriminate).
    destruct (make_retention_matrix_spec f _ freq Ha Hne) as (rest & E).
    cbv zeta in E. rewrite E in H. inversion H; subst. cbn [values].
    apply Forall_forall. intros row Hrow.
    apply in_map_iff in Hrow as (c & <- & Hc).
    apply Forall_forall. intros v Hv'.
    destruct Hv' as [<-|Hv']; [|apply in_map_iff in Hv' as (k & <- & Hk)];
      apply retention_cell_bounds; now apply index_In.
Qed.

Lemma retention_cells_in_unit_interval_witness :
  Forall (Forall fraction_or_missing)
    [[Fin (2 # 2); Fin (1 # 2); Fin (1 # 2)]; [Fin 1; NaN; NaN]].
Proof.
  apply (retention_cells_in_unit_interval Examples.cohort_members "M" true
           [ExportPlot "retention_matrix" "M"]
           {| index := [600; 601]; columns := [0; 1; 3];
              values := [[Fin (2 # 2); Fin (1 # 2); Fin (1 # 2)]; [Fin 1; NaN; NaN]] |}
           {| index := [600; 601]; columns := [0; 1; 3];
              values := [[Fin 2; Fin 1; Fin 1]; [Fin 1; NaN; NaN]] |}).
  vm_compute. reflexivity.
Defined.

(** ** Sorting under a total order *)

Section SortedFacts.
Context {A : Type}.
Variable leb : A -> A -> bool.
Hypothesis leb_total : forall x y, leb x y = true \/ leb y x = true.
Hypothesis leb_trans :
  forall x y z, leb x y = true -> leb y z = true -> leb x z = true.

Local Notation "'le'" := (fun a b => leb a b = true).

Lemma insert_sorted (x : A) (l : list A) :
  StronglySorted le l -> StronglySorted le (insert leb x l).
Proof.
  induction 1 as [|a l Hs IH Ha]; cbn [insert].
  - constructor; constructor.
  - destruct (leb x a) eqn:E.
    + constructor; [constructor; assumption|].
      constructor; [exact E|].
      apply Forall_forall. intros y Hy.
      apply (leb_trans x a y E). now apply (proj1 (Forall_forall _ _) Ha).
    + constructor; [exact IH|].
      apply Forall_forall. intros y Hy.
      apply (Permutation_in _ (insert_perm leb x l)) in Hy.
      destruct Hy as [<-|Hy].
      * destruct (leb_total a x) as [H|H]; [exact H|congruence].
      * now apply (proj1 (Forall_forall _ _) Ha).
Qed.

Lemma sort_sorted (l : list A) : StronglySorted le (sort leb l).
Proof.
  induction l as [|a l IH]; cbn; [constructor|].
  now apply insert_sorted.
Qed.

Lemma sorted_hd_min (l : list A) (d : A) :
  StronglySorted le l -> forall x, In x l -> leb (hd d l) x = true.
Proof.
  intros Hs x Hx. destruct Hs as [|a l Hs Ha]; [contradiction|].
  cbn [hd]. destruct Hx as [<-|Hx].
  - destruct (leb_total a a); assumption.
  - now apply (proj1 (Forall_forall _ _) Ha).
Qed.

Lemma sorted_last_max (l : list A) (d : A) :
  StronglySorted le l ->
  forall x, In x l -> leb x (nth (List.length l - 1) l d) = true.
Proof.
  induction 1 as [|a l Hs IH Ha]; [contradiction|].
  intros x Hx.
  replace (List.length (a :: l) - 1)%nat with (List.length l)
    by (cbn [List.length]; lia).
  destruct l as [|b l'].
  - destruct Hx as [<-|[]]. cbn. destruct (leb_total a a); assumption.
  - replace (List.length (b :: l') - 1)%nat with (List.length l') in IH
      by (cbn [List.length]; lia).
    cbn [List.length nth].
    destruct Hx as [<-|Hx]; [|now apply IH].
    apply (leb_trans a b); [now inversion Ha|].
    apply IH. now left.
Qed.
End SortedFacts.

Lemma sort_map {A B : Type} (g : A -> B) (leA : A -> A -> bool)
    (leB : B -> B -> bool) (l : list A) :
  (forall x y, leB (g x) (g y) = leA x y) ->
  sort leB (map g l) = map g (sort leA l).
Proof.
  intros H. induction l as [|a l IH]; [reflexivity|].
  cbn [map sort fold_right]. fold (sort leB (map g l)) (sort leA l).
  rewrite IH. generalize (sort leA l). intros s.
  induction s as [|b s IHs]; [reflexivity|].
  cbn [map insert]. rewrite H. destruct (leA a b); [reflexivity|].
  cbn [map]. now rewrite IHs.
Qed.

(** ** Quartile binning *)

Section QcutFacts.
Import Rfm.

Local Notation "'Qleb'" := (fun a b : Q => Float.Qlt_bool a b || Qeq_bool a b).

Lemma Qleb_iff (a b : Q) : Qleb a b = true <-> (a <= b)%Q.
Proof.
  cbv beta. unfold Float.Qlt_bool.
  rewrite orb_true_iff, negb_true_iff, Qeq_bool_iff.
  rewrite <- not_true_iff_false, Qle_bool_iff. split.
  - intros [H|H]; [apply Qlt_le_weak, Qnot_le_lt, H|rewrite H; apply Qle_refl].
  - intros H. destruct (Qlt_le_dec a b) as [Hlt|Hge].
    + left. now apply Qlt_not_le.
    + right. now apply Qle_antisym.
Qed.

Lemma Qleb_total (a b : Q) : Qleb a b = true \/ Qleb b a = true.
Proof.
  rewrite !Qleb_iff. destruct (Qlt_le_dec a b); [left; now apply Qlt_le_weak|now right].
Qed.

Lemma Qleb_trans (a b c : Q) : Qleb a b = true -> Qleb b c = true -> Qleb a c = true.
Proof. rewrite !Qleb_iff. apply Qle_trans. Qed.

Lemma filter_notna_Fin (qs : list Q) :
  filter (fun v => negb (Float.isna v)) (map Fin qs) = map Fin qs.
Proof. induction qs as [|q qs IH]; cbn; congruence. Qed.

Lemma sort_Fin (qs : list Q) :
  sort Float.leb (map Fin qs) = map Fin (sort Qleb qs).
Proof. apply sort_map. reflexivity. Qed.

(** The lowest and the highest quartile edge are the minimum and the
    maximum of the data. *)
Lemma quantile_0 (qs : list Q) :
  qs <> [] ->
  exists b, quantile (map Fin qs) 0 = Fin b /\ forall q, In q qs -> (b <= q)%Q.
Proof.
  intros Hne. unfold quantile. rewrite filter_notna_Fin, sort_Fin.
  pose proof (sort_sorted Qleb Qleb_total Qleb_trans qs) as Hs.
  pose proof (sort_perm Qleb qs) as Hp.
  destruct (sort Qleb qs) as [|h s] eqn:E.
  - apply Permutation_nil in Hp. contradiction.
  - cbn [map]. cbv zeta.
    set (n := inject_Z _).
    assert (E0 : Qfloor (0 * n) = 0).
    { unfold Qfloor, Qmult. cbn. reflexivity. }
    rewrite E0. cbn [Z.to_nat nth].
    assert (Ef : Qeq_bool (0 * n - inject_Z 0) 0 = true).
    { apply Qeq_bool_iff. unfold Qeq. cbn. lia. }
    rewrite Ef. exists h. split; [reflexivity|].
    intros q Hq. apply Qleb_iff.
    apply (sorted_hd_min Qleb Qleb_total (h :: s) h Hs).
    apply (Permutation_in _ (Permutation_sym Hp) Hq).
Qed.

Lemma quantile_1 (qs : list Q) :
  qs <> [] ->
  exists b, quantile (map Fin qs) 1 = Fin b /\ forall q, In q qs -> (q <= b)%Q.
Proof.
  intros Hne. unfold quantile. rewrite filter_notna_Fin, sort_Fin.
  pose proof (sort_sorted Qleb Qleb_total Qleb_trans qs) as Hs.
  pose proof (sort_perm Qleb qs) as Hp.
  destruct (sort Qleb qs) as [|h s] eqn:E.
  { apply Permutation_nil in Hp. contradiction. }
  cbn [map]. cbv zeta.
  replace (List.length (Fin h :: map Fin s) - 1)%nat with (List.length s)
    by (cbn [List.length]; rewrite length_map; lia).
  set (k := Z.of_nat (List.length s)).
  assert (E1 : Qfloor (1 * inject_Z k) = k).
  { rewrite <- (Qfloor_Z k) at 2. apply Qfloor_comp. apply Qmult_1_l. }
  assert (Ef : Qeq_bool (1 * inject_Z k - inject_Z k) 0 = true).
  { apply Qeq_bool_iff. rewrite Qmult_1_l. apply Qplus_opp_r. }
  rewrite E1, Ef. unfold k. rewrite Nat2Z.id.
  exists (nth (List.length s) (h :: s) 0%Q). split.
  - change (Fin h :: map Fin s) with (map Fin (h :: s)).
    rewrite (nth_indep _ NaN (Fin 0)) by (rewrite length_map; cbn; lia).
    apply map_nth.
  - intros q Hq. apply Qleb_iff.
    replace (List.length s) with (List.length (h :: s) - 1)%nat
      by (cbn [List.length]; lia).
    apply (sorted_last_max Qleb Qleb_total Qleb_trans _ 0%Q Hs).
    apply (Permutation_in _ (Permutation_sym Hp) Hq).
Qed.

End QcutFacts.

Section BinFacts.
Import Calendar Rfm.

(** One value against five edges: inside the outer edges it gets a label. *)
Lemma label_in_range (b0 b1 b2 b3 b4 v : fnum) :
  Float.isna v = false ->
  (Float.eqb v b0 = false -> Float.ltb b0 v = true) ->
  Float.ltb b4 v = false ->
  is_score
    (let ids := searchsorted_left [b0; b1; b2; b3; b4] v in
     let ids := if true && Float.eqb v (hd NaN [b0; b1; b2; b3; b4])
                then 1%nat else ids in
     if Float.isna v || (ids =? List.length [b0; b1; b2; b3; b4])%nat
        || (ids =? 0)%nat
     then None
     else nth_error [1; 2; 3; 4] (ids - 1)).
Proof.
  intros Hna H0 H4. unfold searchsorted_left. rewrite Hna.
  cbn [filter hd andb List.length orb]. rewrite H4.
  destruct (Float.eqb v b0).
  - cbn. exists 1. split; [reflexivity|lia].
  - rewrite (H0 eq_refl).
    destruct (Float.ltb b1 v), (Float.ltb b2 v), (Float.ltb b3 v); cbn;
      eexists; (split; [reflexivity|lia]).
Qed.

Lemma Fin_ltb_false (a b : Q) : (a <= b)%Q -> Float.ltb (Fin b) (Fin a) = false.
Proof.
  intros H. cbn. unfold Float.Qlt_bool. apply negb_false_iff.
  now apply Qle_bool_iff.
Qed.

Lemma Fin_ltb_true (a b : Q) :
  (a <= b)%Q -> Float.eqb (Fin b) (Fin a) = false -> Float.ltb (Fin a) (Fin b) = true.
Proof.
  intros H E. cbn in *. unfold Float.Qlt_bool. apply negb_true_iff.
  destruct (Qle_bool b a) eqn:L; [|reflexivity].
  apply Qle_bool_iff in L.
  assert (Heq : (b == a)%Q) by now apply Qle_antisym.
  apply Qeq_bool_iff in Heq. congruence.
Qed.

(** Whenever quartile binning of finite data returns, every value has one
    of the labels 1 to 4. *)
Lemma qcut_labels (qs : list Q) (ids : list (option Z)) (bins : list fnum) :
  qcut (map Fin qs) = Ok (ids, bins) ->
  Forall is_score ids /\ List.length ids = List.length qs.
Proof.
  unfold qcut. cbv zeta. cbn [map quartiles].
  destruct qs as [|q0 qs'] eqn:Eq.
  { unfold bins_to_cuts. cbn [map].
    destruct (_ && _); [discriminate|]. destruct (negb _); [discriminate|].
    cbn [bind]. intros H. inversion H. split; [constructor|reflexivity]. }
  rewrite <- Eq.
  assert (Hne : qs <> []) by (rewrite Eq; discriminate).
  clear Eq q0 qs'.
  destruct (quantile_0 qs Hne) as (lo & -> & Hlo).
  destruct (quantile_1 qs Hne) as (hi & -> & Hhi).
  unfold bins_to_cuts.
  destruct (_ && _); [discriminate|]. destruct (negb _); [discriminate|].
  cbn [bind]. intros H. inversion H; subst. clear H.
  split; [|now rewrite !length_map].
  apply Forall_forall. intros i Hi.
  apply in_map_iff in Hi as (v & <- & Hv).
  apply in_map_iff in Hv as (q & <- & Hq).
  apply (label_in_range (Fin lo) (quantile (map Fin qs) (1 # 4))
           (quantile (map Fin qs) (1 # 2)) (quantile (map Fin qs) (3 # 4))
           (Fin hi) (Fin q)).
  - reflexivity.
  - apply Fin_ltb_true. now apply Hlo.
  - apply Fin_ltb_false. now apply Hhi.
Qed.

(** *** The recency bins *)

Lemma of_Z_ltb (a : Z) (d : positive) (k : Z) :
  Float.ltb (Fin (a # d)) (Float.of_Z k) = negb (k * Z.pos d <=? a).
Proof.
  cbn. unfold Float.Qlt_bool, Qle_bool. cbn [Qnum Qden inject_Z].
  now rewrite Z.mul_1_r.
Qed.

Lemma of_Z_eqb_0 (k : Z) : Float.eqb (Float.of_Z k) (Fin 0) = (k =? 0).
Proof.
  cbn. unfold Qeq_bool. cbn [Qnum Qden inject_Z]. rewrite Z.mul_1_r.
  reflexivity.
Qed.

Lemma r_range_values (f : Freq) :
  f = FreqW \/ f = FreqM ->
  r_range f = [Fin 0; Fin (freqs f # 4); Fin (freqs f # 2); Fin (freqs f # 1); PInf].
Proof. intros [->| ->]; reflexivity. Qed.

(** The label [pandas.cut] gives one recency value. *)
Lemma recency_label (f : Freq) (r : option Z) :
  f = FreqW \/ f = FreqM ->
  (let v := recency_value r in
   let bins := [Fin 0; Fin (freqs f # 4); Fin (freqs f # 2); Fin (freqs f # 1); PInf] in
   let ids := searchsorted_left bins v in
   let ids := if true && Float.eqb v (hd NaN bins) then 1%nat else ids in
   if Float.isna v || (ids =? List.length bins)%nat || (ids =? 0)%nat
   then None
   else nth_error [4; 3; 2; 1] (ids - 1))
  = spec_r_score f r.
Proof.
  intros Hf. destruct r as [k|]; [|reflexivity].
  cbv zeta. cbn [recency_value hd andb]. unfold searchsorted_left, spec_r_score.
  change (Float.isna (Float.of_Z k)) with false. cbn [filter orb].
  rewrite !of_Z_ltb, of_Z_eqb_0.
  change (Float.ltb PInf (Float.of_Z k)) with false.
  assert (Hp : freqs f = 52 \/ freqs f = 12) by (destruct Hf as [->| ->]; auto).
  generalize dependent (freqs f). intros p Hp. cbv zeta.
  destruct (Z.eqb_spec k 0) as [->|Hk0].
  - cbn [Nat.eqb List.length]. destruct Hp as [->| ->]; reflexivity.
  - destruct (Z.ltb_spec k 0), (Z.leb_spec (k * 1) 0), (Z.leb_spec (k * 4) p),
      (Z.leb_spec (4 * k) p), (Z.leb_spec (k * 2) p), (Z.leb_spec (2 * k) p),
      (Z.leb_spec (k * 1) p), (Z.leb_spec k p); try lia; reflexivity.
Qed.

Lemma cut_recency (f : Freq) (rs : list (option Z)) :
  f = FreqW \/ f = FreqM ->
  cut (map recency_value rs) (r_range f) [4; 3; 2; 1] true
  = Ok (map (spec_r_score f) rs, r_range f).
Proof.
  intros Hf. rewrite (r_range_values f Hf). unfold cut.
  assert (Hinc : increasing [Fin 0; Fin (freqs f # 4); Fin (freqs f # 2);
                             Fin (freqs f # 1); PInf] = true)
    by (destruct Hf as [->| ->]; reflexivity).
  rewrite Hinc. cbn [negb]. unfold bins_to_cuts.
  assert (Hdup : ((List.length (unique Float.same
                     [Fin 0; Fin (freqs f # 4); Fin (freqs f # 2);
                      Fin (freqs f # 1); PInf])
                   <? List.length [Fin 0; Fin (freqs f # 4); Fin (freqs f # 2);
                                   Fin (freqs f # 1); PInf])%nat
                  && negb (List.length [Fin 0; Fin (freqs f # 4); Fin (freqs f # 2);
                                        Fin (freqs f # 1); PInf] =? 2)%nat) = false)
    by (destruct Hf as [->| ->]; reflexivity).
  rewrite Hdup. cbn [List.length Nat.eqb negb bind].
  do 2 f_equal. rewrite map_map. apply map_ext. intros r.
  apply (recency_label f r Hf).
Qed.


Lemma zip_scores_props (P : rfm_row -> Prop) (Pr Pf Pm : option Z -> Prop)
    (tbl : list rfm_row) :
  forall rs fs ms,
    Forall P tbl -> Forall Pr rs -> Forall Pf fs -> Forall Pm ms ->
    Forall (fun s => P (row s) /\ Pr (r_score s) /\ Pf (f_score s) /\ Pm (m_score s)
                     /\ rfm_score s = (score_str (r_score s) ++ score_str (f_score s)
                                       ++ score_str (m_score s))%string)
           (zip_scores tbl rs fs ms).
Proof.
  induction tbl as [|x tbl IH]; intros rs fs ms HP Hr Hf Hm; [constructor|].
  destruct rs as [|a rs], fs as [|b fs], ms as [|c ms]; try constructor.
  - inversion HP; inversion Hr; inversion Hf; inversion Hm; subst.
    cbn. auto.
  - inversion HP; inversion Hr; inversion Hf; inversion Hm; subst.
    now apply IH.
Qed.

Lemma zip_scores_rows (tbl : list rfm_row) :
  forall rs fs ms,
    List.length rs = List.length tbl -> List.length fs = List.length tbl ->
    List.length ms = List.length tbl ->
    map row (zip_scores tbl rs fs ms) = tbl.
Proof.
  induction tbl as [|x tbl IH]; intros rs fs ms Hr Hf Hm; [reflexivity|].
  destruct rs as [|a rs], fs as [|b fs], ms as [|c ms]; try discriminate.
  cbn [zip_scores map row]. f_equal. apply IH; cbn in *; lia.
Qed.

End BinFacts.

(** ** The RFM table *)

Lemma drop_company_account_In (df : list member) (r : member) :
  In r (drop_company_account df) <-> In r df /\ member_ID r <> COMPANY_ACCOUNT.
Proof.
  unfold drop_company_account. rewrite filter_In, negb_true_iff, Z.eqb_neq.
  reflexivity.
Qed.

Lemma drop_company_account_idem (df : list member) :
  drop_company_account (drop_company_account df) = drop_company_account df.
Proof.
  unfold drop_company_account. induction df as [|r df IH]; [reflexivity|].
  cbn [filter]. destruct (negb (member_ID r =? COMPANY_ACCOUNT)) eqn:E.
  - cbn [filter]. rewrite E. now f_equal.
  - exact IH.
Qed.

Section TableFacts.
Import Calendar Rfm.

Lemma fold_max_spec (l : list Z) :
  forall a, a <= fold_left Z.max l a
            /\ (forall x, In x l -> x <= fold_left Z.max l a)
            /\ (fold_left Z.max l a = a \/ In (fold_left Z.max l a) l).
Proof.
  induction l as [|b l IH]; intros a; cbn [fold_left].
  - repeat split; [lia|contradiction|now left].
  - destruct (IH (Z.max a b)) as (H1 & H2 & H3). repeat split.
    + lia.
    + intros x [->|Hx]; [lia|now apply H2].
    + destruct H3 as [H3|H3]; [|right; now right].
      rewrite H3. destruct (Z.max_spec a b) as [[_ ->]|[_ ->]];
        [right; now left|now left].
Qed.

(** The maximum of a non-empty date column is one of its entries and
    bounds them all. *)
Lemma max_date_spec (l : list Z) :
  l <> [] ->
  exists e, max_date l = Some e /\ In e l /\ forall x, In x l -> x <= e.
Proof.
  destruct l as [|t l]; [congruence|]. intros _.
  destruct (fold_max_spec l t) as (H1 & H2 & H3).
  exists (fold_left Z.max l t). split; [reflexivity|]. split.
  - destruct H3 as [->|H3]; [now left|now right].
  - intros x [<-|Hx]; [exact H1|now apply H2].
Qed.

Lemma fold_add_Fin (l : list fnum) :
  (forall v, In v l -> exists q, v = Fin q) ->
  forall a, exists q, fold_left Float.add l (Fin a) = Fin q.
Proof.
  induction l as [|v l IH]; intros H a; cbn [fold_left]; [eauto|].
  destruct (H v (or_introl eq_refl)) as (q & ->). cbn [Float.add].
  apply IH. intros w Hw. apply H. now right.
Qed.

(** A sum of numbers and missing values is a number. *)
Lemma nansum_Fin (l : list (option Q)) :
  exists q, Float.nansum (map of_option l) = Fin q.
Proof.
  unfold Float.nansum. apply fold_add_Fin.
  intros v Hv. apply filter_In in Hv as [Hv Hn].
  apply in_map_iff in Hv as ([q|] & <- & _); [exists q; reflexivity|discriminate].
Qed.

(** The mean of a non-empty column of numbers is a number. *)
Lemma nanmean_Fin (l : list fnum) :
  l <> [] -> (forall v, In v l -> exists q, v = Fin q) ->
  exists q, Float.nanmean l = Fin q.
Proof.
  intros Hne H. unfold Float.nanmean.
  assert (E : filter (fun x => negb (Float.isna x)) l = l).
  { clear Hne. induction l as [|v l IH]; [reflexivity|].
    destruct (H v (or_introl eq_refl)) as (q & ->). cbn [filter Float.isna negb].
    f_equal. apply IH. intros w Hw. apply H. now right. }
  rewrite E. destruct l as [|v l]; [congruence|].
  destruct (fold_add_Fin (v :: l) H 0) as (s & ->).
  unfold Float.div, Float.of_Z.
  assert (Hn : Qeq_bool (inject_Z (Z.of_nat (List.length (v :: l)))) 0 = false).
  { destruct (Qeq_bool _ 0) eqn:Eb; [|reflexivity].
    apply Qeq_bool_iff in Eb. unfold Qeq in Eb. cbn in Eb. lia. }
  rewrite Hn. eauto.
Qed.

Variable f : Freq.
Variable df : list member.

Local Notation "'start'" := (fun t => to_timestamp f (to_period f t)).
Local Notation "'rows0'" :=
  (map (fun r => {| p_delivery_date := to_timestamp f (to_period f (delivery_date r));
                    p_member_ID := member_ID r;
                    p_order_request_value := of_option (order_request_value r) |})
       df).
Local Notation "'rows'" := (sum_by_period rows0).

(** The rows after the first groupby: one per member and active period. *)
Lemma rows_In (p : period_row) :
  In p rows ->
  (exists r, In r df /\ p_delivery_date p = start (delivery_date r)
             /\ p_member_ID p = member_ID r)
  /\ exists q, p_order_request_value p = Fin q.
Proof.
  unfold sum_by_period. rewrite in_map_iff. intros (k & <- & Hk).
  apply (proj1 (unique_In pair_eqb pair_eqb_eq _ _)) in Hk.
  apply in_map_iff in Hk as (p0 & <- & Hp0).
  apply in_map_iff in Hp0 as (r & <- & Hr).
  cbn [p_delivery_date p_member_ID p_order_request_value fst snd]. split.
  - exists r. auto.
  - set (g := filter _ _).
    assert (Hg : exists l, map p_order_request_value g = map of_option l).
    { subst g. generalize df. intros d.
      induction d as [|a d (l & IH)]; [exists []; reflexivity|].
      cbn [map filter]. destruct (pair_eqb _ _).
      - exists (order_request_value a :: l). cbn [map]. now rewrite <- IH.
      - exists l. exact IH. }
    destruct Hg as (l & Hl). rewrite Hl. apply nansum_Fin.
Qed.

Lemma rows_member (r : member) :
  In r df ->
  exists p, In p rows /\ p_delivery_date p = start (delivery_date r)
            /\ p_member_ID p = member_ID r.
Proof.
  intros Hr. unfold sum_by_period.
  eexists. split.
  - apply in_map. apply (unique_In pair_eqb pair_eqb_eq).
    apply in_map_iff. eexists. split; [reflexivity|].
    apply in_map_iff. exists r. split; [reflexivity|exact Hr].
  - cbn. auto.
Qed.

(** One row of the table, in terms of the members frame. *)
Lemma aggregate_member_spec (m : Z) :
  In m (map p_member_ID rows) ->
  exists e r q,
    max_date (map delivery_date df) = Some e
    /\ In r df /\ member_ID r = m
    /\ (forall r', In r' df -> member_ID r' = m ->
                   delivery_date r' <= delivery_date r)
    /\ aggregate_member f (max_date (map delivery_date df)) rows m
       = {| rfm_member_ID := m;
            recency := Some ((e - start (delivery_date r)) / freq_timedeltas f);
            frequency := Z.of_nat (List.length (filter (fun p => p_member_ID p =? m) rows));
            monetary_value := Fin q |}
    /\ (1 <= List.length (filter (fun p => (p_member_ID p =? m)%Z) rows))%nat.
Proof.
  intros Hm. apply in_map_iff in Hm as (p & Ep & Hp).
  destruct (proj1 (rows_In p Hp)) as (r1 & Hr1 & _ & E1).
  assert (Hdf : map delivery_date df <> []) by (destruct df; [contradiction|discriminate]).
  destruct (max_date_spec _ Hdf) as (e & He & _ & Hmax).
  (* the latest delivery of member [m] *)
  assert (Hmine : map delivery_date (filter (fun r => member_ID r =? m) df) <> []).
  { intros E. apply map_eq_nil in E.
    assert (Hin : In r1 (filter (fun r => member_ID r =? m) df)).
    { apply filter_In. split; [exact Hr1|]. apply Z.eqb_eq. congruence. }
    rewrite E in Hin. contradiction. }
  destruct (max_date_spec _ Hmine) as (t & _ & Ht & Htmax).
  apply in_map_iff in Ht as (r & <- & Hr). apply filter_In in Hr as [Hr Erm].
  apply Z.eqb_eq in Erm.
  (* the latest active period of member [m] *)
  set (g := filter (fun p => p_member_ID p =? m) rows).
  assert (Hg : In p g) by (apply filter_In; split; [exact Hp|now apply Z.eqb_eq]).
  assert (Hgd : map p_delivery_date g <> []) by (destruct g; [contradiction|discriminate]).
  destruct (max_date_spec _ Hgd) as (s & Hs & Hsin & Hsmax).
  assert (Es : s = start (delivery_date r)).
  { apply Z.le_antisymm.
    - apply in_map_iff in Hsin as (p' & <- & Hp'). apply filter_In in Hp' as [Hp' Em'].
      apply Z.eqb_eq in Em'.
      destruct (proj1 (rows_In p' Hp')) as (r' & Hr' & -> & Em).
      apply period_start_mono. apply Htmax. apply in_map.
      apply filter_In. split; [exact Hr'|]. apply Z.eqb_eq. congruence.
    - apply Hsmax. destruct (rows_member r Hr) as (p' & Hp' & <- & Em).
      apply in_map. apply filter_In. split; [exact Hp'|].
      apply Z.eqb_eq. congruence. }
  assert (Hq : exists q, Float.nanmean (map p_order_request_value g) = Fin q).
  { apply nanmean_Fin.
    - destruct g; [contradiction|discriminate].
    - intros v Hv. apply in_map_iff in Hv as (p' & <- & Hp').
      apply filter_In in Hp' as [Hp' _]. apply (rows_In p' Hp'). }
  destruct Hq as (q & Hq).
  exists e, r, q. repeat split; auto.
  - intros r' Hr' Em'. apply Htmax. apply in_map. apply filter_In.
    split; [exact Hr'|]. now apply Z.eqb_eq.
  - unfold aggregate_member. fold g. rewrite He, Hs, Hq, Es. reflexivity.
  - fold g. destruct g; [contradiction|cbn; lia].
Qed.

End TableFacts.

Section RfmFacts.
Import Calendar Rfm.

Lemma make_table_unfold (df : list member) (freq : string) (f : Freq) :
  offset_alias freq = Some f ->
  make_table df freq =
  Ok (map (aggregate_member f (max_date (map delivery_date (drop_company_account df)))
             (sum_by_period
                (map (fun r =>
                        {| p_delivery_date := to_timestamp f (to_period f (delivery_date r));
                           p_member_ID := member_ID r;
                           p_order_request_value := of_option (order_request_value r) |})
                     (drop_company_account df))))
          (sorted_unique Z.eqb Z.leb
             (map p_member_ID
                (sum_by_period
                   (map (fun r =>
                           {| p_delivery_date := to_timestamp f (to_period f (delivery_date r));
                              p_member_ID := member_ID r;
                              p_order_request_value := of_option (order_request_value r) |})
                        (drop_company_account df)))))).
Proof. intros H. unfold make_table. now rewrite H. Qed.

(** Every row of the RFM table, in terms of the members frame. *)
Lemma make_table_rows (df : list member) (freq : string) (f : Freq) :
  offset_alias freq = Some f ->
  exists tbl,
    make_table df freq = Ok tbl
    /\ forall x, In x tbl ->
       exists period_end last q,
         max_date (map delivery_date (drop_company_account df)) = Some period_end
         /\ In last (drop_company_account df)
         /\ member_ID last = rfm_member_ID x
         /\ (forall r, In r (drop_company_account df) ->
                       member_ID r = rfm_member_ID x ->
                       delivery_date r <= delivery_date last)
         /\ recency x
            = Some ((period_end - to_timestamp f (to_period f (delivery_date last)))
                    / freq_timedeltas f)
         /\ 1 <= frequency x
         /\ monetary_value x = Fin q.
Proof.
  intros Hf. rewrite (make_table_unfold df freq f Hf).
  eexists. split; [reflexivity|].
  intros x Hx. apply in_map_iff in Hx as (m & <- & Hm).
  apply (proj1 (sorted_unique_In_Z _ _)) in Hm.
  destruct (aggregate_member_spec f (drop_company_account df) m Hm)
    as (e & r & q & He & Hr & Em & Hlast & -> & Hlen).
  exists e, r, q. cbn [rfm_member_ID recency frequency monetary_value].
  repeat split; auto. lia.
Qed.

Lemma freq_timedeltas_pos (f : Freq) : 0 < freq_timedeltas f.
Proof. destruct f; reflexivity. Qed.

(** With weekly periods the floor division counts the weeks between the
    two periods. *)
Lemma week_recency (e t : Z) :
  (e - to_timestamp FreqW (to_period FreqW t)) / freq_timedeltas FreqW
  = to_period FreqW e - to_period FreqW t.
Proof.
  cbn [to_timestamp to_period freq_timedeltas].
  pose proof (unix_date_bounds e) as B.
  set (d := unix_date e) in *. set (b := (unix_date t + 3) / 7).
  pose proof (Z.div_mod (d + 3) 7 ltac:(lia)) as E.
  pose proof (Z.mod_pos_bound (d + 3) 7 ltac:(lia)) as M.
  set (a := (d + 3) / 7) in *. set (s := (d + 3) mod 7) in *.
  symmetry.
  apply (Z.div_unique_pos _ _ _ (e - d * NS_PER_DAY + s * NS_PER_DAY));
    unfold NS_PER_DAY in *; lia.
Qed.

End RfmFacts.


(** With monthly periods the period length is numpy's mean month of
    2629746 seconds, so the floor division is not a count of calendar
    months: a member last active in February has recency 0 when the
    latest delivery is on 1 March. *)
Remark monthly_recency_across_month_boundary :
  map Rfm.recency
      (match Rfm.make_table Examples.month_boundary_members "M" with
       | Ok t => t
       | Raise _ => []
       end)
  = [Some 0; Some 0]
  /\ map (fun r => Calendar.to_period Calendar.FreqM (delivery_date r))
         Examples.month_boundary_members
     = [602; 601].
Proof. split; vm_compute; reflexivity. Qed.

Section ScoreFacts.
Import Calendar Rfm.

Lemma bins_to_cuts_length (x bins : list fnum) (labels : list Z) (b : bool)
    (ids : list (option Z)) :
  bins_to_cuts x bins labels b = Ok ids -> List.length ids = List.length x.
Proof.
  unfold bins_to_cuts. destruct (_ && _); [discriminate|].
  destruct (negb _); [discriminate|]. intros H. inversion H.
  apply length_map.
Qed.

Lemma qcut_length (x : list fnum) (ids : list (option Z)) (bins : list fnum) :
  qcut x = Ok (ids, bins) -> List.length ids = List.length x.
Proof.
  unfold qcut. cbv zeta.
  destruct (bins_to_cuts x _ _ _) as [i|e] eqn:E; [|discriminate].
  cbn [bind]. intros H. inversion H; subst.
  now apply (bins_to_cuts_length _ _ _ _ _ E).
Qed.

(** What [add_score] returns, column by column. *)
Lemma add_score_unfold (tbl : list rfm_row) (freq : string) (f : Freq)
    (scored : list scored_row) (info : bin_info) :
  f = FreqW \/ f = FreqM ->
  offset_alias freq = Some f ->
  add_score tbl freq = Ok (scored, info) ->
  exists fs ms fb mb,
    qcut (map (fun x => Float.of_Z (frequency x)) tbl) = Ok (fs, fb)
    /\ qcut (map monetary_value tbl) = Ok (ms, mb)
    /\ scored = zip_scores tbl (map (fun x => spec_r_score f (recency x)) tbl) fs ms
    /\ info = {| r_bins := r_range f; f_bins := fb; m_bins := mb |}.
Proof.
  intros Hf Ha. unfold add_score. rewrite Ha.
  rewrite <- (map_map recency recency_value), (cut_recency f _ Hf).
  cbn [bind fst snd].
  destruct (qcut (map (fun x => Float.of_Z (frequency x)) tbl)) as [[fs fb]|] eqn:Ef;
    [|discriminate].
  cbn [bind].
  destruct (qcut (map monetary_value tbl)) as [[ms mb]|] eqn:Em; [|discriminate].
  cbn [bind fst snd]. intros H. inversion H; subst.
  exists fs, ms, fb, mb. rewrite map_map. auto.
Qed.

Lemma spec_r_score_is_score (f : Freq) (k : Z) :
  0 <= k -> is_score (spec_r_score f (Some k)).
Proof.
  intros Hk. unfold spec_r_score, is_score. cbv zeta.
  destruct (Z.ltb_spec k 0); [lia|].
  destruct (4 * k <=? freqs f); [exists 4; split; [reflexivity|lia]|].
  destruct (2 * k <=? freqs f); [exists 3; split; [reflexivity|lia]|].
  destruct (k <=? freqs f); [exists 2|exists 1]; (split; [reflexivity|lia]).
Qed.

Lemma score_str_digit (l : Z) :
  1 <= l <= 4 -> score_str (Some l) = String (digit l) "".
Proof.
  intros H.
  assert (E : l = 1 \/ l = 2 \/ l = 3 \/ l = 4) by lia.
  destruct E as [->|[->|[->| ->]]]; reflexivity.
Qed.

Lemma make_table_well_formed (df : list member) (freq : string) (f : Freq) :
  offset_alias freq = Some f ->
  exists tbl,
    make_table df freq = Ok tbl
    /\ Forall (fun x => well_formed_row x /\ exists q, monetary_value x = Fin q) tbl.
Proof.
  intros Hf. destruct (make_table_rows df freq f Hf) as (tbl & Ht & H).
  exists tbl. split; [exact Ht|]. apply Forall_forall. intros x Hx.
  destruct (H x Hx) as (e & last & q & He & Hl & _ & _ & Hr & Hfr & Hq).
  split; [|eauto]. split; [exact Hfr|].
  eexists. split; [exact Hr|].
  apply Z.div_pos; [|apply freq_timedeltas_pos].
  assert (Hne : map delivery_date (drop_company_account df) <> [])
    by (destruct (drop_company_account df); [contradiction|discriminate]).
  destruct (max_date_spec _ Hne) as (e' & He' & _ & Hmax).
  rewrite He in He'. inversion He'; subst e'.
  pose proof (Hmax _ (in_map delivery_date _ _ Hl)).
  pose proof (period_start_le f (delivery_date last)). lia.
Qed.

Lemma make_table_drop (df : list member) (freq : string) :
  make_table df freq = make_table (drop_company_account df) freq.
Proof.
  unfold make_table. now rewrite drop_company_account_idem.
Qed.

Lemma rfm_main_valid (df : list member) (freq : string) (ec ep : bool)
    (ev : list event) (tbl : list scored_row) :
  Rfm.main df freq ec ep = (ev, Ok (Some tbl)) ->
  exists f t0 info,
    (f = FreqW \/ f = FreqM) /\ offset_alias freq = Some f
    /\ make_table df freq = Ok t0 /\ add_score t0 freq = Ok (tbl, info).
Proof.
  unfold Rfm.main. destruct (negb _) eqn:Hv; [discriminate|].
  assert (Hf : exists f, (f = FreqW \/ f = FreqM) /\ offset_alias freq = Some f).
  { cbn [existsb] in Hv. apply negb_false_iff in Hv.
    rewrite orb_false_r in Hv. apply orb_true_iff in Hv as [Hv|Hv];
      apply String.eqb_eq in Hv; subst;
      [exists FreqW|exists FreqM]; auto. }
  destruct Hf as (f & Hf & Ha).
  destruct (make_table df freq) as [t0|] eqn:Et; [|discriminate].
  cbn [bind]. destruct (add_score t0 freq) as [[t info]|] eqn:Es; [|discriminate].
  intros H. inversion H; subst. exists f, t0, info. auto.
Qed.

(** Scoring keeps the rows of the table, in order. *)
Lemma recency_score_rows (f : Freq) :
  f = FreqW \/ f = FreqM ->
  forall tbl freq scored info,
    offset_alias freq = Some f ->
    add_score tbl freq = Ok (scored, info) ->
    map row scored = tbl.
Proof.
  intros Hf tbl freq scored info Ha Hs.
  destruct (add_score_unfold tbl freq f scored info Hf Ha Hs)
    as (fs & ms & fb & mb & Ef & Em & -> & ->).
  apply zip_scores_rows.
  - apply length_map.
  - rewrite (qcut_length _ _ _ Ef). apply length_map.
  - rewrite (qcut_length _ _ _ Em). apply length_map.
Qed.

End ScoreFacts.




Lemma make_table_no_company_account (df : list member) (freq : string)
    (tbl : list Rfm.rfm_row) :
  Rfm.make_table df freq = Ok tbl ->
  Forall (fun x => Rfm.rfm_member_ID x <> COMPANY_ACCOUNT) tbl.
Proof.
  intros H. destruct (Calendar.offset_alias freq) as [f|] eqn:Ha.
  - destruct (make_table_rows df freq f Ha) as (tbl' & Ht & Hrows).
    rewrite H in Ht. inversion Ht; subst tbl'.
    apply Forall_forall. intros x Hx.
    destruct (Hrows x Hx) as (_ & last & _ & _ & Hl & <- & _).
    now apply drop_company_account_In in Hl.
  - unfold Rfm.make_table in H. rewrite Ha in H. discriminate.
Qed.

(** C3.  Two members tables that differ only in rows of member 46 give
    the same cohort result (retention matrix and cohort pivot) and the same
    RFM result, and no row of the RFM table belongs to member 46. *)
Theorem company_account_excluded
    (df df' : list member) (freq : string) (export_csv export_plot : bool) :
  drop_company_account df = drop_company_account df' ->
  Cohort.main df freq export_plot = Cohort.main df' freq export_plot
  /\ Rfm.main df freq export_csv export_plot
     = Rfm.main df' freq export_csv export_plot
  /\ (forall tbl, Rfm.make_table df freq = Ok tbl ->
        Forall (fun x => Rfm.rfm_member_ID x <> 46) tbl)
  /\ (forall ev tbl,
        Rfm.main df freq export_csv export_plot = (ev, Ok (Some tbl)) ->
        Forall (fun s => Rfm.rfm_member_ID (Rfm.row s) <> 46) tbl).
Proof.
  intros E. split; [|split; [|split]].
  - unfold Cohort.main. now rewrite E.
  - unfold Rfm.main.
    now rewrite (make_table_drop df), (make_table_drop df'), E.
  - intros tbl. exact (make_table_no_company_account df freq tbl).
  - intros ev tbl H.
    destruct (rfm_main_valid df freq _ _ ev tbl H)
      as (f & t0 & info & Hf & Ha & Ht & Hs).
    pose proof (recency_score_rows f Hf t0 freq tbl info Ha Hs) as Hrows.
    pose proof (make_table_no_company_account df freq t0 Ht) as H0.
    rewrite <- Hrows in H0. exact (proj1 (Forall_map _ _ _) H0).
Qed.

Lemma company_account_excluded_witness :
  Cohort.main Examples.cohort_members "M" true
  = Cohort.main (drop_company_account Examples.cohort_members) "M" true
  /\ Rfm.main Examples.cohort_members "M" true true
     = Rfm.main (drop_company_account Examples.cohort_members) "M" true true
  /\ (forall tbl, Rfm.make_table Examples.cohort_members "M" = Ok tbl ->
        Forall (fun x => Rfm.rfm_member_ID x <> 46) tbl)
  /\ (forall ev tbl,
        Rfm.main Examples.cohort_members "M" true true = (ev, Ok (Some tbl)) ->
        Forall (fun s => Rfm.rfm_member_ID (Rfm.row s) <> 46) tbl).
Proof.
  apply (company_account_excluded Examples.cohort_members
           (drop_company_account Examples.cohort_members) "M" true true).
  vm_compute. reflexivity.
Defined.

(** C8.  A granularity outside the accepted set makes either entry point
    print its message and return nothing: no table is computed, nothing is
    exported and nothing is raised, whatever the members table. *)
Theorem invalid_granularity_returns_none
    (df : list member) (freq : string) (export_csv export_plot : bool) :
  (freq <> "M"%string -> freq <> "Q"%string ->
   Cohort.main df freq export_plot
   = ([Print "Your input is not valid! Choose either {'M', 'Q'} as freq."],
      Ok None))
  /\ (freq <> "W"%string -> freq <> "M"%string ->
      Rfm.main df freq export_csv export_plot
      = ([Print "Your input is not valid! Choose either {'W', 'M'} as freq."],
         Ok None)).
Proof.
  split; intros H1 H2.
  - unfold Cohort.main. cbn [existsb].
    apply String.eqb_neq in H1, H2. now rewrite H1, H2.
  - unfold Rfm.main. cbn [existsb].
    apply String.eqb_neq in H1, H2. now rewrite H1, H2.
Qed.

Lemma invalid_granularity_returns_none_witness :
  Cohort.main Examples.cohort_members "W" true
  = ([Print "Your input is not valid! Choose either {'M', 'Q'} as freq."], Ok None)
  /\ Rfm.main Examples.rfm_members "Q" true true
     = ([Print "Your input is not valid! Choose either {'W', 'M'} as freq."], Ok None).
Proof.
  split.
  - apply (proj1 (invalid_granularity_returns_none
                    Examples.cohort_members "W" true true)); discriminate.
  - apply (proj2 (invalid_granularity_returns_none
                    Examples.rfm_members "Q" true true)); discriminate.
Defined.

(** ** Building the products table *)

Lemma mapM_Ok {A B : Type} (f : A -> result B) (l : list A) (out : list B) :
  mapM f l = Ok out -> Forall2 (fun a b => f a = Ok b) l out.
Proof.
  revert out. induction l as [|a l IH]; intros out H; cbn [mapM] in H.
  - inversion H. constructor.
  - destruct (f a) as [b|] eqn:Ea; [|discriminate]. cbn [bind] in H.
    destruct (mapM f l) as [bs|] eqn:El; [|discriminate]. cbn [bind] in H.
    inversion H; subst. constructor; auto.
Qed.


Lemma mapM_map_fuse {A B C : Type} (g : A -> B) (f : B -> result C) (l : list A) :
  mapM f (map g l) = mapM (fun a => f (g a)) l.
Proof.
  induction l as [|a l IH]; [reflexivity|]. cbn [map mapM]. now rewrite IH.
Qed.

Lemma astype_float_is_float (v w : obj) :
  Obj.astype_float v = Ok w -> Obj.is_float w = true.
Proof.
  destruct v as [s|x]; cbn [Obj.astype_float].
  - destruct (Str.float_of_string s); [|discriminate].
    intros H. inversion H. reflexivity.
  - intros H. inversion H. reflexivity.
Qed.

Lemma astype_row_columns (p q : Dataframes.product_fields) :
  Dataframes.astype_row p = Ok q ->
  Obj.is_float (Dataframes.tax_rate q) = true
  /\ Obj.is_float (Dataframes.net_price q) = true
  /\ Obj.is_float (Dataframes.bundle_size q) = true
  /\ Obj.is_float (Dataframes.amount_ordered q) = true
  /\ Obj.is_float (Dataframes.bundles_ordered q) = true
  /\ Dataframes.supplier_code q = Dataframes.supplier_code p.
Proof.
  unfold Dataframes.astype_row.
  destruct (Obj.astype_float (Dataframes.tax_rate p)) as [t|] eqn:Et; [|discriminate].
  destruct (Obj.astype_float (Dataframes.net_price p)) as [n|] eqn:En; [|discriminate].
  destruct (Obj.astype_float (Dataframes.bundle_size p)) as [b|] eqn:Eb; [|discriminate].
  destruct (Obj.astype_float (Dataframes.amount_ordered p)) as [a|] eqn:Ea; [|discriminate].
  destruct (Obj.astype_float (Dataframes.bundles_ordered p)) as [o|] eqn:Eo; [|discriminate].
  cbn [bind]. intros H. inversion H; subst q. cbn.
  repeat split; eapply astype_float_is_float; eassumption.
Qed.

(** In every products table the builder returns, five columns hold floats
    and [supplier_code] holds what the two string replacements left. *)
Lemma make_df_products_columns (df_orders : list Dataframes.order)
    (tbl : list Dataframes.product) :
  Dataframes.make_df_products df_orders = Ok tbl ->
  Forall Dataframes.float_columns tbl
  /\ map (fun r => Dataframes.supplier_code (Dataframes.fields r)) tbl
     = map (fun kv => Obj.replace_empty
                        (Obj.replace_comma (Dataframes.supplier_code (snd kv))))
           (flat_map Dataframes.products df_orders).
Proof.
  unfold Dataframes.make_df_products. cbv zeta. rewrite !map_map.
  cbn [Dataframes.p_order_ID Dataframes.p_product_ID Dataframes.fields].
  assert (Hsrc : map (fun kv => Obj.replace_empty
                          (Obj.replace_comma (Dataframes.supplier_code (snd kv))))
                     (flat_map Dataframes.products df_orders)
                 = map (fun r => Obj.replace_empty
                          (Obj.replace_comma
                             (Dataframes.supplier_code (Dataframes.fields r))))
                       (flat_map (fun o =>
                          map (fun kv => {| Dataframes.p_order_ID := Dataframes.order_ID o;
                                            Dataframes.p_product_ID := fst kv;
                                            Dataframes.fields := snd kv |})
                              (Dataframes.products o)) df_orders)).
  { induction df_orders as [|o l IH]; [reflexivity|].
    cbn [flat_map]. rewrite !map_app, IH, map_map. reflexivity. }
  rewrite Hsrc. clear Hsrc.
  generalize (flat_map (fun o =>
                map (fun kv => {| Dataframes.p_order_ID := Dataframes.order_ID o;
                                  Dataframes.p_product_ID := fst kv;
                                  Dataframes.fields := snd kv |})
                    (Dataframes.products o)) df_orders).
  intros src. revert tbl.
  induction src as [|r src IH]; intros tbl H; cbn [map mapM] in *.
  - inversion H. split; [constructor|reflexivity].
  - destruct (Dataframes.astype_row _) as [q|] eqn:Eq; [|discriminate].
    cbn [bind] in H. destruct (mapM _ _) as [rest|] eqn:Er; [|discriminate].
    cbn [bind] in H. inversion H; subst tbl.
    destruct (IH rest eq_refl) as [IH1 IH2].
    apply astype_row_columns in Eq as (H1 & H2 & H3 & H4 & H5 & H6).
    split.
    + constructor; [|exact IH1]. unfold Dataframes.float_columns. cbn [Dataframes.fields]. auto.
    + cbn [map Dataframes.fields]. rewrite IH2, H6. reflexivity.
Qed.

(** C5.  The builder casts five of the six decimal-comma columns to float;
    [supplier_code] gets the comma replaced and stays a string: for the
    raw code "12,5" the table holds the string "12.5", where the cast
    would have given the number 12.5. *)
Theorem supplier_code_is_not_cast :
  Dataframes.make_df_products Examples.raw_orders
  = Ok [ {| Dataframes.p_order_ID := 1;
            Dataframes.p_product_ID := "p1";
            Dataframes.fields :=
              {| Dataframes.tax_rate := OFloat (Fin 7);
                 Dataframes.net_price := OFloat (Fin (6 # 5));
                 Dataframes.bundle_size := OFloat NaN;
                 Dataframes.supplier_code := OStr "12.5";
                 Dataframes.amount_ordered := OFloat (Fin 3);
                 Dataframes.bundles_ordered := OFloat (Fin (1 # 2)) |} |} ]
  /\ Obj.is_float (OStr "12.5") = false
  /\ Obj.astype_float (Obj.replace_empty (Obj.replace_comma (OStr "12,5")))
     = Ok (OFloat (Fin (25 # 2))).
Proof. repeat split; vm_compute; reflexivity. Qed.

(** ** Feature derivation *)

Section FeatureFacts.
Import Features.

Lemma main_unfold (df_orders : list order) (df_members : list member)
    (df_products : list product)
    (out_o : list order_feat) (out_m : list member_feat) (out_p : list product_feat) :
  main df_orders df_members df_products = Ok (out_o, out_m, out_p) ->
  out_p = map (fun r => {| p_product := r;
                           net_total_price := Float.mul (net_price r) (amount_ordered r) |})
              df_products
  /\ out_o = map (fun o =>
                    {| o_order := o;
                       total_order_value :=
                         aligned (option_map Float.round2 (group_sum out_p (order_ID o)));
                       num_participating_members :=
                         aligned (group_size (merge_delivery_date df_members df_orders)
                                             (order_ID o)) |})
                 df_orders
  /\ order_request_value (merge_delivery_date df_members df_orders) out_p = Ok out_m.
Proof.
  unfold main. cbv zeta.
  destruct (order_request_value _ _) as [m|] eqn:E; [|discriminate].
  cbn [bind]. intros H. inversion H; subst. auto.
Qed.

Lemma group_sum_cases (df_products : list product_feat) (o : Z) :
  (In o (map (fun r => p_order_ID (p_product r)) df_products)
   /\ aligned (option_map Float.round2 (group_sum df_products o))
      = spec_total_order_value df_products o)
  \/ (~ In o (map (fun r => p_order_ID (p_product r)) df_products)
      /\ aligned (option_map Float.round2 (group_sum df_products o)) = NaN).
Proof.
  unfold group_sum, spec_total_order_value.
  destruct (filter _ df_products) as [|r g] eqn:E.
  - right. split; [|reflexivity]. intros Hin.
    apply in_map_iff in Hin as (r & Er & Hr).
    assert (Hf : In r (filter (fun r => p_order_ID (p_product r) =? o) df_products))
      by (apply filter_In; split; [exact Hr|now apply Z.eqb_eq]).
    rewrite E in Hf. contradiction.
  - left. split; [|reflexivity].
    assert (Hf : In r (filter (fun r => p_order_ID (p_product r) =? o) df_products))
      by (rewrite E; now left).
    apply filter_In in Hf as [Hr Eo]. apply Z.eqb_eq in Eo.
    apply in_map_iff. eauto.
Qed.

(** *** Blank filled amounts *)

Lemma space_is_not_comma (c : ascii) :
  Str.is_space c = true -> Ascii.eqb c ","%char = false.
Proof.
  destruct c as [[] [] [] [] [] [] [] []]; cbn; intros H;
    try reflexivity; discriminate.
Qed.

Lemma replace_comma_blank (s : string) :
  Str.is_blank s = true -> Str.replace_comma s = s.
Proof.
  induction s as [|c s IH]; [reflexivity|]. cbn [Str.is_blank Str.replace_comma].
  intros H. apply andb_prop in H as [Hc Hs].
  now rewrite (space_is_not_comma c Hc), IH.
Qed.









End FeatureFacts.

(** C9, as stated, fails: an order without product rows has no group in
    the groupby, so its [total_order_value] is missing, while the sum over
    its (zero) product rows, rounded, is 0.00. *)
Lemma total_order_value_counterexample :
  Features.main Examples.orders Examples.members Examples.products
  = Ok Examples.derived
  /\ exists o,
       In o (fst (fst Examples.derived))
       /\ Features.order_ID (Features.o_order o) = 2
       /\ Features.total_order_value o = NaN
       /\ Features.spec_total_order_value (snd Examples.derived) 2 = Fin (0 # 100).
Proof.
  split; [vm_compute; reflexivity|].
  eexists. split; [right; left; reflexivity|].
  repeat split; vm_compute; reflexivity.
Qed.

(** C9, amended.  After feature derivation every product row has
    [net_total_price = net_price * amount_ordered]; every order that has
    product rows has as [total_order_value] the sum of their
    [net_total_price] (missing values skipped) rounded to two decimals;
    an order without product rows has a missing [total_order_value]. *)
Theorem order_totals_after_derivation
    (df_orders : list Features.order) (df_members : list Features.member)
    (df_products : list Features.product)
    (out_o : list Features.order_feat) (out_m : list Features.member_feat)
    (out_p : list Features.product_feat) :
  Features.main df_orders df_members df_products = Ok (out_o, out_m, out_p) ->
  map Features.p_product out_p = df_products
  /\ map Features.o_order out_o = df_orders
  /\ Forall (fun p =>
               Features.net_total_price p
               = Float.mul (Features.net_price (Features.p_product p))
                           (Features.amount_ordered (Features.p_product p)))
            out_p
  /\ Forall (fun o =>
               let id := Features.order_ID (Features.o_order o) in
               let ids := map (fun r => Features.p_order_ID (Features.p_product r)) out_p in
               (In id ids ->
                Features.total_order_value o = Features.spec_total_order_value out_p id)
               /\ (~ In id ids -> Features.total_order_value o = NaN))
            out_o.
Proof.
  intros H. apply main_unfold in H as (Hp & Ho & _).
  split; [|split; [|split]].
  - rewrite Hp, map_map. cbn [Features.p_product]. apply map_id.
  - rewrite Ho, map_map. cbn [Features.o_order]. apply map_id.
  - rewrite Hp. apply Forall_map. apply Forall_forall. intros; reflexivity.
  - rewrite Ho. apply Forall_map. apply Forall_forall. intros o _.
    cbn [Features.o_order Features.total_order_value]. cbv zeta.
    destruct (group_sum_cases out_p (Features.order_ID o)) as [[Hin ->]|[Hn ->]];
      split; intros H; try reflexivity; contradiction.
Qed.

Lemma order_totals_after_derivation_witness :
  map Features.p_product (snd Examples.derived) = Examples.products
  /\ map Features.o_order (fst (fst Examples.derived)) = Examples.orders
  /\ Forall (fun p =>
               Features.net_total_price p
               = Float.mul (Features.net_price (Features.p_product p))
                           (Features.amount_ordered (Features.p_product p)))
            (snd Examples.derived)
  /\ Forall (fun o =>
               let id := Features.order_ID (Features.o_order o) in
               let ids := map (fun r => Features.p_order_ID (Features.p_product r))
                              (snd Examples.derived) in
               (In id ids ->
                Features.total_order_value o
                = Features.spec_total_order_value (snd Examples.derived) id)
               /\ (~ In id ids -> Features.total_order_value o = NaN))
            (fst (fst Examples.derived)).
Proof.
  apply (order_totals_after_derivation Examples.orders Examples.members
           Examples.products _ (snd (fst Examples.derived)) _).
  vm_compute. reflexivity.
Defined.

(** * Further properties *)

(** ** Sorted keys *)

Section SortUnique.
Context {A : Type}.
Variable eqb : A -> A -> bool.
Variable leb : A -> A -> bool.
Hypothesis eqb_eq : forall x y, eqb x y = true <-> x = y.
Hypothesis leb_total : forall x y, leb x y = true \/ leb y x = true.
Hypothesis leb_trans :
  forall x y z, leb x y = true -> leb y z = true -> leb x z = true.
Hypothesis leb_antisym : forall x y, leb x y = true -> leb y x = true -> x = y.

Lemma sorted_perm_eq (a : list A) :
  forall b,
    StronglySorted (fun x y => leb x y = true) a ->
    StronglySorted (fun x y => leb x y = true) b ->
    Permutation a b -> a = b.
Proof.
  induction a as [|x a IH]; intros b Ha Hb Hp.
  - apply Permutation_nil in Hp. now subst.
  - destruct b as [|y b].
    { apply Permutation_sym, Permutation_nil in Hp. discriminate. }
    inversion Ha as [|? ? Ha' Hx]; subst. inversion Hb as [|? ? Hb' Hy]; subst.
    assert (E : x = y).
    { assert (Hxb : In x (y :: b)) by (apply (Permutation_in _ Hp); now left).
      assert (Hya : In y (x :: a))
        by (apply (Permutation_in _ (Permutation_sym Hp)); now left).
      destruct Hxb as [->|Hxb]; [reflexivity|].
      destruct Hya as [->|Hya]; [reflexivity|].
      apply leb_antisym.
      - now apply (proj1 (Forall_forall _ _) Hx).
      - now apply (proj1 (Forall_forall _ _) Hy). }
    subst y. f_equal. apply IH; auto.
    now apply Permutation_cons_inv in Hp.
Qed.

(** The sorted keys depend only on the set of values. *)
Lemma sorted_unique_ext (l l' : list A) :
  (forall x, In x l <-> In x l') ->
  sorted_unique eqb leb l = sorted_unique eqb leb l'.
Proof.
  intros H. unfold sorted_unique.
  apply sorted_perm_eq; try (apply sort_sorted; assumption).
  rewrite !sort_perm.
  apply NoDup_Permutation; try apply unique_NoDup; try assumption.
  intros x. rewrite !(unique_In eqb eqb_eq). apply H.
Qed.
End SortUnique.

Lemma Zleb_total (x y : Z) : (x <=? y) = true \/ (y <=? x) = true.
Proof. rewrite !Z.leb_le. lia. Qed.

Lemma Zleb_trans (x y z : Z) :
  (x <=? y) = true -> (y <=? z) = true -> (x <=? z) = true.
Proof. rewrite !Z.leb_le. lia. Qed.

Lemma Zleb_antisym (x y : Z) : (x <=? y) = true -> (y <=? x) = true -> x = y.
Proof. rewrite !Z.leb_le. lia. Qed.

Lemma pair_leb_iff (a b : Z * Z) :
  pair_leb a b = true <-> fst a < fst b \/ (fst a = fst b /\ snd a <= snd b).
Proof.
  unfold pair_leb.
  rewrite orb_true_iff, andb_true_iff, Z.ltb_lt, Z.eqb_eq, Z.leb_le. reflexivity.
Qed.

Lemma pair_leb_total (a b : Z * Z) : pair_leb a b = true \/ pair_leb b a = true.
Proof. rewrite !pair_leb_iff. lia. Qed.

Lemma pair_leb_trans (a b c : Z * Z) :
  pair_leb a b = true -> pair_leb b c = true -> pair_leb a c = true.
Proof. rewrite !pair_leb_iff. lia. Qed.

Lemma pair_leb_antisym (a b : Z * Z) :
  pair_leb a b = true -> pair_leb b a = true -> a = b.
Proof.
  rewrite !pair_leb_iff. destruct a, b. cbn [fst snd]. intros H1 H2.
  f_equal; lia.
Qed.

Lemma sorted_unique_ext_Z (l l' : list Z) :
  (forall x, In x l <-> In x l') ->
  sorted_unique Z.eqb Z.leb l = sorted_unique Z.eqb Z.leb l'.
Proof.
  apply sorted_unique_ext;
    [apply Z.eqb_eq|apply Zleb_total|apply Zleb_trans|apply Zleb_antisym].
Qed.

Lemma sorted_unique_ext_pair (l l' : list (Z * Z)) :
  (forall x, In x l <-> In x l') ->
  sorted_unique pair_eqb pair_leb l = sorted_unique pair_eqb pair_leb l'.
Proof.
  apply sorted_unique_ext;
    [apply pair_eqb_eq|apply pair_leb_total|apply pair_leb_trans|apply pair_leb_antisym].
Qed.

(** The labels of an axis are strictly ascending. *)
Lemma sorted_unique_strict (l : list Z) :
  StronglySorted Z.lt (sorted_unique Z.eqb Z.leb l).
Proof.
  pose proof (sorted_unique_NoDup_Z l) as Hn.
  pose proof (sort_sorted Z.leb Zleb_total Zleb_trans (unique Z.eqb l)) as Hs.
  unfold sorted_unique in *.
  induction Hs as [|x s Hs IH Hx]; [constructor|].
  inversion Hn; subst. constructor; [now apply IH|].
  apply Forall_forall. intros y Hy.
  pose proof (proj1 (Forall_forall _ _) Hx y Hy) as Hle. cbv beta in Hle.
  apply Z.leb_le in Hle.
  assert (x <> y) by (intros ->; contradiction). lia.
Qed.

(** ** The cohort pivot *)

Lemma nunique_ext (l l' : list Z) :
  (forall x, In x l <-> In x l') -> Cohort.nunique l = Cohort.nunique l'.
Proof.
  intros H. apply Z.le_antisymm; apply nunique_incl; intros x Hx; now apply H.
Qed.

Lemma fold_left_min_spec (l : list Z) :
  forall a, fold_left Z.min l a <= a
            /\ (forall x, In x l -> fold_left Z.min l a <= x)
            /\ (fold_left Z.min l a = a \/ In (fold_left Z.min l a) l).
Proof.
  induction l as [|b l IH]; intros a; cbn [fold_left].
  - repeat split; [lia|contradiction|now left].
  - destruct (IH (Z.min a b)) as (H1 & H2 & H3). repeat split.
    + lia.
    + intros x [->|Hx]; [lia|now apply H2].
    + destruct H3 as [H3|H3]; [|right; now right].
      rewrite H3. destruct (Z.min_spec a b) as [[_ ->]|[_ ->]];
        [now left|right; now left].
Qed.

Lemma min_date_spec (l : list Z) :
  l <> [] ->
  exists e, CohortPlot.min_date l = Some e /\ In e l /\ forall x, In x l -> e <= x.
Proof.
  destruct l as [|t l]; [congruence|]. intros _.
  destruct (fold_left_min_spec l t) as (H1 & H2 & H3).
  exists (fold_left Z.min l t). split; [reflexivity|]. split.
  - destruct H3 as [->|H3]; [now left|now right].
  - intros x [<-|Hx]; [exact H1|now apply H2].
Qed.

Section PivotFacts.
Import Calendar Cohort Customers.
Variable f : Freq.
Variable df : list member.

(** The cohort column of a row is the first period of its member. *)
Lemma cohort_is_first_period (r : member) :
  In r df -> to_period f (transform_min df r) = first_period f df (member_ID r).
Proof.
  intros Hr. unfold first_period, deliveries.
  assert (Hin : In (delivery_date r)
                   (map delivery_date (filter (fun r' => member_ID r' =? member_ID r) df))).
  { apply in_map. apply filter_In. split; [exact Hr|apply Z.eqb_refl]. }
  assert (Hne : map delivery_date (filter (fun r' => member_ID r' =? member_ID r) df) <> [])
    by (intros E; rewrite E in Hin; contradiction).
  destruct (min_date_spec _ Hne) as (e & -> & He & Hmin).
  f_equal. unfold transform_min. apply Z.le_antisymm.
  - now apply (proj2 (fold_min_le _ _)).
  - destruct (fold_min_In (delivery_date r)
                (map delivery_date (filter (fun r' => member_ID r' =? member_ID r) df)))
      as [E|H].
    + rewrite E. now apply Hmin.
    + now apply Hmin.
Qed.

Lemma group_active (c k : Z) (m : Z) :
  In m (group (add_cohort f df) (c, c + k)) <-> In m (active f df c k).
Proof.
  rewrite group_In. unfold active. rewrite in_map_iff. cbn [fst snd]. split.
  - intros (r & Hr & Em & E1 & E2). exists r. split; [exact Em|].
    apply filter_In. split; [exact Hr|].
    rewrite <- (cohort_is_first_period r Hr), <- E1, <- E2.
    now rewrite !Z.eqb_refl.
  - intros (r & Em & Hr). apply filter_In in Hr as [Hr E].
    apply andb_prop in E as [E1 E2]. apply Z.eqb_eq in E1, E2.
    exists r. rewrite (cohort_is_first_period r Hr). auto.
Qed.

Lemma keys_active (c k : Z) :
  In (c, c + k) (sorted_unique pair_eqb pair_leb (map key (add_cohort f df)))
  <-> active f df c k <> [].
Proof.
  rewrite keys_In. cbn [fst snd]. split.
  - intros (r & Hr & E1 & E2) E.
    assert (Hin : In (member_ID r) (active f df c k)).
    { apply group_active. apply group_In. exists r. auto. }
    rewrite E in Hin. contradiction.
  - intros Hne. destruct (active f df c k) as [|m l] eqn:E; [congruence|].
    assert (Hin : In m (active f df c k)) by (rewrite E; now left).
    apply group_active in Hin. apply group_In in Hin as (r & Hr & _ & E1 & E2).
    exists r. auto.
Qed.

Lemma active_first (c : Z) (m : Z) :
  In m (active f df c 0) <-> In m (enrolled f df c).
Proof.
  split.
  - unfold active, enrolled. rewrite !in_map_iff.
    intros (r & Em & Hr). exists r. split; [exact Em|].
    apply filter_In in Hr as [Hr E]. apply andb_prop in E as [E _].
    apply filter_In. auto.
  - intros H. apply group_active.
    unfold enrolled in H. apply in_map_iff in H as (r & Em & Hr).
    apply filter_In in Hr as [Hr E]. apply Z.eqb_eq in E.
    rewrite <- (cohort_is_first_period r Hr) in E.
    rewrite Z.add_0_r.
    apply (group_incl f df (c, to_period f (delivery_date r)) m).
    apply group_In. exists r. cbn [fst snd]. auto.
Qed.

Lemma make_retention_matrix_unfold (freq : string)
    (retention_matrix cohort_pivot : DataFrame) :
  offset_alias freq = Some f ->
  make_retention_matrix df freq = Ok (retention_matrix, cohort_pivot) ->
  df <> []
  /\ cohort_pivot = pivot_table (aggregate (add_cohort f df))
  /\ index retention_matrix = index cohort_pivot
  /\ columns retention_matrix = columns cohort_pivot
  /\ values retention_matrix
     = div_rows (values cohort_pivot) (map (fun row => hd NaN row) (values cohort_pivot)).
Proof.
  intros Hf H. split.
  - intros ->. rewrite (make_retention_matrix_empty f freq Hf) in H. discriminate.
  - unfold make_retention_matrix in H. rewrite Hf in H. cbv zeta in H.
    unfold iloc_first_column in H.
    destruct (columns (pivot_table (aggregate (add_cohort f df)))) eqn:E;
      [discriminate|].
    cbn [bind] in H. inversion H; subst. cbn [index columns values].
    repeat split; try reflexivity. symmetry. exact E.
Qed.

End PivotFacts.

(** X1.  Every cell of the cohort pivot is the number of distinct members
    of that cohort with a delivery in that period, and missing when there
    is none; the first column is the number of distinct members of the
    cohort. *)
Theorem pivot_cells_count_active_members
    (df : list member) (freq : string) (f : Calendar.Freq)
    (retention_matrix cohort_pivot : DataFrame) :
  Calendar.offset_alias freq = Some f ->
  Cohort.make_retention_matrix df freq = Ok (retention_matrix, cohort_pivot) ->
  forall c k, In c (index cohort_pivot) -> In k (columns cohort_pivot) ->
    (Customers.active f df c k = [] -> loc cohort_pivot c k = Some NaN)
    /\ (Customers.active f df c k <> [] ->
        exists q, loc cohort_pivot c k = Some (Fin q)
                  /\ (q == inject_Z (Cohort.nunique (Customers.active f df c k)))%Q)
    /\ exists q0, loc cohort_pivot c 0 = Some (Fin q0)
                  /\ (q0 == inject_Z (Cohort.nunique (Customers.enrolled f df c)))%Q
                  /\ (1 <= q0)%Q.
Proof.
  intros Hf H c k Hc Hk.
  destruct (make_retention_matrix_unfold f df freq _ _ Hf H) as (Hne & -> & _).
  destruct (columns_head f df Hne) as (rest & Hcols).
  unfold Cohort.pivot_table in *. cbv zeta in *. cbn [index columns] in Hc, Hk.
  assert (H0 : In 0 (sorted_unique Z.eqb Z.leb
                       (map Cohort.period_number
                          (Cohort.aggregate (Cohort.add_cohort f df)))))
    by (rewrite Hcols; now left).
  rewrite !loc_tabulate by assumption.
  split; [|split].
  - intros E. destruct (cell_cases f df c k) as [[_ ->]|[Hin _]]; [reflexivity|].
    apply keys_active in Hin. contradiction.
  - intros Hact. destruct (cell_cases f df c k) as [[Hn _]|[_ ->]].
    + apply keys_active in Hact. contradiction.
    + eexists. split; [reflexivity|]. rewrite mean_of_count.
      now rewrite (nunique_ext _ _ (group_active f df c k)).
  - apply (proj1 (index_In f df c)) in Hc.
    rewrite (cell_first f df c Hc).
    eexists. split; [reflexivity|]. rewrite mean_of_count.
    assert (E : Cohort.nunique (Cohort.group (Cohort.add_cohort f df) (c, c))
                = Cohort.nunique (Customers.enrolled f df c)).
    { apply nunique_ext. intros m. rewrite <- active_first.
      rewrite <- (Z.add_0_r c) at 2. apply group_active. }
    rewrite <- E. split; [reflexivity|].
    pose proof (count_pos f df _ Hc). cbv beta in H1.
    change 1%Q with (inject_Z 1). rewrite <- Zle_Qle. exact H1.
Qed.

Lemma pivot_cells_count_active_members_witness :
  (Customers.active Calendar.FreqM (drop_company_account Examples.cohort_members) 600 1 = [] ->
   loc {| index := [600; 601]; columns := [0; 1; 3];
          values := [[Fin 2; Fin 1; Fin 1]; [Fin 1; NaN; NaN]] |} 600 1 = Some NaN)
  /\ (Customers.active Calendar.FreqM (drop_company_account Examples.cohort_members) 600 1 <> [] ->
      exists q, loc {| index := [600; 601]; columns := [0; 1; 3];
                       values := [[Fin 2; Fin 1; Fin 1]; [Fin 1; NaN; NaN]] |} 600 1
                = Some (Fin q)
                /\ (q == inject_Z (Cohort.nunique
                                     (Customers.active Calendar.FreqM
                                        (drop_company_account Examples.cohort_members)
                                        600 1)))%Q)
  /\ exists q0, loc {| index := [600; 601]; columns := [0; 1; 3];
                       values := [[Fin 2; Fin 1; Fin 1]; [Fin 1; NaN; NaN]] |} 600 0
                = Some (Fin q0)
                /\ (q0 == inject_Z (Cohort.nunique
                                      (Customers.enrolled Calendar.FreqM
                                         (drop_company_account Examples.cohort_members)
                                         600)))%Q
                /\ (1 <= q0)%Q.
Proof.
  refine (pivot_cells_count_active_members
            (drop_company_account Examples.cohort_members) "M" Calendar.FreqM
            {| index := [600; 601]; columns := [0; 1; 3];
               values := [[Fin (2 # 2); Fin (1 # 2); Fin (1 # 2)]; [Fin 1; NaN; NaN]] |}
            {| index := [600; 601]; columns := [0; 1; 3];
               values := [[Fin 2; Fin 1; Fin 1]; [Fin 1; NaN; NaN]] |}
            eq_refl _ 600 1 _ _).
  - vm_compute. reflexivity.
  - cbn. auto.
  - cbn. auto.
Defined.

(** ** Shape of the frames *)

Section ShapeFacts.
Import Calendar Cohort Customers.

Lemma div_rows_length (rows : list (list fnum)) :
  forall s, List.length (div_rows rows s) = List.length rows.
Proof.
  induction rows as [|row rows IH]; intros s; [destruct s; reflexivity|].
  destruct s; cbn [div_rows List.length]; now rewrite IH.
Qed.

Lemma div_rows_widths (n : nat) (rows : list (list fnum)) :
  forall s,
    Forall (fun row => List.length row = n) rows ->
    Forall (fun row => List.length row = n) (div_rows rows s).
Proof.
  induction rows as [|row rows IH]; intros s H; [destruct s; constructor|].
  inversion H; subst.
  destruct s; cbn [div_rows]; (constructor; [now rewrite length_map|now apply IH]).
Qed.

Variable f : Freq.
Variable df : list member.

Lemma index_cohorts (c : Z) :
  In c (sorted_unique Z.eqb Z.leb (map cohort (aggregate (add_cohort f df))))
  <-> enrolled f df c <> [].
Proof.
  rewrite index_In. rewrite <- (Z.add_0_r c) at 2. rewrite keys_active.
  split; intros H E; apply H.
  - destruct (active f df c 0) as [|m l] eqn:Ea; [reflexivity|].
    assert (Hin : In m (enrolled f df c))
      by (apply active_first; rewrite Ea; now left).
    rewrite E in Hin. contradiction.
  - destruct (enrolled f df c) as [|m l] eqn:Ea; [reflexivity|].
    assert (Hin : In m (active f df c 0))
      by (apply active_first; rewrite Ea; now left).
    rewrite E in Hin. contradiction.
Qed.

Lemma columns_offsets (k : Z) :
  In k (sorted_unique Z.eqb Z.leb (map period_number (aggregate (add_cohort f df))))
  <-> exists c, active f df c k <> [].
Proof.
  rewrite sorted_unique_In_Z, in_map_iff. split.
  - intros (a & <- & Ha). apply agg_In in Ha as (key & Hk & ->).
    exists (fst key). cbn [agg_of period_number].
    apply keys_active. destruct key as [c p]. cbn [fst snd].
    now replace (c + (p - c)) with p by lia.
  - intros (c & Hc). apply keys_active in Hc.
    exists (agg_of (add_cohort f df) (c, c + k)). split.
    + cbn. lia.
    + apply agg_In. eauto.
Qed.

End ShapeFacts.

(** X2.  The two frames the cohort analysis returns have the same labels:
    the cohorts that have members, strictly ascending, and the period
    offsets at which some cohort is active, strictly ascending from 0;
    every row has one cell per column. *)
Theorem retention_matrix_shape
    (df : list member) (freq : string) (f : Calendar.Freq)
    (retention_matrix cohort_pivot : DataFrame) :
  Calendar.offset_alias freq = Some f ->
  Cohort.make_retention_matrix df freq = Ok (retention_matrix, cohort_pivot) ->
  index retention_matrix = index cohort_pivot
  /\ columns retention_matrix = columns cohort_pivot
  /\ StronglySorted Z.lt (index cohort_pivot)
  /\ StronglySorted Z.lt (columns cohort_pivot)
  /\ hd_error (columns cohort_pivot) = Some 0
  /\ (forall c, In c (index cohort_pivot) <-> Customers.enrolled f df c <> [])
  /\ (forall k, In k (columns cohort_pivot) <-> exists c, Customers.active f df c k <> [])
  /\ List.length (values cohort_pivot) = List.length (index cohort_pivot)
  /\ List.length (values retention_matrix) = List.length (index cohort_pivot)
  /\ Forall (fun row => List.length row = List.length (columns cohort_pivot))
            (values cohort_pivot)
  /\ Forall (fun row => List.length row = List.length (columns cohort_pivot))
            (values retention_matrix).
Proof.
  intros Hf H.
  destruct (make_retention_matrix_unfold f df freq _ _ Hf H)
    as (Hne & -> & Hi & Hc & Hv).
  destruct (columns_head f df Hne) as (rest & Hcols).
  assert (Hw : Forall (fun row => List.length row
                                  = List.length (columns (Cohort.pivot_table
                                      (Cohort.aggregate (Cohort.add_cohort f df)))))
                      (values (Cohort.pivot_table
                                 (Cohort.aggregate (Cohort.add_cohort f df))))).
  { unfold Cohort.pivot_table. cbv zeta. cbn [values columns].
    apply Forall_map. apply Forall_forall. intros c _. apply length_map. }
  repeat split; try assumption.
  - apply sorted_unique_strict.
  - apply sorted_unique_strict.
  - unfold Cohort.pivot_table. cbv zeta. cbn [columns]. now rewrite Hcols.
  - now apply index_cohorts.
  - now apply index_cohorts.
  - now apply columns_offsets.
  - now apply columns_offsets.
  - unfold Cohort.pivot_table. cbv zeta. cbn [values index]. apply length_map.
  - rewrite Hv, div_rows_length.
    unfold Cohort.pivot_table. cbv zeta. cbn [values index]. apply length_map.
  - rewrite Hv. now apply div_rows_widths.
Qed.

Lemma retention_matrix_shape_witness :
  StronglySorted Z.lt [600; 601] /\ StronglySorted Z.lt [0; 1; 3].
Proof.
  destruct (retention_matrix_shape
              (drop_company_account Examples.cohort_members) "M" Calendar.FreqM
              {| index := [600; 601]; columns := [0; 1; 3];
                 values := [[Fin (2 # 2); Fin (1 # 2); Fin (1 # 2)]; [Fin 1; NaN; NaN]] |}
              {| index := [600; 601]; columns := [0; 1; 3];
                 values := [[Fin 2; Fin 1; Fin 1]; [Fin 1; NaN; NaN]] |}
              eq_refl ltac:(vm_compute; reflexivity))
    as (_ & _ & Hi & Hc & _).
  split; assumption.
Defined.

(** X3.  With a valid granularity the cohort analysis raises
    [IndexError] and exports nothing when the table has no row other than
    those of member 46, whether or not the plot is asked for; and the
    retention matrix is built for every table that is not empty: its
    builder raises exactly on the empty table. *)
Theorem cohort_raises_on_empty_table
    (df : list member) (freq : string) (export_plot : bool) :
  freq = "M"%string \/ freq = "Q"%string ->
  (drop_company_account df = [] ->
   Cohort.main df freq export_plot = ([], Raise IndexError))
  /\ ((exists e, Cohort.make_retention_matrix df freq = Raise e) <-> df = []).
Proof.
  intros Hfreq.
  assert (Hf : exists f, (freq = "M"%string /\ f = Calendar.FreqM)
                         \/ (freq = "Q"%string /\ f = Calendar.FreqQ)).
  { destruct Hfreq; [exists Calendar.FreqM|exists Calendar.FreqQ]; auto. }
  destruct Hf as (f & Hf).
  destruct (cohort_main_valid df freq export_plot f Hf) as [Ha Hmain].
  split; [|split].
  - intros E. rewrite Hmain, E.
    now rewrite (make_retention_matrix_empty f freq Ha).
  - intros (e & He).
    destruct df as [|r l]; [reflexivity|exfalso].
    assert (Hne : r :: l <> []) by discriminate.
    destruct (make_retention_matrix_spec f _ freq Ha Hne) as (rest & E).
    cbv zeta in E. rewrite E in He. discriminate.
  - intros ->. exists IndexError. exact (make_retention_matrix_empty f freq Ha).
Qed.

Lemma cohort_raises_on_empty_table_witness :
  Cohort.main
    [{| member_ID := 46; delivery_date := Examples.ts 2020 2 3;
        order_request_value := Some 900%Q |}] "Q" true
  = ([], Raise IndexError).
Proof.
  apply (cohort_raises_on_empty_table
           [{| member_ID := 46; delivery_date := Examples.ts 2020 2 3;
               order_request_value := Some 900%Q |}] "Q" true).
  - right. reflexivity.
  - reflexivity.
Defined.

(** ** The annotation of the plot *)

(** Classes of a duplicate-free list under a labelling [g], taken over a
    duplicate-free list of labels that covers the labels in use,
    partition the list. *)
Lemma partition_length (g : Z -> Z) (M : list Z) :
  forall idx : list Z,
    NoDup idx -> (forall m, In m M -> In (g m) idx) ->
    fold_right Z.add 0
      (map (fun c => Z.of_nat (List.length (filter (fun m => g m =? c) M))) idx)
    = Z.of_nat (List.length M).
Proof.
  induction M as [|m M IH]; intros idx Hnd Hin.
  - cbn. induction idx as [|c idx IHi]; cbn; [reflexivity|].
    inversion Hnd; subst. rewrite IHi; auto. intros m [].
  - assert (Hsplit : forall idx', NoDup idx' ->
              fold_right Z.add 0
                (map (fun c => Z.of_nat (List.length (filter (fun m' => g m' =? c) (m :: M)))) idx')
              = (if existsb (Z.eqb (g m)) idx' then 1 else 0)
                + fold_right Z.add 0
                    (map (fun c => Z.of_nat (List.length (filter (fun m' => g m' =? c) M))) idx')).
    { induction idx' as [|c idx' IHi]; intros Hnd'; [reflexivity|].
      inversion Hnd' as [|? ? Hc Hnd'']; subst.
      cbn [map fold_right existsb]. rewrite (IHi Hnd''). cbn [filter].
      destruct (g m =? c) eqn:E.
      - apply Z.eqb_eq in E.
        assert (Hex : existsb (Z.eqb (g m)) idx' = false).
        { destruct (existsb (Z.eqb (g m)) idx') eqn:Ex; [|reflexivity].
          apply existsb_exists in Ex as (x & Hx & Ex'). apply Z.eqb_eq in Ex'.
          exfalso. apply Hc. rewrite <- E, Ex'. exact Hx. }
        rewrite Hex. cbn [orb List.length]. lia.
      - cbn [orb]. lia. }
    rewrite (Hsplit idx Hnd).
    rewrite IH; [|exact Hnd|intros; apply Hin; now right].
    assert (Hex : existsb (Z.eqb (g m)) idx = true).
    { apply existsb_exists. exists (g m). split; [apply Hin; now left|apply Z.eqb_refl]. }
    rewrite Hex. cbn [List.length]. lia.
Qed.

Lemma NoDup_same_length (l l' : list Z) :
  NoDup l -> NoDup l' -> (forall x, In x l <-> In x l') ->
  List.length l = List.length l'.
Proof.
  intros H H' Hiff. apply Permutation_length.
  now apply NoDup_Permutation.
Qed.

Lemma fold_add_counts (g : Z -> fnum) (h : Z -> Z) (l : list Z) :
  (forall c, In c l -> exists q, g c = Fin q /\ (q == inject_Z (h c))%Q) ->
  forall a : Q,
    exists q, fold_left Float.add (map g l) (Fin a) = Fin q
              /\ (q == a + inject_Z (fold_right Z.add 0%Z (map h l)))%Q.
Proof.
  induction l as [|c l IH]; intros Hg a.
  - exists a. split; [reflexivity|]. cbn. ring.
  - destruct (Hg c (or_introl eq_refl)) as (qc & Ec & Hqc).
    cbn [map fold_left fold_right]. rewrite Ec. cbn [Float.add].
    destruct (IH (fun c' Hc' => Hg c' (or_intror Hc')) (a + qc)%Q) as (q & Eq & Hq).
    exists q. split; [exact Eq|].
    rewrite Hq, Hqc, inject_Z_plus. ring.
Qed.

Section Annotation.
Import Calendar Cohort Customers.
Variable f : Freq.
Variable df : list member.

Lemma first_period_indexed (m : Z) :
  In m (map member_ID df) ->
  In (first_period f df m)
     (sorted_unique Z.eqb Z.leb (map cohort (aggregate (add_cohort f df)))).
Proof.
  intros Hm. apply in_map_iff in Hm as (r & <- & Hr).
  apply index_In.
  apply (keys_diag f df (first_period f df (member_ID r), to_period f (delivery_date r))).
  apply keys_In. exists r. cbn [fst snd].
  rewrite (cohort_is_first_period f df r Hr). auto.
Qed.

Lemma cohort_size_class (c : Z) :
  nunique (enrolled f df c)
  = Z.of_nat (List.length (filter (fun m => first_period f df m =? c)
                                  (unique Z.eqb (map member_ID df)))).
Proof.
  unfold nunique. f_equal. apply NoDup_same_length.
  - apply unique_NoDup, Z.eqb_eq.
  - apply NoDup_filter, unique_NoDup, Z.eqb_eq.
  - intros m. rewrite (unique_In Z.eqb Z.eqb_eq), filter_In, (unique_In Z.eqb Z.eqb_eq).
    unfold enrolled. rewrite !in_map_iff. split.
    + intros (r & <- & Hr). apply filter_In in Hr as [Hr E].
      split; [exists r; auto|exact E].
    + intros [(r & <- & Hr) E]. exists r. split; [reflexivity|].
      apply filter_In. auto.
Qed.

End Annotation.

(** X4.  The [n] the retention plot is annotated with is the number of
    distinct members of the table it is given, and the two months of the
    annotation bracket the month of every delivery. *)
Theorem plot_annotation_counts_members
    (df : list member) (freq : string) (f : Calendar.Freq)
    (retention_matrix cohort_pivot : DataFrame) :
  Calendar.offset_alias freq = Some f ->
  Cohort.make_retention_matrix df freq = Ok (retention_matrix, cohort_pivot) ->
  exists q lo hi,
    CohortPlot.annotate cohort_pivot df
    = Ok {| CohortPlot.n := Fin q; CohortPlot.t_min := Some lo;
            CohortPlot.t_max := Some hi |}
    /\ (q == inject_Z (Cohort.nunique (map member_ID df)))%Q
    /\ forall r, In r df ->
         lo <= Calendar.to_period Calendar.FreqM (delivery_date r) <= hi.
Proof.
  intros Hf H.
  destruct (make_retention_matrix_unfold f df freq _ _ Hf H)
    as (Hne & -> & _ & _ & _).
  destruct (columns_head f df Hne) as (rest & Hcols).
  assert (Hd : map delivery_date df <> []) by (destruct df; [congruence|discriminate]).
  destruct (min_date_spec _ Hd) as (lo & Elo & _ & Hlo).
  destruct (max_date_spec _ Hd) as (hi & Ehi & _ & Hhi).
  unfold CohortPlot.annotate, Cohort.iloc_first_column, Cohort.pivot_table.
  cbv zeta. cbn [columns values]. rewrite Hcols. cbn [bind].
  rewrite Elo, Ehi. cbn [option_map].
  rewrite map_map. cbn [map hd].
  destruct (fold_add_counts
              (fun c => Cohort.cell (Cohort.aggregate (Cohort.add_cohort f df)) c 0)
              (fun c => Z.of_nat (List.length
                          (filter (fun m => Customers.first_period f df m =? c)
                                  (unique Z.eqb (map member_ID df)))))
              (sorted_unique Z.eqb Z.leb
                 (map Cohort.cohort (Cohort.aggregate (Cohort.add_cohort f df)))))
    with (a := 0%Q) as (q & Eq & Hq).
  { intros c Hc. apply index_In in Hc.
    rewrite (cell_first f df c Hc).
    eexists. split; [reflexivity|].
    rewrite <- cohort_size_class.
    rewrite (nunique_ext (Cohort.group (Cohort.add_cohort f df) (c, c))
                         (Customers.enrolled f df c)).
    - field.
    - intros m. rewrite <- active_first. rewrite <- group_active.
      now rewrite Z.add_0_r. }
  exists q, (Calendar.to_period Calendar.FreqM lo), (Calendar.to_period Calendar.FreqM hi).
  split; [now rewrite Eq|]. split.
  - rewrite Hq. rewrite partition_length.
    + unfold Cohort.nunique. ring.
    + apply sorted_unique_NoDup_Z.
    + intros m Hm. apply first_period_indexed.
      exact (proj1 (unique_In Z.eqb Z.eqb_eq _ _) Hm).
  - intros r Hr. split; apply to_period_mono.
    + apply Hlo. now apply in_map.
    + apply Hhi. now apply in_map.
Qed.

Lemma plot_annotation_counts_members_witness :
  exists q lo hi,
    CohortPlot.annotate
      {| index := [600; 601]; columns := [0; 1; 3];
         values := [[Fin 2; Fin 1; Fin 1]; [Fin 1; NaN; NaN]] |}
      (drop_company_account Examples.cohort_members)
    = Ok {| CohortPlot.n := Fin q; CohortPlot.t_min := Some lo;
            CohortPlot.t_max := Some hi |}
    /\ (q == inject_Z (Cohort.nunique
                         (map member_ID (drop_company_account Examples.cohort_members))))%Q
    /\ forall r, In r (drop_company_account Examples.cohort_members) ->
         lo <= Calendar.to_period Calendar.FreqM (delivery_date r) <= hi.
Proof.
  exact (plot_annotation_counts_members
           (drop_company_account Examples.cohort_members) "M" Calendar.FreqM
           {| index := [600; 601]; columns := [0; 1; 3];
              values := [[Fin (2 # 2); Fin (1 # 2); Fin (1 # 2)]; [Fin 1; NaN; NaN]] |}
           {| index := [600; 601]; columns := [0; 1; 3];
              values := [[Fin 2; Fin 1; Fin 1]; [Fin 1; NaN; NaN]] |}
           eq_refl ltac:(vm_compute; reflexivity)).
Defined.

(** ** Independence of the row order *)

Section RowSet.
Import Calendar Cohort.
Variable f : Freq.
Variables df df' : list member.
Hypothesis Hset : forall r, In r df <-> In r df'.

Lemma transform_min_ext (r : member) :
  In r df -> transform_min df r = transform_min df' r.
Proof.
  intros Hr.
  assert (Hr' : In r df') by now apply Hset.
  destruct (transform_min_witness df r Hr) as (r0 & H0 & E0 & D0).
  destruct (transform_min_witness df' r Hr') as (r1 & H1 & E1 & D1).
  apply Z.le_antisymm.
  - rewrite <- D1. apply transform_min_lower; [now apply Hset|exact E1].
  - rewrite <- D0. apply transform_min_lower; [now apply Hset|exact E0].
Qed.

Lemma keys_ext :
  sorted_unique pair_eqb pair_leb (map key (add_cohort f df))
  = sorted_unique pair_eqb pair_leb (map key (add_cohort f df')).
Proof.
  apply sorted_unique_ext_pair. intros k.
  rewrite <- (sorted_unique_In_pair (map key (add_cohort f df))),
    <- (sorted_unique_In_pair (map key (add_cohort f df'))), !keys_In. split.
  - intros (r & Hr & E1 & E2). exists r.
    rewrite <- (transform_min_ext r Hr). split; [now apply Hset|auto].
  - intros (r & Hr & E1 & E2). exists r.
    assert (Hr0 : In r df) by now apply Hset.
    rewrite (transform_min_ext r Hr0). auto.
Qed.

Lemma group_ext (k : Z * Z) :
  nunique (group (add_cohort f df) k) = nunique (group (add_cohort f df') k).
Proof.
  apply nunique_ext. intros m. rewrite !group_In. split.
  - intros (r & Hr & E). exists r.
    rewrite <- (transform_min_ext r Hr). split; [now apply Hset|auto].
  - intros (r & Hr & E). exists r.
    assert (Hr0 : In r df) by now apply Hset.
    rewrite (transform_min_ext r Hr0). auto.
Qed.

Lemma aggregate_ext :
  aggregate (add_cohort f df) = aggregate (add_cohort f df').
Proof.
  unfold aggregate. rewrite keys_ext. apply map_ext. intros k.
  unfold agg_of. now rewrite group_ext.
Qed.

End RowSet.

Lemma rows_rev_app (l : list member) (r : member) :
  In r l <-> In r (List.rev l ++ l).
Proof. rewrite in_app_iff, <- in_rev. tauto. Qed.

(** X5.  The cohort analysis depends only on which rows the members
    table holds: reordering the rows or repeating a row changes neither
    the returned frames nor the exports. *)
Theorem cohort_main_row_order_irrelevant
    (df df' : list member) (freq : string) (export_plot : bool) :
  (forall r, In r df <-> In r df') ->
  Cohort.main df freq export_plot = Cohort.main df' freq export_plot.
Proof.
  intros Hset. unfold Cohort.main.
  destruct (negb (existsb (String.eqb freq) ["M"%string; "Q"%string]));
    [reflexivity|].
  cbv zeta.
  assert (E : Cohort.make_retention_matrix (drop_company_account df) freq
              = Cohort.make_retention_matrix (drop_company_account df') freq).
  { unfold Cohort.make_retention_matrix.
    destruct (Calendar.offset_alias freq) as [f|]; [|reflexivity].
    cbv zeta. rewrite (aggregate_ext f (drop_company_account df) (drop_company_account df')).
    - reflexivity.
    - intros r. rewrite !drop_company_account_In. now rewrite Hset. }
  now rewrite E.
Qed.

Lemma cohort_main_row_order_irrelevant_witness :
  Cohort.main Examples.cohort_members "M" true
  = Cohort.main (List.rev Examples.cohort_members ++ Examples.cohort_members) "M" true.
Proof.
  apply (cohort_main_row_order_irrelevant Examples.cohort_members
           (List.rev Examples.cohort_members ++ Examples.cohort_members) "M" true).
  exact (rows_rev_app Examples.cohort_members).
Defined.

(** ** The RFM table by member *)

Lemma NoDup_map_injective_on {A B : Type} (g : A -> B) (l : list A) :
  (forall x y, In x l -> In y l -> g x = g y -> x = y) ->
  NoDup l -> NoDup (map g l).
Proof.
  induction l as [|a l IH]; intros Hinj Hnd; [constructor|].
  inversion Hnd as [|? ? Ha Hl]; subst. cbn [map]. constructor.
  - intros Hin. apply in_map_iff in Hin as (y & E & Hy).
    assert (y = a) by (apply Hinj; [now right|now left|exact E]).
    subst. contradiction.
  - apply IH; [|exact Hl]. intros x y Hx Hy. apply Hinj; now right.
Qed.

Section PeriodFacts.
Import Calendar.
Variable f : Freq.

Lemma to_timestamp_reflects (o1 o2 : Z) :
  to_timestamp f o1 < to_timestamp f o2 -> o1 < o2.
Proof.
  intros H. destruct (Z_lt_le_dec o1 o2) as [|Hle]; [assumption|].
  apply (to_timestamp_mono f) in Hle. lia.
Qed.

(** A period starts in itself. *)
Lemma period_of_start (t : Z) :
  to_period f (to_timestamp f (to_period f t)) = to_period f t.
Proof.
  pose proof (period_bracket f t) as [Hs _].
  pose proof (period_bracket f (to_timestamp f (to_period f t))) as [_ Hb].
  apply to_timestamp_reflects in Hb.
  pose proof (to_period_mono f _ _ Hs). lia.
Qed.

Lemma period_start_injective (t1 t2 : Z) :
  to_timestamp f (to_period f t1) = to_timestamp f (to_period f t2) ->
  to_period f t1 = to_period f t2.
Proof.
  intros E. rewrite <- (period_of_start t1), <- (period_of_start t2).
  now rewrite E.
Qed.

End PeriodFacts.

Section TableIndex.
Import Calendar Rfm Customers.
Variable f : Freq.
Variable df : list member.

Local Notation "'rows0'" :=
  (map (fun r => {| p_delivery_date := to_timestamp f (to_period f (delivery_date r));
                    p_member_ID := member_ID r;
                    p_order_request_value := of_option (order_request_value r) |})
       df).
Local Notation "'rows'" := (sum_by_period rows0).
Local Notation "'pkeys'" :=
  (unique pair_eqb (map (fun r => (p_delivery_date r, p_member_ID r)) rows0)).

Lemma pkeys_In (k : Z * Z) :
  In k pkeys <->
  exists r, In r df /\ k = (to_timestamp f (to_period f (delivery_date r)), member_ID r).
Proof.
  rewrite (unique_In pair_eqb pair_eqb_eq), map_map. cbn [p_delivery_date p_member_ID].
  rewrite in_map_iff. split; intros (r & H1 & H2); exists r; auto.
Qed.

Lemma rows_members_ext (m : Z) :
  In m (map p_member_ID rows) <-> In m (map member_ID df).
Proof.
  rewrite !in_map_iff. split.
  - intros (p & <- & Hp). apply (rows_In f df) in Hp as [(r & Hr & _ & E) _].
    exists r. auto.
  - intros (r & <- & Hr). destruct (rows_member f df r Hr) as (p & Hp & _ & E).
    exists p. auto.
Qed.

Lemma frequency_periods (m : Z) :
  Z.of_nat (List.length (filter (fun p => p_member_ID p =? m) rows))
  = Cohort.nunique (periods f df m).
Proof.
  unfold Cohort.nunique. f_equal.
  unfold sum_by_period. rewrite filter_map_swap, length_map.
  cbn [p_member_ID].
  rewrite <- (length_map (fun k : Z * Z => to_period f (fst k))).
  apply NoDup_same_length.
  - apply NoDup_map_injective_on.
    + intros x y Hx Hy E.
      apply filter_In in Hx as [Hx Ex]. apply filter_In in Hy as [Hy Ey].
      apply Z.eqb_eq in Ex, Ey.
      apply pkeys_In in Hx as (rx & _ & ->). apply pkeys_In in Hy as (ry & _ & ->).
      cbn [fst snd] in *. rewrite !period_of_start in E.
      now rewrite E, Ex, Ey.
    + apply NoDup_filter, unique_NoDup, pair_eqb_eq.
  - apply unique_NoDup, Z.eqb_eq.
  - intros p. rewrite (unique_In Z.eqb Z.eqb_eq).
    unfold periods, deliveries. split.
    + intros Hp. apply in_map_iff in Hp as (k & <- & Hk).
      apply filter_In in Hk as [Hk Ek]. apply Z.eqb_eq in Ek.
      apply pkeys_In in Hk as (r & Hr & ->). cbn [fst snd] in *.
      rewrite period_of_start. apply in_map, in_map.
      apply filter_In. split; [exact Hr|now apply Z.eqb_eq].
    + intros Hp. apply in_map_iff in Hp as (t & <- & Ht).
      apply in_map_iff in Ht as (r & <- & Hr).
      apply filter_In in Hr as [Hr Er]. apply Z.eqb_eq in Er.
      apply in_map_iff.
      exists (to_timestamp f (to_period f (delivery_date r)), member_ID r).
      cbn [fst]. split; [apply period_of_start|].
      apply filter_In. split; [apply pkeys_In; eauto|cbn [snd]; now apply Z.eqb_eq].
Qed.

End TableIndex.

(** X6.  The RFM table has exactly one row for every member of the table
    other than member 46, in strictly ascending order of member
    number. *)
Theorem rfm_table_one_row_per_customer
    (df : list member) (freq : string) (f : Calendar.Freq) :
  Calendar.offset_alias freq = Some f ->
  exists tbl,
    Rfm.make_table df freq = Ok tbl
    /\ map Rfm.rfm_member_ID tbl
       = sorted_unique Z.eqb Z.leb (map member_ID (drop_company_account df))
    /\ StronglySorted Z.lt (map Rfm.rfm_member_ID tbl)
    /\ forall m, In m (map Rfm.rfm_member_ID tbl)
                 <-> In m (map member_ID df) /\ m <> COMPANY_ACCOUNT.
Proof.
  intros Hf. rewrite (make_table_unfold df freq f Hf).
  eexists. split; [reflexivity|].
  assert (E : map Rfm.rfm_member_ID
                (map (Rfm.aggregate_member f
                        (Rfm.max_date (map delivery_date (drop_company_account df)))
                        (Rfm.sum_by_period
                           (map (fun r =>
                                   {| Rfm.p_delivery_date :=
                                        Calendar.to_timestamp f
                                          (Calendar.to_period f (delivery_date r));
                                      Rfm.p_member_ID := member_ID r;
                                      Rfm.p_order_request_value :=
                                        Rfm.of_option (order_request_value r) |})
                                (drop_company_account df))))
                     (sorted_unique Z.eqb Z.leb
                        (map Rfm.p_member_ID
                           (Rfm.sum_by_period
                              (map (fun r =>
                                      {| Rfm.p_delivery_date :=
                                           Calendar.to_timestamp f
                                             (Calendar.to_period f (delivery_date r));
                                         Rfm.p_member_ID := member_ID r;
                                         Rfm.p_order_request_value :=
                                           Rfm.of_option (order_request_value r) |})
                                   (drop_company_account df))))))
              = sorted_unique Z.eqb Z.leb (map member_ID (drop_company_account df))).
  { rewrite map_map. cbn [Rfm.aggregate_member Rfm.rfm_member_ID]. rewrite map_id.
    apply sorted_unique_ext_Z. intros m. apply rows_members_ext. }
  rewrite E. split; [reflexivity|]. split; [apply sorted_unique_strict|].
  intros m. rewrite sorted_unique_In_Z, !in_map_iff. split.
  - intros (r & <- & Hr). apply drop_company_account_In in Hr as [Hr Hn]. eauto.
  - intros [(r & <- & Hr) Hn]. exists r. split; [reflexivity|].
    apply drop_company_account_In. auto.
Qed.

Lemma rfm_table_one_row_per_customer_witness :
  exists tbl,
    Rfm.make_table Examples.rfm_members "W" = Ok tbl
    /\ map Rfm.rfm_member_ID tbl
       = sorted_unique Z.eqb Z.leb
           (map member_ID (drop_company_account Examples.rfm_members))
    /\ StronglySorted Z.lt (map Rfm.rfm_member_ID tbl)
    /\ forall m, In m (map Rfm.rfm_member_ID tbl)
                 <-> In m (map member_ID Examples.rfm_members) /\ m <> COMPANY_ACCOUNT.
Proof.
  exact (rfm_table_one_row_per_customer Examples.rfm_members "W" Calendar.FreqW eq_refl).
Defined.

(** X7.  The frequency of a row of the RFM table is the number of
    distinct periods in which its member has a delivery. *)
Theorem frequency_counts_active_periods
    (df : list member) (freq : string) (f : Calendar.Freq) (tbl : list Rfm.rfm_row) :
  Calendar.offset_alias freq = Some f ->
  Rfm.make_table df freq = Ok tbl ->
  forall x, In x tbl ->
    Rfm.frequency x
    = Cohort.nunique
        (Customers.periods f (drop_company_account df) (Rfm.rfm_member_ID x)).
Proof.
  intros Hf H x Hx. rewrite (make_table_unfold df freq f Hf) in H.
  injection H as <-. apply in_map_iff in Hx as (m & <- & _).
  cbn [Rfm.aggregate_member Rfm.frequency Rfm.rfm_member_ID].
  apply frequency_periods.
Qed.

Lemma frequency_counts_active_periods_witness :
  Rfm.frequency
    {| Rfm.rfm_member_ID := 1; Rfm.recency := Some 0;
       Rfm.frequency := 2; Rfm.monetary_value := Fin (15 # 2) |}
  = Cohort.nunique
      (Customers.periods Calendar.FreqW
         (drop_company_account Examples.rfm_members)
         (Rfm.rfm_member_ID
            {| Rfm.rfm_member_ID := 1; Rfm.recency := Some 0;
               Rfm.frequency := 2; Rfm.monetary_value := Fin (15 # 2) |})).
Proof.
  apply (frequency_counts_active_periods Examples.rfm_members "W" Calendar.FreqW
           Examples.rfm_table eq_refl).
  - vm_compute. reflexivity.
  - vm_compute. left. reflexivity.
Defined.

(** ** Recency and the latest delivery *)

Lemma max_date_unique (l : list Z) (e e' : Z) :
  Rfm.max_date l = Some e -> In e' l -> (forall x, In x l -> x <= e') -> e = e'.
Proof.
  intros E Hin Hmax.
  assert (Hne : l <> []) by (intros ->; contradiction).
  destruct (max_date_spec l Hne) as (e0 & E0 & Hin0 & Hmax0).
  rewrite E in E0. injection E0 as <-.
  apply Z.le_antisymm; auto.
Qed.

(** X8.  A member whose latest delivery is not earlier than another
    member's never has the larger recency, and no recency is negative. *)
Theorem recency_antitone_in_last_delivery
    (df : list member) (freq : string) (f : Calendar.Freq) (tbl : list Rfm.rfm_row)
    (x y : Rfm.rfm_row) (tx ty : Z) :
  Calendar.offset_alias freq = Some f ->
  Rfm.make_table df freq = Ok tbl ->
  In x tbl -> In y tbl ->
  Rfm.max_date (Customers.deliveries (drop_company_account df) (Rfm.rfm_member_ID x))
  = Some tx ->
  Rfm.max_date (Customers.deliveries (drop_company_account df) (Rfm.rfm_member_ID y))
  = Some ty ->
  tx <= ty ->
  exists rx ry,
    Rfm.recency x = Some rx /\ Rfm.recency y = Some ry /\ 0 <= ry <= rx.
Proof.
  intros Hf H Hx Hy Ex Ey Hle.
  destruct (make_table_rows df freq f Hf) as (tbl0 & E0 & Hrows).
  rewrite H in E0. injection E0 as <-.
  assert (Hlast : forall z t,
            In z tbl ->
            Rfm.max_date (Customers.deliveries (drop_company_account df)
                                               (Rfm.rfm_member_ID z)) = Some t ->
            exists e, Rfm.max_date (map delivery_date (drop_company_account df)) = Some e
                      /\ t <= e
                      /\ Rfm.recency z
                         = Some ((e - Calendar.to_timestamp f (Calendar.to_period f t))
                                 / Rfm.freq_timedeltas f)).
  { intros z t Hz Et.
    destruct (Hrows z Hz) as (e & last & q & Ee & Hl & Em & Hmax & Er & _).
    assert (t = delivery_date last) as ->.
    { apply (max_date_unique _ _ _ Et).
      - unfold Customers.deliveries. apply in_map. apply filter_In.
        split; [exact Hl|now apply Z.eqb_eq].
      - intros d Hd. unfold Customers.deliveries in Hd.
        apply in_map_iff in Hd as (r & <- & Hr). apply filter_In in Hr as [Hr Er'].
        apply Z.eqb_eq in Er'. now apply Hmax. }
    exists e. split; [exact Ee|]. split; [|exact Er].
    assert (Hne : map delivery_date (drop_company_account df) <> []).
    { intros Hnil. rewrite Hnil in Ee. discriminate. }
    destruct (max_date_spec _ Hne) as (e' & Ee' & _ & Hub).
    rewrite Ee in Ee'. injection Ee' as <-. apply Hub. now apply in_map. }
  destruct (Hlast x tx Hx Ex) as (e & Ee & Hxe & Rx).
  destruct (Hlast y ty Hy Ey) as (e' & Ee' & Hye & Ry).
  rewrite Ee in Ee'. injection Ee' as <-.
  do 2 eexists. split; [exact Rx|]. split; [exact Ry|].
  pose proof (freq_timedeltas_pos f) as Hpos.
  pose proof (period_start_mono f tx ty Hle) as Hs.
  pose proof (period_start_le f ty) as Hsy.
  split.
  - apply Z.div_pos; lia.
  - apply Z.div_le_mono; lia.
Qed.

Lemma recency_antitone_in_last_delivery_witness :
  exists rx ry,
    Rfm.recency {| Rfm.rfm_member_ID := 2; Rfm.recency := Some 1;
                   Rfm.frequency := 1; Rfm.monetary_value := Fin 20 |} = Some rx
    /\ Rfm.recency {| Rfm.rfm_member_ID := 1; Rfm.recency := Some 0;
                      Rfm.frequency := 2; Rfm.monetary_value := Fin (15 # 2) |} = Some ry
    /\ 0 <= ry <= rx.
Proof.
  apply (recency_antitone_in_last_delivery Examples.rfm_members "W" Calendar.FreqW
           Examples.rfm_table _ _ (Examples.ts 2020 1 7) (Examples.ts 2020 1 15)).
  - reflexivity.
  - vm_compute. reflexivity.
  - vm_compute. right. left. reflexivity.
  - vm_compute. left. reflexivity.
  - vm_compute. reflexivity.
  - vm_compute. reflexivity.
  - vm_compute. discriminate.
Defined.

(** ** Coinciding quartile edges *)

Lemma unique_incl {A : Type} (eqb : A -> A -> bool) (l : list A) (y : A) :
  In y (unique eqb l) -> In y l.
Proof.
  induction l as [|x l IH]; cbn [unique]; [auto|].
  intros [->|H]; [now left|]. apply filter_In in H as [H _]. right. auto.
Qed.

Lemma filter_none {A : Type} (p : A -> bool) (l : list A) :
  (forall y, In y l -> p y = false) -> filter p l = [].
Proof.
  induction l as [|y l IH]; intros H; [reflexivity|].
  cbn [filter]. rewrite (H y (or_introl eq_refl)). apply IH.
  intros z Hz. apply H. now right.
Qed.

Lemma unique_all_same {A : Type} (eqb : A -> A -> bool) (x : A) (l : list A) :
  (forall y, In y l -> eqb x y = true) -> unique eqb (x :: l) = [x].
Proof.
  intros H. cbn [unique]. f_equal. apply filter_none.
  intros y Hy. apply unique_incl in Hy. now rewrite (H y Hy).
Qed.

Lemma nth_all_equal {A : Type} (a d : A) (l : list A) (i : nat) :
  (forall v, In v l -> v = a) -> (i < List.length l)%nat -> nth i l d = a.
Proof. intros H Hi. apply H. now apply nth_In. Qed.

Section ConstantColumn.
Import Rfm.
Variable c : Q.
Variable x : list fnum.
Hypothesis Hne : x <> [].
Hypothesis Hc : forall v, In v x -> v = Fin c.

Lemma quantile_constant (at_ : Q) :
  (0 <= at_)%Q -> (at_ <= 1)%Q ->
  exists q, quantile x at_ = Fin q /\ (q == c)%Q.
Proof.
  intros H0 H1. unfold quantile.
  assert (Hf : filter (fun v => negb (Float.isna v)) x = x).
  { clear Hne. induction x as [|v l IH]; [reflexivity|].
    cbn [filter]. rewrite (Hc v (or_introl eq_refl)). cbn [Float.isna negb].
    f_equal. apply IH. intros w Hw. apply Hc. now right. }
  rewrite Hf.
  assert (Hv : forall v, In v (sort Float.leb x) -> v = Fin c).
  { intros v Hv. apply Hc. now apply (sort_In Float.leb x v). }
  assert (Hl : (1 <= List.length (sort Float.leb x))%nat).
  { rewrite sort_length. destruct x; [congruence|cbn; lia]. }
  destruct (sort Float.leb x) as [|h s] eqn:E; [cbn in Hl; lia|].
  rewrite <- E in *. cbv zeta.
  set (n1 := (List.length (sort Float.leb x) - 1)%nat).
  set (idx := (at_ * inject_Z (Z.of_nat n1))%Q).
  assert (Hn1 : (0 <= inject_Z (Z.of_nat n1))%Q).
  { change 0%Q with (inject_Z 0). rewrite <- Zle_Qle. lia. }
  assert (Hi0 : (0 <= idx)%Q) by (unfold idx; now apply Qmult_le_0_compat).
  assert (Hi1 : (idx <= inject_Z (Z.of_nat n1))%Q).
  { unfold idx. rewrite <- (Qmult_1_l (inject_Z (Z.of_nat n1))) at 2.
    now apply Qmult_le_compat_r. }
  assert (Hlo0 : 0 <= Qfloor idx).
  { change 0 with (Qfloor 0). now apply Qfloor_resp_le. }
  assert (Hlo1 : Qfloor idx <= Z.of_nat n1).
  { rewrite <- (Qfloor_Z (Z.of_nat n1)). now apply Qfloor_resp_le. }
  assert (Ha : nth (Z.to_nat (Qfloor idx)) (sort Float.leb x) NaN = Fin c).
  { apply nth_all_equal; [exact Hv|]. unfold n1 in Hlo1. lia. }
  rewrite Ha.
  destruct (Qeq_bool (idx - inject_Z (Qfloor idx)) 0) eqn:Ef.
  - exists c. split; [reflexivity|apply Qeq_refl].
  - assert (Hlt : Qfloor idx < Z.of_nat n1).
    { destruct (Z.eq_dec (Qfloor idx) (Z.of_nat n1)) as [Eq|]; [exfalso|lia].
      apply Qeq_bool_neq in Ef. apply Ef.
      pose proof (Qfloor_le idx) as Hfl. rewrite Eq in *.
      assert (idx == inject_Z (Z.of_nat n1))%Q by now apply Qle_antisym.
      rewrite H. ring. }
    assert (Hb : nth (Z.to_nat (Qfloor idx) + 1) (sort Float.leb x) NaN = Fin c).
    { apply nth_all_equal; [exact Hv|]. unfold n1 in Hlt. lia. }
    rewrite Hb. cbn [Float.sub Float.neg Float.add Float.mul].
    eexists. split; [reflexivity|]. ring.
Qed.

Lemma qcut_constant : qcut x = Raise ValueError.
Proof.
  unfold qcut, quartiles. cbn [map].
  destruct (quantile_constant 0) as (q0 & -> & E0); [discriminate..|].
  destruct (quantile_constant (1 # 4)) as (q1 & -> & E1); [discriminate..|].
  destruct (quantile_constant (1 # 2)) as (q2 & -> & E2); [discriminate..|].
  destruct (quantile_constant (3 # 4)) as (q3 & -> & E3); [discriminate..|].
  destruct (quantile_constant 1) as (q4 & -> & E4); [discriminate..|].
  unfold bins_to_cuts. rewrite unique_all_same; [reflexivity|].
  intros y Hy. cbn [Float.same Float.eqb].
  assert (exists q, y = Fin q /\ (q == c)%Q) as (q & -> & Eq).
  { cbn [In] in Hy. intuition (subst; eauto). }
  apply Qeq_bool_iff. now rewrite E0, Eq.
Qed.

End ConstantColumn.

(** X9.  When every member of the RFM table has the same frequency, in
    particular when the table has a single member, the quartile edges
    coincide and the analysis raises [ValueError]; nothing is printed or
    exported. *)
Theorem equal_frequencies_raise
    (df : list member) (freq : string) (export_csv export_plot : bool)
    (tbl : list Rfm.rfm_row) (k : Z) :
  freq = "W"%string \/ freq = "M"%string ->
  Rfm.make_table df freq = Ok tbl ->
  tbl <> [] ->
  (forall x, In x tbl -> Rfm.frequency x = k) ->
  Rfm.main df freq export_csv export_plot = ([], Raise ValueError).
Proof.
  intros Hfreq Ht Hne Hk.
  assert (Hf : exists f, (f = Calendar.FreqW \/ f = Calendar.FreqM)
                         /\ Calendar.offset_alias freq = Some f
                         /\ negb (existsb (String.eqb freq) ["W"%string; "M"%string])
                            = false).
  { destruct Hfreq as [->| ->];
      [exists Calendar.FreqW|exists Calendar.FreqM]; auto. }
  destruct Hf as (f & Hf & Ha & Hv).
  unfold Rfm.main. rewrite Hv, Ht. cbn [bind].
  unfold Rfm.add_score. rewrite Ha.
  rewrite <- (map_map Rfm.recency Rfm.recency_value), (cut_recency f _ Hf).
  cbn [bind].
  rewrite (qcut_constant (inject_Z k)); [reflexivity| |].
  - destruct tbl; [congruence|discriminate].
  - intros v Hv'. apply in_map_iff in Hv' as (x & <- & Hx).
    now rewrite (Hk x Hx).
Qed.

Lemma equal_frequencies_raise_witness :
  Rfm.main
    [{| member_ID := 1; delivery_date := Examples.ts 2020 1 6;
        order_request_value := Some 10%Q |}] "W" true true
  = ([], Raise ValueError).
Proof.
  apply (equal_frequencies_raise _ "W" true true
           [{| Rfm.rfm_member_ID := 1; Rfm.recency := Some 0;
               Rfm.frequency := 1; Rfm.monetary_value := Fin 10 |}] 1).
  - left. reflexivity.
  - vm_compute. reflexivity.
  - discriminate.
  - intros x [<-|[]]. reflexivity.
Defined.

(** ** Order of the scores *)

Lemma filter_length_le {A : Type} (p p' : A -> bool) (l : list A) :
  (forall b, p b = true -> p' b = true) ->
  (List.length (filter p l) <= List.length (filter p' l))%nat.
Proof.
  intros H. induction l as [|b l IH]; [reflexivity|].
  cbn [filter]. destruct (p b) eqn:E.
  - rewrite (H b E). cbn [List.length]. lia.
  - destruct (p' b); cbn [List.length]; lia.
Qed.

Lemma ltb_le_trans (b : fnum) (q1 q2 : Q) :
  (q1 <= q2)%Q -> Float.ltb b (Fin q1) = true -> Float.ltb b (Fin q2) = true.
Proof.
  intros Hle. destruct b as [a| | |]; cbn; auto.
  unfold Float.Qlt_bool. rewrite !negb_true_iff.
  intros H. destruct (Qle_bool q2 a) eqn:E; [|reflexivity].
  apply Qle_bool_iff in E.
  assert (Hc : Qle_bool q1 a = true)
    by (apply Qle_bool_iff; eapply Qle_trans; eassumption).
  congruence.
Qed.

Lemma searchsorted_left_mono (bins : list fnum) (q1 q2 : Q) :
  (q1 <= q2)%Q ->
  (Rfm.searchsorted_left bins (Fin q1) <= Rfm.searchsorted_left bins (Fin q2))%nat.
Proof.
  intros H. unfold Rfm.searchsorted_left. cbn [Float.isna].
  apply filter_length_le. intros b. now apply ltb_le_trans.
Qed.

Lemma bins_to_cuts_label (x bins : list fnum) (labels : list Z) (b : bool)
    (ids : list (option Z)) :
  Rfm.bins_to_cuts x bins labels b = Ok ids ->
  ids = map (Binning.label bins labels b) x.
Proof.
  unfold Rfm.bins_to_cuts.
  destruct (_ && _); [discriminate|]. destruct (negb _); [discriminate|].
  intros H. injection H as <-. reflexivity.
Qed.

Lemma qcut_label (x : list fnum) (ids : list (option Z)) (bins : list fnum) :
  Rfm.qcut x = Ok (ids, bins) ->
  bins = map (Rfm.quantile x) Rfm.quartiles
  /\ ids = map (Binning.label bins [1; 2; 3; 4] true) x.
Proof.
  unfold Rfm.qcut. cbv zeta.
  destruct (Rfm.bins_to_cuts _ _ _ _) as [i|] eqn:E; [|discriminate].
  cbn [bind]. intros H. injection H as <- <-.
  split; [reflexivity|]. now apply bins_to_cuts_label.
Qed.

Lemma label_mono (b0 q1 q2 : Q) (b1 b2 b3 b4 : fnum) (l1 l2 : Z) :
  (b0 <= q1)%Q -> (q1 <= q2)%Q ->
  Binning.label [Fin b0; b1; b2; b3; b4] [1; 2; 3; 4] true (Fin q1) = Some l1 ->
  Binning.label [Fin b0; b1; b2; b3; b4] [1; 2; 3; 4] true (Fin q2) = Some l2 ->
  l1 <= l2.
Proof.
  intros H0 H12. unfold Binning.label. cbv zeta.
  cbn [andb hd Float.isna orb List.length].
  pose proof (searchsorted_left_mono [Fin b0; b1; b2; b3; b4] q1 q2 H12) as Hm.
  set (i1 := Rfm.searchsorted_left _ (Fin q1)) in *.
  set (i2 := Rfm.searchsorted_left _ (Fin q2)) in *.
  clearbody i1 i2.
  destruct (Float.eqb (Fin q1) (Fin b0)) eqn:E1;
    destruct (Float.eqb (Fin q2) (Fin b0)) eqn:E2.
  - cbn. intros A B. inversion A. inversion B. lia.
  - cbn [Nat.eqb nth_error Nat.sub]. intros A. inversion A.
    destruct i2 as [|[|[|[|[|[|i2]]]]]]; cbn; intros B;
      try discriminate; inversion B; lia.
  - exfalso. cbn in E1, E2. apply Qeq_bool_iff in E2.
    assert (Hq : (q1 == b0)%Q).
    { apply Qle_antisym; [|exact H0]. now rewrite <- E2. }
    apply Qeq_bool_iff in Hq. congruence.
  - destruct i1 as [|[|[|[|[|[|i1]]]]]]; cbn; intros A; try discriminate;
      inversion A;
      destruct i2 as [|[|[|[|[|[|i2]]]]]]; cbn; intros B; try discriminate;
      inversion B; lia.
Qed.

Lemma qcut_monotone (qs : list Q) (ids : list (option Z)) (bins : list fnum) :
  Rfm.qcut (map Fin qs) = Ok (ids, bins) ->
  ids = map (fun q => Binning.label bins [1; 2; 3; 4] true (Fin q)) qs
  /\ forall q1 q2, In q1 qs -> In q2 qs -> (q1 <= q2)%Q ->
       exists l1 l2,
         Binning.label bins [1; 2; 3; 4] true (Fin q1) = Some l1
         /\ Binning.label bins [1; 2; 3; 4] true (Fin q2) = Some l2
         /\ l1 <= l2.
Proof.
  intros H. pose proof (qcut_labels qs ids bins H) as [Hs _].
  apply qcut_label in H as [Eb Ei]. rewrite map_map in Ei.
  split; [exact Ei|]. intros q1 q2 H1 H2 Hle.
  assert (Hl : forall q, In q qs ->
                 exists l, Binning.label bins [1; 2; 3; 4] true (Fin q) = Some l).
  { intros q Hq. rewrite Forall_forall in Hs.
    destruct (Hs (Binning.label bins [1; 2; 3; 4] true (Fin q))) as (l & E & _).
    - rewrite Ei. now apply (in_map (fun q => Binning.label bins [1; 2; 3; 4] true (Fin q))).
    - eauto. }
  destruct (Hl q1 H1) as (l1 & E1). destruct (Hl q2 H2) as (l2 & E2).
  exists l1, l2. split; [exact E1|]. split; [exact E2|].
  assert (Hne : qs <> []) by (intros ->; contradiction).
  destruct (quantile_0 qs Hne) as (lo & Elo & Hlo).
  unfold Rfm.quartiles in Eb. cbn [map] in Eb. rewrite Elo in Eb.
  rewrite Eb in E1, E2.
  exact (label_mono lo q1 q2 _ _ _ _ l1 l2 (Hlo q1 H1) Hle E1 E2).
Qed.

Lemma zip_scores_map (hr hf hm : Rfm.rfm_row -> option Z) (tbl : list Rfm.rfm_row) :
  forall s, In s (Rfm.zip_scores tbl (map hr tbl) (map hf tbl) (map hm tbl)) ->
    In (Rfm.row s) tbl
    /\ Rfm.r_score s = hr (Rfm.row s)
    /\ Rfm.f_score s = hf (Rfm.row s)
    /\ Rfm.m_score s = hm (Rfm.row s).
Proof.
  induction tbl as [|x tbl IH]; intros s; cbn [map Rfm.zip_scores]; [intros []|].
  intros [<-|H]; cbn; [auto|].
  destruct (IH s H) as (H1 & H2). auto.
Qed.

Lemma spec_r_score_antitone (f : Calendar.Freq) (k1 k2 : Z) :
  0 <= k1 <= k2 ->
  exists a b, Rfm.spec_r_score f (Some k1) = Some a
              /\ Rfm.spec_r_score f (Some k2) = Some b /\ b <= a.
Proof.
  intros H. unfold Rfm.spec_r_score. cbv zeta.
  destruct (k1 <? 0) eqn:A1; [lia|]. destruct (k2 <? 0) eqn:A2; [lia|].
  destruct f; cbn [Rfm.freqs];
    repeat match goal with
           | |- context [?a <=? ?b] => destruct (Z.leb_spec a b)
           end; do 2 eexists; (split; [reflexivity|split; [reflexivity|lia]]).
Qed.

(** X10.  The scores follow the order of the values they grade: among the
    rows the RFM analysis returns, a larger frequency never gets a
    smaller F score, a larger monetary value never gets a smaller M
    score, and a larger recency never gets a larger R score. *)
Theorem scores_follow_value_order
    (df : list member) (freq : string) (export_csv export_plot : bool)
    (ev : list event) (scored : list Rfm.scored_row) (x y : Rfm.scored_row) :
  Rfm.main df freq export_csv export_plot = (ev, Ok (Some scored)) ->
  In x scored -> In y scored ->
  (Rfm.frequency (Rfm.row x) <= Rfm.frequency (Rfm.row y) ->
   exists a b, Rfm.f_score x = Some a /\ Rfm.f_score y = Some b /\ a <= b)
  /\ (forall qx qy,
        Rfm.monetary_value (Rfm.row x) = Fin qx ->
        Rfm.monetary_value (Rfm.row y) = Fin qy -> (qx <= qy)%Q ->
        exists a b, Rfm.m_score x = Some a /\ Rfm.m_score y = Some b /\ a <= b)
  /\ (forall rx ry,
        Rfm.recency (Rfm.row x) = Some rx ->
        Rfm.recency (Rfm.row y) = Some ry -> rx <= ry ->
        exists a b, Rfm.r_score x = Some a /\ Rfm.r_score y = Some b /\ b <= a).
Proof.
  intros H Hx Hy.
  destruct (rfm_main_valid df freq _ _ ev scored H)
    as (f & t0 & info & Hf & Ha & Ht & Hs).
  destruct (make_table_well_formed df freq f Ha) as (t0' & Ht' & Hwf).
  rewrite Ht in Ht'. inversion Ht'; subst t0'. clear Ht'.
  destruct (add_score_unfold t0 freq f scored info Hf Ha Hs)
    as (fs & ms & fb & mb & Ef & Em & -> & _).
  rewrite <- (map_map Rfm.frequency (fun z => Fin (inject_Z z))) in Ef.
  rewrite <- (map_map _ Fin) in Ef.
  apply qcut_monotone in Ef as [-> Hfm].
  assert (Hm : exists qs, map Rfm.monetary_value t0 = map Fin qs
                          /\ forall r q, In r t0 -> Rfm.monetary_value r = Fin q ->
                                         In q qs).
  { clear -Hwf. induction Hwf as [|r l [_ (q & Hq)] _ (qs & IH & IHin)].
    - exists []. split; [reflexivity|]. intros r q [].
    - exists (q :: qs). cbn [map]. rewrite Hq, IH. split; [reflexivity|].
      intros r' q' [<-|Hr'] E.
      + left. congruence.
      + right. eauto. }
  destruct Hm as (qs & Hm & Hqs).
  assert (Hms : forall ids bins,
              Rfm.qcut (map Fin qs) = Ok (ids, bins) ->
              ids = map (fun r => Binning.label bins [1; 2; 3; 4] true
                                    (Rfm.monetary_value r)) t0).
  { intros ids bins Hq. apply qcut_label in Hq as [_ ->].
    rewrite <- Hm. now rewrite map_map. }
  rewrite Hm in Em. pose proof (Hms _ _ Em) as Ems.
  apply qcut_monotone in Em as [_ Hmm]. subst ms.
  rewrite !map_map in Hx, Hy.
  apply zip_scores_map in Hx as (Rx & Xr & Xf & Xm).
  apply zip_scores_map in Hy as (Ry & Yr & Yf & Ym).
  rewrite Xr, Xf, Xm, Yr, Yf, Ym.
  split; [|split].
  - intros Hle.
    apply (Hfm (inject_Z (Rfm.frequency (Rfm.row x)))
               (inject_Z (Rfm.frequency (Rfm.row y)))).
    + apply in_map, in_map, Rx.
    + apply in_map, in_map, Ry.
    + now rewrite <- Zle_Qle.
  - intros qx qy Ex Ey Hle. rewrite Ex, Ey.
    apply Hmm; eauto.
  - intros rx ry Ex Ey Hle. rewrite Ex, Ey.
    apply spec_r_score_antitone. split; [|exact Hle].
    rewrite Forall_forall in Hwf.
    destruct (Hwf _ Rx) as [[_ (k & Ek & Hk)] _]. congruence.
Qed.

Lemma scores_follow_value_order_witness :
  exists a b,
    Rfm.f_score
      {| Rfm.row := {| Rfm.rfm_member_ID := 2; Rfm.recency := Some 1;
                       Rfm.frequency := 1; Rfm.monetary_value := Fin 20 |};
         Rfm.r_score := Some 4; Rfm.f_score := Some 1; Rfm.m_score := Some 4;
         Rfm.rfm_score := "414" |} = Some a
    /\ Rfm.f_score
         {| Rfm.row := {| Rfm.rfm_member_ID := 1; Rfm.recency := Some 0;
                          Rfm.frequency := 2; Rfm.monetary_value := Fin (15 # 2) |};
            Rfm.r_score := Some 4; Rfm.f_score := Some 4; Rfm.m_score := Some 1;
            Rfm.rfm_score := "441" |} = Some b
    /\ a <= b.
Proof.
  refine (proj1 (scores_follow_value_order Examples.rfm_members "W" false false
                   [] Examples.rfm_scored _ _ _ _ _) _).
  - vm_compute. reflexivity.
  - vm_compute. right. left. reflexivity.
  - vm_compute. left. reflexivity.
  - vm_compute. discriminate.
Defined.

(** ** The products table *)

Lemma Forall2_map_eq {A B C : Type} (g : A -> C) (h : B -> C)
    (l : list A) (out : list B) :
  Forall2 (fun a b => g a = h b) l out -> map g l = map h out.
Proof. induction 1; cbn [map]; congruence. Qed.

Lemma mapM_raise {A B : Type} (f : A -> result B) (e0 : exn) (l : list A) :
  (forall a e, f a = Raise e -> e = e0) ->
  (exists a e, In a l /\ f a = Raise e) ->
  mapM f l = Raise e0.
Proof.
  intros Honly. induction l as [|a l IH]; intros (x & e & Hx & Ex); [contradiction|].
  cbn [mapM]. destruct (f a) as [b|e'] eqn:Ea.
  - cbn [bind]. destruct Hx as [->|Hx]; [congruence|].
    rewrite IH; [reflexivity|eauto].
  - cbn [bind]. now rewrite (Honly a e' Ea).
Qed.

Lemma astype_float_raises_ValueError (v : obj) (e : exn) :
  Obj.astype_float v = Raise e -> e = ValueError.
Proof.
  destruct v as [s|x]; cbn [Obj.astype_float]; [|discriminate].
  destruct (Str.float_of_string s); [discriminate|]. congruence.
Qed.

Lemma astype_row_raises_ValueError (p : Dataframes.product_fields) (e : exn) :
  Dataframes.astype_row p = Raise e -> e = ValueError.
Proof.
  unfold Dataframes.astype_row.
  repeat match goal with
         | |- context [Obj.astype_float ?v] =>
             let E := fresh "E" in
             destruct (Obj.astype_float v) eqn:E; cbn [bind];
             [|intros H; injection H as <-;
               eapply astype_float_raises_ValueError; eassumption]
         end.
  discriminate.
Qed.

Lemma astype_row_fails (p : Dataframes.product_fields)
    (col : Dataframes.product_fields -> obj) :
  In col [Dataframes.tax_rate; Dataframes.net_price; Dataframes.bundle_size;
          Dataframes.amount_ordered; Dataframes.bundles_ordered] ->
  (exists e, Obj.astype_float (col p) = Raise e) ->
  exists e, Dataframes.astype_row p = Raise e.
Proof.
  intros Hc (e & He). unfold Dataframes.astype_row.
  cbn [In] in Hc.
  destruct (Obj.astype_float (Dataframes.tax_rate p)) eqn:E1; cbn [bind]; [|eauto].
  destruct (Obj.astype_float (Dataframes.net_price p)) eqn:E2; cbn [bind]; [|eauto].
  destruct (Obj.astype_float (Dataframes.bundle_size p)) eqn:E3; cbn [bind]; [|eauto].
  destruct (Obj.astype_float (Dataframes.amount_ordered p)) eqn:E4; cbn [bind]; [|eauto].
  destruct (Obj.astype_float (Dataframes.bundles_ordered p)) eqn:E5; cbn [bind]; [|eauto].
  exfalso. intuition (subst; congruence).
Qed.

Lemma map_float_cols_at (g : obj -> obj) (p : Dataframes.product_fields)
    (col : Dataframes.product_fields -> obj) :
  In col [Dataframes.tax_rate; Dataframes.net_price; Dataframes.bundle_size;
          Dataframes.amount_ordered; Dataframes.bundles_ordered] ->
  col (Dataframes.map_float_cols g p) = g (col p).
Proof. cbn [In]. intuition (subst; reflexivity). Qed.

Lemma lstrip_blank (s : string) : Str.is_blank s = true -> Str.lstrip s = EmptyString.
Proof.
  induction s as [|c s IH]; [reflexivity|]. cbn [Str.is_blank Str.lstrip].
  intros H. apply andb_prop in H as [-> Hs]. auto.
Qed.

Lemma float_of_blank (s : string) :
  Str.is_blank s = true -> Str.float_of_string s = None.
Proof.
  intros H. unfold Str.float_of_string. rewrite (lstrip_blank s H). reflexivity.
Qed.

Lemma replace_comma_idem (s : string) :
  Str.replace_comma (Str.replace_comma s) = Str.replace_comma s.
Proof.
  induction s as [|c s IH]; [reflexivity|]. cbn [Str.replace_comma].
  rewrite IH. f_equal.
  destruct (Ascii.eqb c ","%char) eqn:E; [reflexivity|now rewrite E].
Qed.

Lemma obj_replace_comma_idem (v : obj) :
  Obj.replace_comma (Obj.replace_comma v) = Obj.replace_comma v.
Proof. destruct v; cbn [Obj.replace_comma]; [now rewrite replace_comma_idem|reflexivity]. Qed.

Section Products.
Import Dataframes.

Local Notation "'explode'" :=
  (flat_map (fun o => map (fun kv => {| p_order_ID := order_ID o;
                                        p_product_ID := fst kv;
                                        fields := snd kv |})
                          (products o))).
Local Notation "'cast'" :=
  (fun r => f <- astype_row
                   (map_float_cols Obj.replace_empty
                      (map_float_cols Obj.replace_comma (fields r))) ;;
            Ok {| p_order_ID := p_order_ID r;
                  p_product_ID := p_product_ID r;
                  fields := f |}).

Lemma make_df_products_unfold (df_orders : list order) :
  make_df_products df_orders = mapM cast (explode df_orders).
Proof.
  unfold make_df_products. cbv zeta. rewrite !mapM_map_fuse. reflexivity.
Qed.

Lemma explode_keys (df_orders : list order) :
  map (fun r => (p_order_ID r, p_product_ID r)) (explode df_orders)
  = flat_map (fun o => map (fun kv => (order_ID o, fst kv)) (products o)) df_orders.
Proof.
  induction df_orders as [|o l IH]; [reflexivity|].
  cbn [flat_map]. rewrite map_app, IH, map_map. reflexivity.
Qed.

Lemma explode_In (df_orders : list order) (r : product) :
  In r (explode df_orders) <->
  exists o kv, In o df_orders /\ In kv (products o)
               /\ r = {| p_order_ID := order_ID o; p_product_ID := fst kv;
                         fields := snd kv |}.
Proof.
  rewrite in_flat_map. split.
  - intros (o & Ho & Hr). apply in_map_iff in Hr as (kv & <- & Hkv). eauto.
  - intros (o & kv & Ho & Hkv & ->). exists o. split; [exact Ho|].
    apply in_map_iff. eauto.
Qed.

Lemma explode_comma (df_orders : list order) :
  map (fun r => {| p_order_ID := p_order_ID r; p_product_ID := p_product_ID r;
                   fields := map_float_cols Obj.replace_comma (fields r) |})
      (explode
         (map (fun o =>
                 {| order_ID := order_ID o;
                    products :=
                      map (fun kv => (fst kv, map_float_cols Obj.replace_comma (snd kv)))
                          (products o) |})
              df_orders))
  = map (fun r => {| p_order_ID := p_order_ID r; p_product_ID := p_product_ID r;
                     fields := map_float_cols Obj.replace_comma (fields r) |})
        (explode df_orders).
Proof.
  induction df_orders as [|o l IH]; [reflexivity|].
  cbn [map flat_map]. rewrite !map_app, IH. f_equal.
  cbn [order_ID products]. rewrite !map_map. apply map_ext. intros kv.
  cbn [p_order_ID p_product_ID fields fst snd]. f_equal.
  unfold map_float_cols.
  cbn [tax_rate net_price bundle_size supplier_code amount_ordered bundles_ordered].
  now rewrite !obj_replace_comma_idem.
Qed.

End Products.

(** X12.  When the products table is built from orders that hold at
    least one product, it has one row per entry of the orders' product
    mappings, labelled by order and product id, in the order of the
    orders and of the entries. *)
Theorem products_table_keys
    (df_orders : list Dataframes.order) (out : list Dataframes.product) :
  flat_map Dataframes.products df_orders <> [] ->
  Dataframes.make_df_products df_orders = Ok out ->
  map (fun r => (Dataframes.p_order_ID r, Dataframes.p_product_ID r)) out
  = flat_map (fun o => map (fun kv => (Dataframes.order_ID o, fst kv))
                           (Dataframes.products o))
             df_orders.
Proof.
  intros _ H. rewrite make_df_products_unfold in H.
  apply mapM_Ok in H. rewrite <- explode_keys. symmetry.
  apply Forall2_map_eq. eapply Forall2_impl; [|exact H].
  intros a b. cbv beta.
  destruct (Dataframes.astype_row _); [|discriminate].
  cbn [bind]. intros E. injection E as <-. reflexivity.
Qed.

Lemma products_table_keys_witness :
  map (fun r => (Dataframes.p_order_ID r, Dataframes.p_product_ID r))
      [ {| Dataframes.p_order_ID := 1;
           Dataframes.p_product_ID := "p1";
           Dataframes.fields :=
             {| Dataframes.tax_rate := OFloat (Fin 7);
                Dataframes.net_price := OFloat (Fin (6 # 5));
                Dataframes.bundle_size := OFloat NaN;
                Dataframes.supplier_code := OStr "12.5";
                Dataframes.amount_ordered := OFloat (Fin 3);
                Dataframes.bundles_ordered := OFloat (Fin (1 # 2)) |} |} ]
  = flat_map (fun o => map (fun kv => (Dataframes.order_ID o, fst kv))
                           (Dataframes.products o))
             Examples.raw_orders.
Proof.
  apply (products_table_keys Examples.raw_orders).
  - vm_compute. discriminate.
  - vm_compute. reflexivity.
Defined.

(** X13.  A cell of one of the five cast columns that holds only
    whitespace, and at least one character of it, makes the build of the
    products table raise [ValueError]: only the empty string is turned
    into a missing value. *)
Theorem whitespace_cell_fails
    (df_orders : list Dataframes.order) (o : Dataframes.order)
    (k : string) (p : Dataframes.product_fields)
    (col : Dataframes.product_fields -> obj) (s : string) :
  In o df_orders -> In (k, p) (Dataframes.products o) ->
  In col [Dataframes.tax_rate; Dataframes.net_price; Dataframes.bundle_size;
          Dataframes.amount_ordered; Dataframes.bundles_ordered] ->
  col p = OStr s -> Str.is_blank s = true -> s <> EmptyString ->
  Dataframes.make_df_products df_orders = Raise ValueError.
Proof.
  intros Ho Hp Hc Es Hb Hne. rewrite make_df_products_unfold.
  apply mapM_raise.
  - intros a e. cbv beta.
    destruct (Dataframes.astype_row _) as [q|e'] eqn:E; [discriminate|].
    cbn [bind]. intros H. injection H as <-.
    exact (astype_row_raises_ValueError _ _ E).
  - destruct (astype_row_fails
                (Dataframes.map_float_cols Obj.replace_empty
                   (Dataframes.map_float_cols Obj.replace_comma p)) col Hc)
      as (e & He).
    { rewrite !(map_float_cols_at _ _ col Hc), Es. cbn [Obj.replace_comma].
      rewrite (replace_comma_blank s Hb).
      destruct s as [|c s']; [congruence|]. cbn [Obj.replace_empty Obj.astype_float].
      rewrite (float_of_blank _ Hb). eauto. }
    exists {| Dataframes.p_order_ID := Dataframes.order_ID o;
              Dataframes.p_product_ID := k; Dataframes.fields := p |}, e.
    split.
    + apply explode_In. exists o, (k, p). auto.
    + cbn [Dataframes.fields]. now rewrite He.
Qed.

Lemma whitespace_cell_fails_witness :
  Dataframes.make_df_products
    [ {| Dataframes.order_ID := 1;
         Dataframes.products :=
           [ ("p1"%string,
              {| Dataframes.tax_rate := OStr "7";
                 Dataframes.net_price := OStr "1,20";
                 Dataframes.bundle_size := OStr " ";
                 Dataframes.supplier_code := OStr "";
                 Dataframes.amount_ordered := OStr "3";
                 Dataframes.bundles_ordered := OStr "" |}) ] |} ]
  = Raise ValueError.
Proof.
  eapply (whitespace_cell_fails _ _ "p1" _ Dataframes.bundle_size " ").
  - left. reflexivity.
  - left. reflexivity.
  - cbn [In]. auto.
  - reflexivity.
  - reflexivity.
  - discriminate.
Defined.

(** X14.  Decimal commas and decimal points are interchangeable: writing
    every comma of the six string-processed columns as a point before
    the products table is built changes nothing in the outcome. *)
Theorem decimal_comma_is_decimal_point (df_orders : list Dataframes.order) :
  Dataframes.make_df_products
    (map (fun o =>
            {| Dataframes.order_ID := Dataframes.order_ID o;
               Dataframes.products :=
                 map (fun kv => (fst kv,
                                 Dataframes.map_float_cols Obj.replace_comma (snd kv)))
                     (Dataframes.products o) |})
         df_orders)
  = Dataframes.make_df_products df_orders.
Proof.
  unfold Dataframes.make_df_products. cbv zeta.
  now rewrite explode_comma.
Qed.

(** ** The merge of the delivery date *)

Lemma filter_unique_label {A : Type} (g : A -> Z) (k : Z) (l : list A) :
  NoDup (map g l) ->
  (filter (fun o => g o =? k) l = [] /\ ~ In k (map g l))
  \/ exists o, filter (fun o => g o =? k) l = [o] /\ In o l /\ g o = k.
Proof.
  induction l as [|a l IH]; intros Hnd; [left; split; [reflexivity|intros []]|].
  cbn [map] in Hnd. inversion Hnd as [|? ? Ha Hl]; subst.
  cbn [filter]. destruct (g a =? k) eqn:E.
  - apply Z.eqb_eq in E. right. exists a.
    destruct (IH Hl) as [[-> _]|(o & _ & Ho & Eo)].
    + split; [reflexivity|]. split; [now left|exact E].
    + exfalso. apply Ha. rewrite E, <- Eo. now apply in_map.
  - apply Z.eqb_neq in E.
    destruct (IH Hl) as [[-> Hn]|(o & -> & Ho & Eo)].
    + left. split; [reflexivity|]. cbn [map In]. intros [H|H]; auto.
    + right. exists o. split; [reflexivity|]. split; [now right|exact Eo].
Qed.

Section Merge.
Import Features.
Variable df_orders : list order.
Hypothesis Hunique : NoDup (map order_ID df_orders).

Lemma merge_rows (df_members : list member) :
  map m_member (merge_delivery_date df_members df_orders) = df_members.
Proof.
  unfold merge_delivery_date.
  induction df_members as [|r l IH]; [reflexivity|].
  cbn [flat_map]. rewrite map_app, IH. f_equal.
  destruct (filter_unique_label order_ID (m_order_ID r) df_orders Hunique)
    as [[-> _]|(o & -> & _)]; reflexivity.
Qed.

Lemma merge_dates (df_members : list member) (r : member_merged) :
  In r (merge_delivery_date df_members df_orders) ->
  match m_delivery_date r with
  | Some d => exists o, In o df_orders /\ order_ID o = m_order_ID (m_member r)
                        /\ delivery_date o = d
  | None => ~ In (m_order_ID (m_member r)) (map order_ID df_orders)
  end.
Proof.
  unfold merge_delivery_date. rewrite in_flat_map. intros (m & _ & Hr).
  destruct (filter_unique_label order_ID (m_order_ID m) df_orders Hunique)
    as [[E Hn]|(o & E & Ho & Eo)]; rewrite E in Hr.
  - destruct Hr as [<-|[]]. exact Hn.
  - destruct Hr as [<-|[]]. cbn. eauto.
Qed.

Lemma merge_group_size (df_members : list member) (k : Z) :
  List.length (filter (fun r => m_order_ID (m_member r) =? k)
                      (merge_delivery_date df_members df_orders))
  = List.length (filter (fun r => m_order_ID r =? k) df_members).
Proof.
  rewrite <- (merge_rows df_members) at 2.
  now rewrite filter_map_swap, length_map.
Qed.

End Merge.

(** X15.  When no two orders share an order id, feature derivation keeps
    the members rows as they are, one output row per input row in the
    same order, and gives each the delivery date of its order; a row
    whose order is not in the orders table gets no date. *)
Theorem members_get_their_order_date
    (df_orders : list Features.order) (df_members : list Features.member)
    (df_products : list Features.product)
    (out_o : list Features.order_feat) (out_m : list Features.member_feat)
    (out_p : list Features.product_feat) :
  NoDup (map Features.order_ID df_orders) ->
  Features.main df_orders df_members df_products = Ok (out_o, out_m, out_p) ->
  map (fun r => Features.m_member (Features.f_member r)) out_m = df_members
  /\ Forall (fun r =>
               let m := Features.m_member (Features.f_member r) in
               match Features.m_delivery_date (Features.f_member r) with
               | Some d =>
                   exists o, In o df_orders
                             /\ Features.order_ID o = Features.m_order_ID m
                             /\ Features.delivery_date o = d
               | None =>
                   ~ In (Features.m_order_ID m) (map Features.order_ID df_orders)
               end)
            out_m.
Proof.
  intros Hu H. apply main_unfold in H as (_ & _ & Hm).
  unfold Features.order_request_value in Hm. apply mapM_Ok in Hm.
  assert (E : map Features.f_member out_m
              = Features.merge_delivery_date df_members df_orders).
  { symmetry. rewrite <- (map_id (Features.merge_delivery_date _ _)).
    apply Forall2_map_eq. eapply Forall2_impl; [|exact Hm].
    intros a b. cbv beta. destruct (Features.request_value _ _); [|discriminate].
    cbn [bind]. intros Hb. injection Hb as <-. reflexivity. }
  split.
  - rewrite <- (map_map Features.f_member Features.m_member), E.
    now apply merge_rows.
  - apply Forall_forall. intros r Hr. cbv zeta.
    apply (merge_dates df_orders Hu df_members). rewrite <- E. now apply in_map.
Qed.

Lemma members_get_their_order_date_witness :
  map (fun r => Features.m_member (Features.f_member r)) (snd (fst Examples.derived))
  = Examples.members.
Proof.
  refine (proj1 (members_get_their_order_date Examples.orders Examples.members
                   Examples.products (fst (fst Examples.derived))
                   (snd (fst Examples.derived)) (snd Examples.derived) _ _)).
  - repeat constructor; cbn; intuition discriminate.
  - vm_compute. reflexivity.
Defined.

(** X16.  When no two orders share an order id, the number of
    participating members of an order is the number of members rows that
    name it; an order that no members row names gets a missing value, not
    zero. *)
Theorem participants_are_counted
    (df_orders : list Features.order) (df_members : list Features.member)
    (df_products : list Features.product)
    (out_o : list Features.order_feat) (out_m : list Features.member_feat)
    (out_p : list Features.product_feat) :
  NoDup (map Features.order_ID df_orders) ->
  Features.main df_orders df_members df_products = Ok (out_o, out_m, out_p) ->
  Forall (fun o =>
            let n := List.length
                       (filter (fun r => Features.m_order_ID r
                                         =? Features.order_ID (Features.o_order o))
                               df_members) in
            Features.num_participating_members o
            = if (n =? 0)%nat then NaN else Float.of_Z (Z.of_nat n))
         out_o.
Proof.
  intros Hu H. apply main_unfold in H as (_ & -> & _).
  apply Forall_map. apply Forall_forall. intros o _. cbv zeta.
  cbn [Features.num_participating_members Features.o_order].
  rewrite <- (merge_group_size df_orders Hu df_members (Features.order_ID o)).
  unfold Features.group_size.
  destruct (filter _ (Features.merge_delivery_date df_members df_orders));
    reflexivity.
Qed.

Lemma participants_are_counted_witness :
  Forall (fun o =>
            let n := List.length
                       (filter (fun r => Features.m_order_ID r
                                         =? Features.order_ID (Features.o_order o))
                               Examples.members) in
            Features.num_participating_members o
            = if (n =? 0)%nat then NaN else Float.of_Z (Z.of_nat n))
         (fst (fst Examples.derived)).
Proof.
  refine (participants_are_counted Examples.orders Examples.members
            Examples.products (fst (fst Examples.derived))
            (snd (fst Examples.derived)) (snd Examples.derived) _ _).
  - repeat constructor; cbn; intuition discriminate.
  - vm_compute. reflexivity.
Defined.

(** ** Loading the exported tables *)

Lemma find_app_last {A : Type} (p : A -> bool) (l : list A) (x : A) :
  find p (l ++ [x])
  = match find p l with
    | Some y => Some y
    | None => if p x then Some x else None
    end.
Proof.
  induction l as [|a l IH]; simpl; [reflexivity|].
  destruct (p a); [reflexivity|exact IH].
Qed.

Lemma find_only {A : Type} (p : A -> bool) (l : list A) (x : A) :
  In x l -> p x = true -> (forall y, In y l -> p y = true -> y = x) ->
  find p l = Some x.
Proof.
  induction l as [|a l IH]; intros Hin Hp Hu; [contradiction|].
  cbn [find]. destruct (p a) eqn:E.
  - f_equal. apply Hu; [now left|exact E].
  - destruct Hin as [->|Hin]; [congruence|].
    apply IH; auto. intros y Hy. apply Hu. now right.
Qed.

Section LoadFacts.
Import Utils.
Context {O M P : Type}.
Variable read_orders : string -> result O.
Variable read_members : string -> result M.
Variable read_products : string -> result P.
Variable folder_path : string.

Local Notation "'loop'" := (load_loop read_orders read_members read_products folder_path).
Local Notation "'path'" := (fun csv => (folder_path ++ "/" ++ csv)%string).

Lemma slot_skip {A : Type} (read : string -> result A) (p : string -> bool)
    (csv : string) (rest : list string) (before now : option A) :
  p csv = false -> slot read p folder_path rest before now ->
  slot read p folder_path (csv :: rest) before now.
Proof.
  unfold slot. cbn [List.rev]. rewrite find_app_last. intros ->.
  now destruct (find p (List.rev rest)).
Qed.

Lemma slot_take {A : Type} (read : string -> result A) (p : string -> bool)
    (csv : string) (rest : list string) (before now : option A) (d : A) :
  p csv = true -> read (path csv) = Ok d ->
  slot read p folder_path rest (Some d) now ->
  slot read p folder_path (csv :: rest) before now.
Proof.
  unfold slot. cbn [List.rev]. rewrite find_app_last. intros -> Hd.
  destruct (find p (List.rev rest)); [auto|]. intros ->. eauto.
Qed.

Lemma load_loop_slots (listdir : list string) :
  forall acc out l,
    loop listdir acc = (out, Ok l) ->
    slot read_orders is_orders folder_path listdir (df_orders acc) (df_orders l)
    /\ slot read_members is_members folder_path listdir (df_members acc) (df_members l)
    /\ slot read_products is_products folder_path listdir (df_products acc) (df_products l).
Proof.
  induction listdir as [|csv rest IH]; intros acc out l H.
  - cbn in H. injection H as _ <-. unfold slot. cbn. auto.
  - cbn [load_loop] in H. unfold is_orders, is_members, is_products in *.
    destruct (contains "orders" csv) eqn:Eo.
    { destruct (read_orders _) as [d|] eqn:Ed; [|discriminate].
      apply IH in H as (H1 & H2 & H3). cbn [df_orders df_members df_products] in *.
      split; [|split].
      - eapply slot_take; eauto.
      - apply slot_skip; [now rewrite Eo|exact H2].
      - apply slot_skip; [now rewrite Eo|exact H3]. }
    destruct (contains "members" csv) eqn:Em.
    { destruct (read_members _) as [d|] eqn:Ed; [|discriminate].
      destruct (loop rest _) as [out' r] eqn:El. injection H as _ ->.
      apply IH in El as (H1 & H2 & H3). cbn [df_orders df_members df_products] in *.
      split; [|split].
      - apply slot_skip; [exact Eo|exact H1].
      - eapply slot_take; eauto. now rewrite Eo, Em.
      - apply slot_skip; [now rewrite Eo, Em|exact H3]. }
    destruct (contains "products" csv) eqn:Ep.
    { destruct (read_products _) as [d|] eqn:Ed; [|discriminate].
      apply IH in H as (H1 & H2 & H3). cbn [df_orders df_members df_products] in *.
      split; [|split].
      - apply slot_skip; [exact Eo|exact H1].
      - apply slot_skip; [now rewrite Eo, Em|exact H2].
      - eapply slot_take; eauto. now rewrite Eo, Em, Ep. }
    apply IH in H as (H1 & H2 & H3).
    split; [|split]; apply slot_skip; auto; now rewrite ?Eo, ?Em, ?Ep.
Qed.

Lemma load_loop_total (listdir : list string) :
  (forall csv, In csv listdir ->
     (is_orders csv = true -> exists d, read_orders (path csv) = Ok d)
     /\ (is_members csv = true -> exists d, read_members (path csv) = Ok d)
     /\ (is_products csv = true -> exists d, read_products (path csv) = Ok d)) ->
  forall acc, exists out l, loop listdir acc = (out, Ok l).
Proof.
  induction listdir as [|csv rest IH]; intros H acc; [cbn; eauto|].
  assert (Hrest : forall c, In c rest ->
            (is_orders c = true -> exists d, read_orders (path c) = Ok d)
            /\ (is_members c = true -> exists d, read_members (path c) = Ok d)
            /\ (is_products c = true -> exists d, read_products (path c) = Ok d))
    by (intros c Hc; apply H; now right).
  destruct (H csv (or_introl eq_refl)) as (Ho & Hm & Hp).
  unfold is_orders, is_members, is_products in Ho, Hm, Hp.
  cbn [load_loop].
  destruct (contains "orders" csv) eqn:Eo.
  { destruct (Ho eq_refl) as (d & ->). apply (IH Hrest). }
  destruct (contains "members" csv) eqn:Em.
  { destruct (Hm eq_refl) as (d & ->).
    destruct (IH Hrest {| df_orders := df_orders acc; df_members := Some d;
                          df_products := df_products acc |}) as (out & l & ->).
    eauto. }
  destruct (contains "products" csv) eqn:Ep.
  { destruct (Hp eq_refl) as (d & ->). apply (IH Hrest). }
  apply (IH Hrest).
Qed.

End LoadFacts.

Lemma prefix_digit (needle : string) (n0 c : ascii) (s : string) :
  Str.is_digit c = true -> Str.is_digit n0 = false ->
  String.prefix (String n0 needle) (String c s) = false.
Proof.
  intros Hc Hn. cbn [String.prefix].
  destruct (ascii_dec n0 c) as [->|]; [congruence|reflexivity].
Qed.

Lemma contains_after_digits (needle : string) (n0 : ascii) (d rest : string) :
  Utils.all_digits d = true -> Str.is_digit n0 = false ->
  Utils.contains (String n0 needle) (d ++ rest)
  = Utils.contains (String n0 needle) rest.
Proof.
  intros Hd Hn. induction d as [|c d IH]; [reflexivity|].
  cbn [Utils.all_digits] in Hd. apply andb_prop in Hd as [Hc Hd].
  change (String c d ++ rest)%string with (String c (d ++ rest)).
  cbn [Utils.contains]. rewrite (prefix_digit _ _ _ _ Hc Hn), (IH Hd).
  reflexivity.
Qed.

(** X17.  Each frame [load_data] returns was read from the last entry of
    the directory listing whose name takes its branch of the loop: a name
    with [orders] in it is an orders file whatever else it holds, a name
    with [members] and no [orders] a members file, a name with
    [products] and neither of the others a products file.  A frame
    without such an entry is [None]. *)
Theorem load_data_keeps_last_match
    {O M P : Type} (read_orders : string -> result O)
    (read_members : string -> result M) (read_products : string -> result P)
    (folder_path : string) (listdir : list string)
    (out : list Utils.action) (l : Utils.loaded O M P) :
  Utils.load_data read_orders read_members read_products folder_path listdir
  = (out, Ok l) ->
  match find Utils.is_orders (List.rev listdir) with
  | Some csv => exists d, read_orders (folder_path ++ "/" ++ csv)%string = Ok d
                          /\ Utils.df_orders l = Some d
  | None => Utils.df_orders l = None
  end
  /\ match find Utils.is_members (List.rev listdir) with
     | Some csv => exists d, read_members (folder_path ++ "/" ++ csv)%string = Ok d
                             /\ Utils.df_members l = Some d
     | None => Utils.df_members l = None
     end
  /\ match find Utils.is_products (List.rev listdir) with
     | Some csv => exists d, read_products (folder_path ++ "/" ++ csv)%string = Ok d
                             /\ Utils.df_products l = Some d
     | None => Utils.df_products l = None
     end.
Proof.
  unfold Utils.load_data.
  destruct (Utils.load_loop _ _ _ _ _ _) as [out' r] eqn:E.
  intros H. injection H as _ ->.
  exact (load_loop_slots read_orders read_members read_products folder_path
           listdir _ _ _ E).
Qed.

Lemma load_data_keeps_last_match_witness :
  match find Utils.is_orders
             (List.rev ["a_members.csv"; "orders_of_members.csv"; "b_members.csv";
                        "notes.txt"]%string) with
  | Some csv => exists d, Ok (A := string) ("data" ++ "/" ++ csv)%string = Ok d
                          /\ Some "data/orders_of_members.csv"%string = Some d
  | None => Some "data/orders_of_members.csv"%string = None
  end.
Proof.
  exact (proj1 (load_data_keeps_last_match
                  (fun p => Ok p) (fun p => Ok p) (fun p => Ok p) "data"
                  ["a_members.csv"; "orders_of_members.csv"; "b_members.csv";
                   "notes.txt"]%string
                  [Utils.StdoutList ["a_members.csv"; "orders_of_members.csv";
                                      "b_members.csv"; "notes.txt"]%string;
                   Utils.Stdout Utils.REMINDER; Utils.Stdout Utils.REMINDER]
                  {| Utils.df_orders := Some "data/orders_of_members.csv"%string;
                     Utils.df_members := Some "data/b_members.csv"%string;
                     Utils.df_products := None |}
                  ltac:(vm_compute; reflexivity))).
Defined.

(** X18.  The three tables [export_as_csv] writes are found again by
    [load_data]: when the directory holds, in any order, the files
    exported on one day for the orders, members and products tables and
    for the RFM table, and the three files can be read, each frame is
    read from the file of its own name and the RFM file is ignored. *)
Theorem exported_tables_load_back
    {O M P : Type} (read_orders : string -> result O)
    (read_members : string -> result M) (read_products : string -> result P)
    (folder_path todaystr : string) (listdir : list string)
    (o : O) (m : M) (p : P) :
  Utils.all_digits todaystr = true ->
  Permutation listdir
    (map (Utils.csv_filename todaystr) ["orders"; "members"; "products"; "rfm_table"]%string) ->
  read_orders (folder_path ++ "/" ++ Utils.csv_filename todaystr "orders")%string = Ok o ->
  read_members (folder_path ++ "/" ++ Utils.csv_filename todaystr "members")%string = Ok m ->
  read_products (folder_path ++ "/" ++ Utils.csv_filename todaystr "products")%string = Ok p ->
  snd (Utils.load_data read_orders read_members read_products folder_path listdir)
  = Ok {| Utils.df_orders := Some o; Utils.df_members := Some m;
          Utils.df_products := Some p |}.
Proof.
  intros Hd Hperm Ro Rm Rp.
  assert (Hc : forall needle0 needle name,
            Str.is_digit needle0 = false ->
            Utils.contains (String needle0 needle) (Utils.csv_filename todaystr name)
            = Utils.contains (String needle0 needle) ("_scoop_" ++ name ++ ".csv")%string).
  { intros n0 nd name Hn. unfold Utils.csv_filename.
    now apply contains_after_digits. }
  assert (Hnames : forall csv, In csv listdir <->
            csv = Utils.csv_filename todaystr "orders"
            \/ csv = Utils.csv_filename todaystr "members"
            \/ csv = Utils.csv_filename todaystr "products"
            \/ csv = Utils.csv_filename todaystr "rfm_table").
  { intros csv. split.
    - intros H. apply (Permutation_in _ Hperm) in H. cbn [map In] in H.
      intuition auto.
    - intros H. apply (Permutation_in _ (Permutation_sym Hperm)). cbn [map In].
      intuition auto. }
  assert (Hdistinct : forall a b,
            Utils.csv_filename todaystr a = Utils.csv_filename todaystr b ->
            ("_scoop_" ++ a ++ ".csv" = "_scoop_" ++ b ++ ".csv")%string).
  { intros a b. unfold Utils.csv_filename. clear.
    induction todaystr as [|c t IH]; cbn; [auto|]. intros H. injection H. auto. }
  assert (Hbranch :
            (forall name, In name ["orders"; "members"; "products"; "rfm_table"]%string ->
               Utils.is_orders (Utils.csv_filename todaystr name)
               = String.eqb name "orders")
            /\ (forall name, In name ["orders"; "members"; "products"; "rfm_table"]%string ->
               Utils.is_members (Utils.csv_filename todaystr name)
               = String.eqb name "members")
            /\ (forall name, In name ["orders"; "members"; "products"; "rfm_table"]%string ->
               Utils.is_products (Utils.csv_filename todaystr name)
               = String.eqb name "products")).
  { unfold Utils.is_orders, Utils.is_members, Utils.is_products.
    repeat split; intros name Hn; rewrite !Hc by reflexivity;
      cbn [In] in Hn; intuition (subst; reflexivity). }
  destruct Hbranch as (Bo & Bm & Bp).
  destruct (load_loop_total read_orders read_members read_products folder_path listdir)
    with (acc := {| Utils.df_orders := @None O; Utils.df_members := @None M;
                    Utils.df_products := @None P |}) as (out & l & El).
  { intros csv Hin. apply Hnames in Hin.
    repeat split; intros Hb;
      destruct Hin as [-> | [-> | [-> | ->]]];
      rewrite ?Bo, ?Bm, ?Bp in Hb by (cbn [In]; auto);
      try discriminate; eauto. }
  pose proof (load_loop_slots read_orders read_members read_products folder_path
                listdir _ _ _ El) as (So & Sm & Sp).
  unfold Utils.load_data. rewrite El. cbn [snd].
  assert (Hfind : forall (pred : string -> bool) (name : string),
            In name ["orders"; "members"; "products"]%string ->
            (forall n, In n ["orders"; "members"; "products"; "rfm_table"]%string ->
                       pred (Utils.csv_filename todaystr n) = String.eqb n name) ->
            find pred (List.rev listdir) = Some (Utils.csv_filename todaystr name)).
  { intros pred name Hname Hpred. apply find_only.
    - apply in_rev. rewrite List.rev_involutive. apply Hnames.
      cbn [In] in Hname. intuition (subst; auto).
    - rewrite Hpred; [apply String.eqb_refl|].
      cbn [In] in Hname |- *. intuition auto.
    - intros y Hy Py. apply in_rev in Hy. apply Hnames in Hy.
      assert (Hy' : exists n, In n ["orders"; "members"; "products"; "rfm_table"]%string
                              /\ y = Utils.csv_filename todaystr n).
      { cbn [In]. intuition eauto 10. }
      destruct Hy' as (n & Hn & ->). rewrite (Hpred n Hn) in Py.
      apply String.eqb_eq in Py. now subst. }
  unfold Utils.slot in So, Sm, Sp. cbn [Utils.df_orders Utils.df_members Utils.df_products] in *.
  rewrite (Hfind Utils.is_orders "orders"%string) in So by (cbn [In]; auto).
  rewrite (Hfind Utils.is_members "members"%string) in Sm by (cbn [In]; auto).
  rewrite (Hfind Utils.is_products "products"%string) in Sp by (cbn [In]; auto).
  destruct So as (d1 & E1 & S1). destruct Sm as (d2 & E2 & S2).
  destruct Sp as (d3 & E3 & S3).
  rewrite Ro in E1. rewrite Rm in E2. rewrite Rp in E3.
  injection E1 as <-. injection E2 as <-. injection E3 as <-.
  destruct l as [lo lm lp]. cbn in S1, S2, S3. now subst.
Qed.

Lemma exported_tables_load_back_witness :
  snd (Utils.load_data (fun path => Ok path) (fun path => Ok path) (fun path => Ok path)
         "data/processed"
         (map (Utils.csv_filename "20240131")
              ["members"; "orders"; "products"; "rfm_table"]%string))
  = Ok {| Utils.df_orders := Some "data/processed/20240131_scoop_orders.csv"%string;
          Utils.df_members := Some "data/processed/20240131_scoop_members.csv"%string;
          Utils.df_products := Some "data/processed/20240131_scoop_products.csv"%string |}.
Proof.
  apply (exported_tables_load_back (fun path => Ok path) (fun path => Ok path)
           (fun path => Ok path) "data/processed" "20240131").
  - reflexivity.
  - cbn [map]. apply perm_swap.
  - reflexivity.
  - reflexivity.
  - reflexivity.
Defined.

(** ** Recency against the count of periods *)

Lemma month_drift_cycle : Calendar.all_below 4800 month_drift_ok = true.
Proof. vm_cast_no_check (eq_refl true). Qed.

Lemma month_drift_bounds (o : Z) : -12606 <= month_drift o <= 8475.
Proof.
  pose proof (Z.div_mod o 4800 ltac:(lia)) as E.
  pose proof (Z.mod_pos_bound o 4800 ltac:(lia)) as B.
  pose proof (all_below_spec 4800 month_drift_ok month_drift_cycle (o mod 4800) B) as H.
  unfold month_drift_ok in H. apply andb_prop in H as [H1 H2].
  apply Z.leb_le in H1, H2.
  revert E B H1 H2. generalize (o mod 4800) (o / 4800). intros r k E B H1 H2.
  assert (Eo : o = r + 4800 * k) by lia. rewrite Eo.
  unfold month_drift in *. rewrite month_start_shift. lia.
Qed.

(** The first days of two months are as many mean months apart as the
    months are, up to less than five days. *)
Lemma month_span (a b : Z) :
  -21081 <= 4800 * (Calendar.month_start b - Calendar.month_start a) - 146097 * (b - a)
  <= 21081.
Proof.
  pose proof (month_drift_bounds a) as Ha. pose proof (month_drift_bounds b) as Hb.
  unfold month_drift in *. lia.
Qed.

Lemma monthly_recency_bound (e t : Z) :
  t <= e ->
  spec_recency Calendar.FreqM e t - 1
  <= (e - Calendar.to_timestamp Calendar.FreqM (Calendar.to_period Calendar.FreqM t))
     / Rfm.freq_timedeltas Calendar.FreqM
  <= spec_recency Calendar.FreqM e t + 1.
Proof.
  intros Hle. unfold spec_recency.
  cbn [Calendar.to_period Calendar.to_timestamp Rfm.freq_timedeltas].
  pose proof (month_bracket_all (Calendar.unix_date e)) as [He1 He2].
  set (Pe := Calendar.month_ordinal (Calendar.unix_date e)) in *.
  set (Pt := Calendar.month_ordinal (Calendar.unix_date t)) in *.
  pose proof (month_span Pt Pe) as S1. pose proof (month_span Pt (Pe + 1)) as S2.
  assert (Hd : Calendar.NS_PER_DAY * Calendar.unix_date e <= e
               < Calendar.NS_PER_DAY * (Calendar.unix_date e + 1)).
  { unfold Calendar.unix_date, Calendar.NS_PER_DAY. Z.div_mod_to_equations. lia. }
  revert He1 He2 S1 S2 Hd.
  generalize (Calendar.unix_date e) (Calendar.month_start Pe)
             (Calendar.month_start (Pe + 1)) (Calendar.month_start Pt).
  unfold Calendar.NS_PER_DAY. intros ud mse mse1 mst He1 He2 S1 S2 Hd.
  split.
  - apply Z.div_le_lower_bound; lia.
  - apply Z.lt_succ_r. apply Z.div_lt_upper_bound; lia.
Qed.

Section RecencyRows.
Import Calendar Rfm.
Variable f : Freq.
Variable df : list member.

Lemma make_table_member_rows (freq : string) (tbl : list rfm_row) :
  offset_alias freq = Some f ->
  make_table df freq = Ok tbl ->
  NoDup (map rfm_member_ID tbl)
  /\ forall m, In m (map rfm_member_ID tbl)
               <-> In m (map member_ID (drop_company_account df)).
Proof.
  intros Hf H. rewrite (make_table_unfold df freq f Hf) in H. injection H as <-.
  rewrite map_map. cbn [aggregate_member rfm_member_ID]. rewrite map_id.
  split; [apply sorted_unique_NoDup_Z|].
  intros m. rewrite sorted_unique_In_Z. apply rows_members_ext.
Qed.

End RecencyRows.

(** C4, as stated, fails with monthly periods.  The code divides the time
    between the latest delivery of the table and the start of the
    member's latest active month by the mean month of 2629746 seconds.
    With the latest delivery on 1 March, a member last active in February
    gets recency 0 although one whole period has elapsed; with the latest
    delivery on 31 August, a member last active in July gets recency 2
    although one period has elapsed. *)
Lemma recency_counterexample :
  Rfm.make_table Examples.month_boundary_members "M"
  = Ok [ {| Rfm.rfm_member_ID := 1; Rfm.recency := Some 0;
            Rfm.frequency := 1; Rfm.monetary_value := Fin 10 |};
         {| Rfm.rfm_member_ID := 2; Rfm.recency := Some 0;
            Rfm.frequency := 1; Rfm.monetary_value := Fin 20 |} ]
  /\ Rfm.max_date (map delivery_date Examples.month_boundary_members)
     = Some (Examples.ts 2020 3 1)
  /\ spec_recency Calendar.FreqM (Examples.ts 2020 3 1) (Examples.ts 2020 2 15) = 1
  /\ Rfm.make_table
       [ {| member_ID := 1; delivery_date := Examples.ts 2020 7 1;
            order_request_value := Some 10%Q |};
         {| member_ID := 2; delivery_date := Examples.ts 2020 8 31;
            order_request_value := Some 20%Q |} ] "M"
     = Ok [ {| Rfm.rfm_member_ID := 1; Rfm.recency := Some 2;
               Rfm.frequency := 1; Rfm.monetary_value := Fin 10 |};
            {| Rfm.rfm_member_ID := 2; Rfm.recency := Some 0;
               Rfm.frequency := 1; Rfm.monetary_value := Fin 20 |} ]
  /\ spec_recency Calendar.FreqM (Examples.ts 2020 8 31) (Examples.ts 2020 7 1) = 1.
Proof. repeat split; vm_compute; reflexivity. Qed.

(** C4, amended.  For every members table and granularity the table is
    built and has exactly one row for every member other than member 46.
    The recency of a member is the floor of the time between the latest
    delivery of the table (the code's [period_end]) and the start of the
    period of the member's latest delivery, divided by the fixed period
    length.  With weekly periods this is the number of whole periods
    elapsed between the two periods; with monthly periods it is that
    number or one more or one less. *)
Theorem recency_is_floor_of_elapsed_time
    (df : list member) (freq : string) (f : Calendar.Freq) :
  Calendar.offset_alias freq = Some f ->
  exists tbl,
    Rfm.make_table df freq = Ok tbl
    /\ NoDup (map Rfm.rfm_member_ID tbl)
    /\ (forall x, In x tbl ->
          In (Rfm.rfm_member_ID x) (map member_ID (drop_company_account df)))
    /\ forall m, In m (map member_ID (drop_company_account df)) ->
       exists x period_end last,
         In x tbl /\ Rfm.rfm_member_ID x = m
         /\ Rfm.max_date (map delivery_date (drop_company_account df)) = Some period_end
         /\ In last (drop_company_account df)
         /\ member_ID last = m
         /\ (forall r, In r (drop_company_account df) -> member_ID r = m ->
                       delivery_date r <= delivery_date last)
         /\ Rfm.recency x
            = Some ((period_end
                     - Calendar.to_timestamp f (Calendar.to_period f (delivery_date last)))
                    / Rfm.freq_timedeltas f)
         /\ (f = Calendar.FreqW ->
             Rfm.recency x = Some (spec_recency f period_end (delivery_date last)))
         /\ (f = Calendar.FreqM ->
             exists k, Rfm.recency x = Some k
                       /\ spec_recency f period_end (delivery_date last) - 1 <= k
                          <= spec_recency f period_end (delivery_date last) + 1).
Proof.
  intros Hf. destruct (make_table_rows df freq f Hf) as (tbl & Ht & H).
  destruct (make_table_member_rows f df freq tbl Hf Ht) as (Hnd & Hin).
  exists tbl. split; [exact Ht|]. split; [exact Hnd|]. split.
  { intros x Hx. apply Hin. now apply in_map. }
  intros m Hm. apply Hin in Hm. apply in_map_iff in Hm as (x & <- & Hx).
  destruct (H x Hx) as (e & last & q & He & Hl & Em & Hmax & Hr & _ & _).
  exists x, e, last. repeat split; auto.
  - intros ->. rewrite Hr. f_equal. apply week_recency.
  - intros ->. eexists. split; [exact Hr|].
    apply monthly_recency_bound.
    assert (Hne : map delivery_date (drop_company_account df) <> []).
    { intros Hnil. rewrite Hnil in He. discriminate. }
    destruct (max_date_spec _ Hne) as (e' & Ee' & _ & Hub).
    rewrite He in Ee'. injection Ee' as <-. apply Hub. now apply in_map.
Qed.

Lemma recency_is_floor_of_elapsed_time_witness :
  exists tbl,
    Rfm.make_table Examples.month_boundary_members "M" = Ok tbl
    /\ NoDup (map Rfm.rfm_member_ID tbl)
    /\ (forall x, In x tbl ->
          In (Rfm.rfm_member_ID x)
             (map member_ID (drop_company_account Examples.month_boundary_members)))
    /\ forall m, In m (map member_ID (drop_company_account Examples.month_boundary_members)) ->
       exists x period_end last,
         In x tbl /\ Rfm.rfm_member_ID x = m
         /\ Rfm.max_date (map delivery_date
                            (drop_company_account Examples.month_boundary_members))
            = Some period_end
         /\ In last (drop_company_account Examples.month_boundary_members)
         /\ member_ID last = m
         /\ (forall r, In r (drop_company_account Examples.month_boundary_members) ->
                       member_ID r = m -> delivery_date r <= delivery_date last)
         /\ Rfm.recency x
            = Some ((period_end
                     - Calendar.to_timestamp Calendar.FreqM
                         (Calendar.to_period Calendar.FreqM (delivery_date last)))
                    / Rfm.freq_timedeltas Calendar.FreqM)
         /\ (Calendar.FreqM = Calendar.FreqW ->
             Rfm.recency x
             = Some (spec_recency Calendar.FreqM period_end (delivery_date last)))
         /\ (Calendar.FreqM = Calendar.FreqM ->
             exists k, Rfm.recency x = Some k
                       /\ spec_recency Calendar.FreqM period_end (delivery_date last) - 1
                          <= k
                          <= spec_recency Calendar.FreqM period_end (delivery_date last) + 1).
Proof.
  apply (recency_is_floor_of_elapsed_time Examples.month_boundary_members "M"
           Calendar.FreqM).
  reflexivity.
Defined.

(** ** The scored rows *)

(** C7, as stated, fails: for a table that is not empty and a valid
    granularity the analysis may return no scores at all.  Two members
    with one delivery each have the same frequency, the quartile edges of
    the frequency coincide, and [pandas.qcut] raises [ValueError]. *)
Lemma rfm_score_counterexample :
  drop_company_account
    [ {| member_ID := 1; delivery_date := Examples.ts 2020 1 6;
         order_request_value := Some 10%Q |};
      {| member_ID := 2; delivery_date := Examples.ts 2020 1 15;
         order_request_value := Some 20%Q |} ] <> []
  /\ Rfm.main
       [ {| member_ID := 1; delivery_date := Examples.ts 2020 1 6;
            order_request_value := Some 10%Q |};
         {| member_ID := 2; delivery_date := Examples.ts 2020 1 15;
            order_request_value := Some 20%Q |} ] "W" false false
     = ([], Raise ValueError).
Proof. split; [vm_compute; discriminate|vm_compute; reflexivity]. Qed.

(** C7, amended.  For every members table and granularity the RFM table
    is built, has a row for every member other than member 46, and every
    row has a frequency of at least 1 and a recency of at least 0.
    Whenever the analysis returns, it returns exactly those rows, in the
    same order, and the score of every row is the three characters made
    of its recency, frequency and monetary digits, in that order, each
    one of 1, 2, 3, 4. *)
Theorem rfm_scored_rows_well_formed
    (df : list member) (freq : string) (export_csv export_plot : bool) :
  (forall f, Calendar.offset_alias freq = Some f ->
     exists tbl,
       Rfm.make_table df freq = Ok tbl
       /\ Forall Rfm.well_formed_row tbl
       /\ forall m, In m (map Rfm.rfm_member_ID tbl)
                    <-> In m (map member_ID (drop_company_account df)))
  /\ (forall ev scored,
        Rfm.main df freq export_csv export_plot = (ev, Ok (Some scored)) ->
        exists tbl,
          Rfm.make_table df freq = Ok tbl
          /\ map Rfm.row scored = tbl
          /\ Forall Rfm.well_scored scored).
Proof.
  split.
  - intros f Hf. destruct (make_table_well_formed df freq f Hf) as (tbl & Ht & H).
    exists tbl. split; [exact Ht|]. split.
    + eapply Forall_impl; [|exact H]. now intros x [Hx _].
    + exact (proj2 (make_table_member_rows f df freq tbl Hf Ht)).
  - intros ev tbl H.
    destruct (rfm_main_valid df freq _ _ ev tbl H) as (f & t0 & info & Hf & Ha & Ht & Hs).
    exists t0. split; [exact Ht|]. split.
    { exact (recency_score_rows f Hf t0 freq tbl info Ha Hs). }
    destruct (make_table_well_formed df freq f Ha) as (t0' & Ht' & Hwf).
    rewrite Ht in Ht'. inversion Ht'; subst t0'. clear Ht'.
    destruct (add_score_unfold t0 freq f tbl info Hf Ha Hs)
      as (fs & ms & fb & mb & Ef & Em & -> & _).
    rewrite <- (map_map Rfm.frequency (fun z => Fin (inject_Z z))) in Ef.
    rewrite <- (map_map _ Fin) in Ef.
    apply qcut_labels in Ef as [Hfs _].
    assert (Hm : exists qs, map Rfm.monetary_value t0 = map Fin qs).
    { clear -Hwf. induction Hwf as [|x l [_ (q & Hq)] _ (qs & IH)];
        [exists []; reflexivity|].
      exists (q :: qs). cbn [map]. now rewrite Hq, IH. }
    destruct Hm as (qs & Hm). rewrite Hm in Em.
    apply qcut_labels in Em as [Hms _].
    assert (Hrs : Forall Rfm.is_score
                    (map (fun x => Rfm.spec_r_score f (Rfm.recency x)) t0)).
    { apply Forall_map. eapply Forall_impl; [|exact Hwf].
      intros x [[_ (k & -> & Hk)] _]. now apply spec_r_score_is_score. }
    pose proof (zip_scores_props Rfm.well_formed_row Rfm.is_score Rfm.is_score
                  Rfm.is_score t0 _ fs ms
                  (Forall_impl _ (fun x H => proj1 H) Hwf) Hrs Hfs Hms) as Hz.
    eapply Forall_impl; [|exact Hz]. cbv beta.
    intros s (Hw & (r & Er & Hr) & (fq & Efq & Hfq) & (m & Em' & Hmq) & Estr).
    split; [exact Hw|]. exists r, fq, m.
    rewrite Estr, Er, Efq, Em'.
    rewrite (score_str_digit r Hr), (score_str_digit fq Hfq), (score_str_digit m Hmq).
    repeat split; auto; lia.
Qed.

Lemma rfm_scored_rows_well_formed_witness :
  (exists tbl,
     Rfm.make_table Examples.rfm_members "W" = Ok tbl
     /\ Forall Rfm.well_formed_row tbl
     /\ forall m, In m (map Rfm.rfm_member_ID tbl)
                  <-> In m (map member_ID (drop_company_account Examples.rfm_members)))
  /\ exists tbl,
       Rfm.make_table Examples.rfm_members "W" = Ok tbl
       /\ map Rfm.row Examples.rfm_scored = tbl
       /\ Forall Rfm.well_scored Examples.rfm_scored.
Proof.
  destruct (rfm_scored_rows_well_formed Examples.rfm_members "W" true true) as [H1 H2].
  split.
  - exact (H1 Calendar.FreqW eq_refl).
  - apply (H2 [ExportCsv "rfm_table"; Print "export rfm_table done";
               ExportPlot "rfm_heatmap" "W"]).
    vm_compute. reflexivity.
Defined.

(** ** Requests of an order without products *)





